(** * Power-BI-Agents: the documentation / change-audit pipeline

    A shallow embedding of [ai-powerbi-agent.py] (class [PowerBIAIAgent]
    and [main]).  The program is a straight line of calls to its
    collaborators: the remote model session (MCP), the reasoning service,
    git, the file system, the clock and stdout.  Every such call is an
    effect on one [World]; the methods are written in a
    state-and-exception monad over that world, and each of them logs what
    it does in a trace. *)

From Stdlib Require Import String Ascii List Arith ZArith NArith Lia Bool.
Import ListNotations.
Open Scope string_scope.

Set Warnings "-register-all".

(* ================================================================== *)
(** * Python values, as [json.loads] produces them *)
(* ================================================================== *)

(** JSON numbers are kept to the integers: no value that flows through
    the program is used arithmetically, only tested for truth. *)
Inductive pyval : Type :=
| PNone
| PBool (b : bool)
| PInt (n : Z)
| PStr (s : string)
| PList (xs : list pyval)
| PDict (kvs : list (string * pyval)).

(** The exceptions the program can meet.  None of them is caught anywhere
    in the source: there is no [try] in the file. *)
Inductive exn : Type :=
| KeyError (key : string)
| TypeError
| AttributeError
| IndexError
| JSONDecodeError
| McpError (what : string)
| ClosedResourceError
| APIError (what : string)
| GitCommandError
| FileNotFoundError
| FileExistsError
| NotADirectoryError
| IsADirectoryError
| ShutilError
| UnicodeEncodeError.

Definition result (A : Type) : Type := (exn + A)%type.

(** [bool(v)], the truth value Python gives a value. *)
Definition truthy (v : pyval) : bool :=
  match v with
  | PNone => false
  | PBool b => b
  | PInt n => negb (Z.eqb n 0)
  | PStr s => negb (String.eqb s EmptyString)
  | PList xs => match xs with [] => false | _ :: _ => true end
  | PDict kvs => match kvs with [] => false | _ :: _ => true end
  end.

Fixpoint assoc (k : string) (kvs : list (string * pyval)) : option pyval :=
  match kvs with
  | [] => None
  | (k', v) :: rest => if String.eqb k k' then Some v else assoc k rest
  end.

(** [v[k]] for a string key. *)
Definition subscript (v : pyval) (k : string) : result pyval :=
  match v with
  | PDict kvs => match assoc k kvs with
                 | Some x => inr x
                 | None => inl (KeyError k)
                 end
  | _ => inl TypeError
  end.

(** [v.get(k, default)]; only dicts have the method. *)
Definition py_get (v : pyval) (k : string) (default : pyval) : result pyval :=
  match v with
  | PDict kvs => match assoc k kvs with
                 | Some x => inr x
                 | None => inr default
                 end
  | _ => inl AttributeError
  end.

Fixpoint chars (s : string) : list pyval :=
  match s with
  | EmptyString => []
  | String c rest => PStr (String c EmptyString) :: chars rest
  end.

(** What a [for] loop iterates over. *)
Definition py_iter (v : pyval) : result (list pyval) :=
  match v with
  | PList xs => inr xs
  | PDict kvs => inr (map (fun kv => PStr (fst kv)) kvs)
  | PStr s => inr (chars s)
  | _ => inl TypeError
  end.

(** [a + b] where [b] is a [str]. *)
Definition str_add (a : pyval) (b : string) : result string :=
  match a with
  | PStr s => inr (s ++ b)
  | _ => inl TypeError
  end.

(** A text, as far as [json.loads] can tell texts apart: either it is not
    JSON, or it is the encoding of a value. *)
Inductive text : Type :=
| Malformed (raw : string)
| Encodes (v : pyval).

Definition json_loads (t : text) : result pyval :=
  match t with
  | Malformed _ => inl JSONDecodeError
  | Encodes v => inr v
  end.

(** One block of a reply ([result.content[i]], [response.content[i]]):
    text blocks have a [.text], the other kinds do not. *)
Inductive block : Type :=
| TextBlock (t : text)
| OtherBlock.

(** [reply.content[0].text] *)
Definition content0_text (content : list block) : result text :=
  match content with
  | [] => inl IndexError
  | TextBlock t :: _ => inr t
  | OtherBlock :: _ => inl AttributeError
  end.

(** What [session.call_tool] returns: the blocks of the reply, and the
    flag by which a server reports that the tool failed.  A failed tool
    is a result like any other, not an exception; the program reads
    [.content] and never looks at the flag. *)
Record call_result : Type := mkResult {
  isError : bool;
  content : list block
}.

(* ================================================================== *)
(** * Time stamps *)
(* ================================================================== *)

Record datetime : Type := mkDatetime {
  year : nat; month : nat; day : nat;
  hour : nat; minute : nat; second : nat;
  microsecond : nat
}.

Definition nl : string := String "010"%char EmptyString.

Definition digit (n : nat) : ascii := ascii_of_nat (48 + n mod 10).

(** The last [width] decimal digits of [n], most significant first:
    the zero-padded fields of [strftime]. *)
Fixpoint fix_digits (width n : nat) : string :=
  match width with
  | O => EmptyString
  | S w => fix_digits w (n / 10) ++ String (digit n) EmptyString
  end.

(** [f"{d:%Y%m%d_%H%M%S}"] *)
Definition strftime_compact (d : datetime) : string :=
  fix_digits 4 (year d) ++ fix_digits 2 (month d) ++ fix_digits 2 (day d)
  ++ "_" ++ fix_digits 2 (hour d) ++ fix_digits 2 (minute d)
  ++ fix_digits 2 (second d).

(** [f"{d:%Y-%m-%d %H:%M:%S}"] *)
Definition strftime_header (d : datetime) : string :=
  fix_digits 4 (year d) ++ "-" ++ fix_digits 2 (month d) ++ "-"
  ++ fix_digits 2 (day d) ++ " " ++ fix_digits 2 (hour d) ++ ":"
  ++ fix_digits 2 (minute d) ++ ":" ++ fix_digits 2 (second d).

(** The range of a [datetime] whose year prints on four digits. *)
Definition datetime_ok (d : datetime) : Prop :=
  year d < 10 ^ 4 /\ month d < 100 /\ day d < 100 /\
  hour d < 100 /\ minute d < 100 /\ second d < 100.

Definition same_second (a b : datetime) : Prop :=
  year a = year b /\ month a = month b /\ day a = day b /\
  hour a = hour b /\ minute a = minute b /\ second a = second b.

(* ================================================================== *)
(** * The file system *)
(* ================================================================== *)

Definition path : Type := list string.

Inductive node : Type :=
| File (content : string)
| Dir.

(** An association list, first binding wins; the empty path is the
    working directory, which is always a directory. *)
Definition FS : Type := list (path * node).

Definition path_eqb (p q : path) : bool :=
  if list_eq_dec string_dec p q then true else false.

Fixpoint fs_lookup (fs : FS) (p : path) : option node :=
  match fs with
  | [] => None
  | (q, n) :: rest => if path_eqb p q then Some n else fs_lookup rest p
  end.

Definition node_at (fs : FS) (p : path) : option node :=
  match p with
  | [] => Some Dir
  | _ => fs_lookup fs p
  end.

(** [strip_prefix pre p = Some rest] iff [p = pre ++ rest]. *)
Fixpoint strip_prefix (pre p : path) : option path :=
  match pre, p with
  | [], _ => Some p
  | a :: pre', b :: p' =>
      if String.eqb a b then strip_prefix pre' p' else None
  | _ :: _, [] => None
  end.

(** [os.makedirs(p, exist_ok=True)] and [Path(p).mkdir(parents=True,
    exist_ok=True)]: walk down from the working directory; [done] is the
    part already known to be a directory. *)
Fixpoint makedirs_from (done todo : path) (fs : FS) : result FS :=
  match todo with
  | [] => inr fs
  | c :: rest =>
      let here := (done ++ [c])%list in
      match fs_lookup fs here with
      | Some Dir => makedirs_from here rest fs
      | Some (File _) =>
          inl (match rest with [] => FileExistsError | _ => NotADirectoryError end)
      | None => makedirs_from here rest ((here, Dir) :: fs)
      end
  end.

Definition makedirs (p : path) (fs : FS) : result FS := makedirs_from [] p fs.

(** The paths, relative to [src], of what lies below [src]. *)
Definition below (src : path) (fs : FS) : list path :=
  flat_map (fun pn => match strip_prefix src (fst pn) with
                      | Some (c :: r) => [c :: r]
                      | _ => []
                      end) fs.

(** Does the copy get as far as [src ++ r]?  It walks down from [src]
    through directories, and it gives up on a directory whose name is
    taken by a file on the side of [dst]. *)
Fixpoint walkable (src dst r : path) (fs : FS) : bool :=
  match r with
  | c :: ((_ :: _) as rest) =>
      match fs_lookup fs (src ++ [c])%list with
      | Some Dir =>
          match fs_lookup fs (dst ++ [c])%list with
          | Some (File _) => false
          | _ => walkable (src ++ [c])%list (dst ++ [c])%list rest fs
          end
      | _ => false
      end
  | _ => true
  end.

(** What the copy does with the node at [src ++ r]: the binding it
    adds, and whether it notes an error.  A directory is made unless a
    file has its name ([os.makedirs(..., exist_ok=True)] raises
    [FileExistsError]).  A file is written over a file of its name; when
    a directory has its name, [copy2] writes the file into that
    directory, under the same name, and fails if that again is a
    directory. *)
Definition copy_node (src dst : path) (fs : FS) (r : path)
  : list (path * node) * bool :=
  if walkable src dst r fs then
    match fs_lookup fs (src ++ r)%list with
    | Some Dir =>
        match fs_lookup fs (dst ++ r)%list with
        | Some (File _) => ([], true)
        | _ => ([((dst ++ r)%list, Dir)], false)
        end
    | Some (File c) =>
        match fs_lookup fs (dst ++ r)%list with
        | Some Dir =>
            let inside := (dst ++ r ++ [last r EmptyString])%list in
            match fs_lookup fs inside with
            | Some Dir => ([], true)
            | _ => ([(inside, File c)], false)
            end
        | _ => ([((dst ++ r)%list, File c)], false)
        end
    | None => ([], false)
    end
  else ([], false).

(** [shutil.copytree(src, dst, dirs_exist_ok=True)], for a destination
    outside the source tree.  A source that is not a directory raises;
    the destination and its parents are created as needed, or that
    raises; then every node below [src] is copied as [copy_node] says.
    The errors met on the way do not stop the copy: everything else is
    copied, and [shutil.Error] is raised at the end.  What [dst] holds
    besides stays. *)
Definition copytree_fs (src dst : path) (fs : FS) : result unit * FS :=
  match node_at fs src with
  | Some Dir =>
      match makedirs dst fs with
      | inl e => (inl e, fs)
      | inr fs1 =>
          let steps := map (copy_node src dst fs1) (below src fs1) in
          let fs2 := (flat_map fst steps ++ fs1)%list in
          if existsb snd steps then (inl ShutilError, fs2) else (inr tt, fs2)
      end
  | Some (File _) => (inl NotADirectoryError, fs)
  | None => (inl FileNotFoundError, fs)
  end.

Definition parent (p : path) : path := removelast p.

(** [open(p, 'w')]: the parent must be a directory and [p] must not be
    one; the file is created or truncated. *)
Definition open_w_fs (p : path) (fs : FS) : result FS :=
  match p with
  | [] => inl IsADirectoryError
  | _ =>
      match node_at fs (parent p) with
      | Some Dir =>
          match fs_lookup fs p with
          | Some Dir => inl IsADirectoryError
          | _ => inr ((p, File EmptyString) :: fs)
          end
      | Some (File _) => inl NotADirectoryError
      | None => inl FileNotFoundError
      end
  end.

(** [f.write(data)] on a file opened at [p]. *)
Definition write_fs (p : path) (data : string) (fs : FS) : FS :=
  match fs_lookup fs p with
  | Some (File old) => (p, File (old ++ data)) :: fs
  | _ => (p, File data) :: fs
  end.

(* ================================================================== *)
(** * The world the program runs in *)
(* ================================================================== *)

(** A measure of the remote model. *)
Record measure_row : Type := mkRow {
  m_table : string;
  m_name : string;
  m_expression : string;
  m_description : pyval;
  m_display_folder : pyval;
  m_annotations : pyval
}.

(** The prompt of a request to the reasoning service: a fixed template
    and the values the f-string embeds in it. *)
Inductive prompt : Type :=
| MeasurePrompt (measure_name dax_expression : pyval)
| ChangesPrompt (diff_content : string).

Inductive message : Type :=
| MsgConnecting
| MsgAutoDocumenting
| MsgDocumented (name : pyval)
| MsgNoChanges
| MsgBackupCreated (backup_dir : path)
| MsgChangelog (changelog_path : path)
| MsgComplete.

(** What the program does to its collaborators, in the order it does
    it.  A tool call records whether the session was still open when the
    call was issued. *)
Inductive event : Type :=
| EvStdioEnter
| EvStdioExit
| EvSessionEnter
| EvSessionExit
| EvInitialize (live : bool)
| EvCallTool (live : bool) (tool : string) (args : pyval)
| EvMessagesCreate (model : string) (max_tokens : nat) (p : prompt)
| EvPrint (m : message)
| EvGitDiff (a b : string)
| EvGitAdd (pathspec : string)
| EvGitCommit (flag : string) (msg : pyval)
| EvNow
| EvMkdir (p : path)
| EvCopytree (src dst : path)
| EvOpenW (p : path)
| EvWrite (p : path) (data : string)
| EvClose (p : path).

(** What the environment can do to a request: [f_outcome] is what the
    client gets in place of the server's regular answer (an exception of
    the transport or the protocol, or some other result, such as a tool
    failure); [f_served] says whether the server has acted on the request
    all the same (a reply lost or timed out after the model was
    written). *)
Record fault : Type := mkFault {
  f_served : bool;
  f_outcome : result call_result
}.

(** The remote side: the server process behind [stdio_client], the
    [ClientSession] on top of it, and the model the server holds.
    [r_override k], when set, is the fault the [k]-th request meets.
    [r_export] is how the server's export rewrites the file system. *)
Record Remote : Type := mkRemote {
  r_spawn : option exn;
  r_stdio_up : bool;
  r_session_open : bool;
  r_store : list measure_row;
  r_calls : nat;
  r_override : nat -> option fault;
  r_export : list measure_row -> pyval -> FS -> FS
}.

Record commit : Type := mkCommit {
  c_message : pyval;
  c_tree : FS
}.

(** The repository [git.Repo('.')]: its commits, newest first, its index,
    how git renders the difference of two trees, whether it will refuse
    the next commit for a reason of its own (no identity, a hook, a
    lock), and what it makes of a [commit -m first rest...] with
    arguments after the message (options, path specifications): the
    commits and the index it leaves, or an error.  The message of a
    commit is [str(c_message)]. *)
Record Git : Type := mkGit {
  g_commits : list commit;
  g_index : FS;
  g_render : FS -> FS -> string;
  g_refuse : option exn;
  g_extra : pyval -> list pyval -> list commit -> FS
            -> result (list commit * FS)
}.

(** [w_stdout m]: can the encoding of [sys.stdout] encode the line
    [m]?  (A [cp1252] console has no check mark.) *)
Record World : Type := mkWorld {
  w_trace : list event;
  w_remote : Remote;
  w_ai_calls : nat;
  w_ai : nat -> result (list block);
  w_clock_reads : nat;
  w_clock : nat -> datetime;
  w_fs : FS;
  w_git : Git;
  w_stdout : message -> bool
}.

Definition log (e : event) (w : World) : World :=
  mkWorld (w_trace w ++ [e])%list (w_remote w) (w_ai_calls w) (w_ai w)
          (w_clock_reads w) (w_clock w) (w_fs w) (w_git w) (w_stdout w).

Definition set_remote (r : Remote) (w : World) : World :=
  mkWorld (w_trace w) r (w_ai_calls w) (w_ai w)
          (w_clock_reads w) (w_clock w) (w_fs w) (w_git w) (w_stdout w).

Definition set_fs (fs : FS) (w : World) : World :=
  mkWorld (w_trace w) (w_remote w) (w_ai_calls w) (w_ai w)
          (w_clock_reads w) (w_clock w) fs (w_git w) (w_stdout w).

Definition set_git (g : Git) (w : World) : World :=
  mkWorld (w_trace w) (w_remote w) (w_ai_calls w) (w_ai w)
          (w_clock_reads w) (w_clock w) (w_fs w) g (w_stdout w).

Definition tick_ai (w : World) : World :=
  mkWorld (w_trace w) (w_remote w) (S (w_ai_calls w)) (w_ai w)
          (w_clock_reads w) (w_clock w) (w_fs w) (w_git w) (w_stdout w).

Definition tick_clock (w : World) : World :=
  mkWorld (w_trace w) (w_remote w) (w_ai_calls w) (w_ai w)
          (S (w_clock_reads w)) (w_clock w) (w_fs w) (w_git w) (w_stdout w).

Definition set_stdio (b : bool) (r : Remote) : Remote :=
  mkRemote (r_spawn r) b (r_session_open r) (r_store r) (r_calls r)
           (r_override r) (r_export r).

Definition set_session (b : bool) (r : Remote) : Remote :=
  mkRemote (r_spawn r) (r_stdio_up r) b (r_store r) (r_calls r)
           (r_override r) (r_export r).

Definition set_store (st : list measure_row) (r : Remote) : Remote :=
  mkRemote (r_spawn r) (r_stdio_up r) (r_session_open r) st (r_calls r)
           (r_override r) (r_export r).

Definition tick_remote (r : Remote) : Remote :=
  mkRemote (r_spawn r) (r_stdio_up r) (r_session_open r) (r_store r)
           (S (r_calls r)) (r_override r) (r_export r).

(** A session is usable while both its own context and the transport's
    are open. *)
Definition session_live (w : World) : bool :=
  r_stdio_up (w_remote w) && r_session_open (w_remote w).

(* ================================================================== *)
(** * The monad: state and exceptions *)
(* ================================================================== *)

Definition M (A : Type) : Type := World -> result A * World.

Definition ret {A} (a : A) : M A := fun w => (inr a, w).

Definition raise {A} (e : exn) : M A := fun w => (inl e, w).

Definition bind {A B} (c : M A) (k : A -> M B) : M B :=
  fun w => match c w with
           | (inl e, w1) => (inl e, w1)
           | (inr a, w1) => k a w1
           end.

Definition lift {A} (r : result A) : M A := fun w => (r, w).

Declare Scope py_scope.
Delimit Scope py_scope with py.
Notation "x <- c ;; k" := (bind c (fun x => k))
  (at level 61, c at next level, right associativity) : py_scope.
Notation "c ;;; k" := (bind c (fun _ => k))
  (at level 61, right associativity) : py_scope.
Open Scope py_scope.

(** [with enter() as _: body], for a context manager whose exit does not
    swallow exceptions: the exit runs however the body ends. *)
Definition with_ctx {A} (enter exit : M unit) (body : M A) : M A :=
  fun w => match enter w with
           | (inl e, w1) => (inl e, w1)
           | (inr _, w1) =>
               match body w1 with
               | (r, w2) =>
                   match exit w2 with
                   | (inl e, w3) => (inl e, w3)
                   | (inr _, w3) => (r, w3)
                   end
               end
           end.

Definition emit (e : event) : M unit := fun w => (inr tt, log e w).

(** The lines without a check mark are plain ASCII. *)
Definition plain (m : message) : bool :=
  match m with
  | MsgConnecting | MsgAutoDocumenting | MsgNoChanges => true
  | _ => false
  end.

(** [print(m)]: a line that [sys.stdout] cannot encode raises
    [UnicodeEncodeError], and nothing of it is written. *)
Definition print (m : message) : M unit :=
  fun w => if plain m || w_stdout w m then emit (EvPrint m) w
           else (inl UnicodeEncodeError, w).

(** [datetime.now()] *)
Definition now : M datetime :=
  fun w => (inr (w_clock w (w_clock_reads w)), log EvNow (tick_clock w)).

(* ================================================================== *)
(** * The remote model server *)
(* ================================================================== *)

(** The server side of the three tools the program calls.  The request
    and reply shapes are the ones the program builds and reads; the
    behaviour is the contract of the model session: list, get, partial
    update, export. *)

Definition reply (v : pyval) : list block := [TextBlock (Encodes v)].

Definition tool_reply (v : pyval) : call_result := mkResult false (reply v).

(** A tool that fails: the result carries the flag, and a text that says
    what went wrong. *)
Definition tool_error (what : string) : call_result :=
  mkResult true [TextBlock (Malformed what)].

Definition ok_reply : call_result := tool_reply (PDict [("success", PBool true)]).

Definition row_listing (m : measure_row) : pyval :=
  PDict [("name", PStr (m_name m)); ("tableName", PStr (m_table m));
         ("description", m_description m)].

Definition row_detail (m : measure_row) : pyval :=
  PDict [("name", PStr (m_name m)); ("tableName", PStr (m_table m));
         ("expression", PStr (m_expression m));
         ("description", m_description m);
         ("displayFolder", m_display_folder m);
         ("annotations", m_annotations m)].

Definition row_is (table name : pyval) (m : measure_row) : bool :=
  match table, name with
  | PStr t, PStr n => String.eqb t (m_table m) && String.eqb n (m_name m)
  | _, _ => false
  end.

Definition field_or (upd : pyval) (k : string) (old : pyval) : pyval :=
  match upd with
  | PDict kvs => match assoc k kvs with Some v => v | None => old end
  | _ => old
  end.

(** A partial update: only the supplied fields change.  (The request's
    own [name] field repeats [measureName].) *)
Definition apply_update (upd : pyval) (m : measure_row) : measure_row :=
  mkRow (m_table m) (m_name m) (m_expression m)
        (field_or upd "description" (m_description m))
        (field_or upd "displayFolder" (m_display_folder m))
        (field_or upd "annotations" (m_annotations m)).

Definition update_rows (table name upd : pyval) (st : list measure_row)
  : list measure_row :=
  map (fun m => if row_is table name m then apply_update upd m else m) st.

Definition arg (req : pyval) (k : string) : pyval :=
  match py_get req k PNone with
  | inr v => v
  | inl _ => PNone
  end.

Definition tool_connection : string := "powerbi-model_connection_operations".
Definition tool_measure : string := "powerbi-model_measure_operations".
Definition tool_database : string := "powerbi-model_database_operations".

(** The server's answer to one request, and what the request does to the
    model and to the file system.  A request the server cannot carry out
    is answered with a failed result and changes nothing. *)
Definition serve (r : Remote) (tool : string) (args : pyval) (fs : FS)
  : call_result * list measure_row * FS :=
  let st := r_store r in
  let req := arg args "request" in
  match arg req "operation" with
  | PStr op =>
      if String.eqb tool tool_connection && String.eqb op "ConnectFolder" then
        (ok_reply, st, fs)
      else if String.eqb tool tool_measure && String.eqb op "List" then
        (tool_reply (PDict [("success", PBool true);
                            ("data", PDict [("measures",
                                             PList (map row_listing st))])]),
         st, fs)
      else if String.eqb tool tool_measure && String.eqb op "Get" then
        match find (row_is (arg req "tableName") (arg req "measureName")) st with
        | Some m =>
            (tool_reply (PDict [("success", PBool true);
                                ("data", PDict [("measure", row_detail m)])]),
             st, fs)
        | None => (tool_error "measure not found", st, fs)
        end
      else if String.eqb tool tool_measure && String.eqb op "Update" then
        if existsb (row_is (arg req "tableName") (arg req "measureName")) st then
          (ok_reply,
           update_rows (arg req "tableName") (arg req "measureName")
                       (arg req "updateDefinition") st,
           fs)
        else (tool_error "measure not found", st, fs)
      else if String.eqb tool tool_database && String.eqb op "ExportToTmdlFolder" then
        (ok_reply, st, r_export r st (arg req "tmdlFolderPath") fs)
      else (tool_error "unknown operation", st, fs)
  | _ => (tool_error "bad request", st, fs)
  end.

(** The handle [ClientSession(read, write)] yields.  A run has one. *)
Inductive Session : Type := TheSession.

(** [async with stdio_client(server_params) as (read, write)] *)
Definition stdio_enter : M unit :=
  fun w => match r_spawn (w_remote w) with
           | Some e => (inl e, w)
           | None => (inr tt, log EvStdioEnter
                                  (set_remote (set_stdio true (w_remote w)) w))
           end.

Definition stdio_exit : M unit :=
  fun w => (inr tt, log EvStdioExit
                        (set_remote (set_stdio false (w_remote w)) w)).

(** [async with ClientSession(read, write) as session] *)
Definition session_enter : M unit :=
  fun w => (inr tt, log EvSessionEnter
                        (set_remote (set_session true (w_remote w)) w)).

Definition session_exit : M unit :=
  fun w => (inr tt, log EvSessionExit
                        (set_remote (set_session false (w_remote w)) w)).

(** [await session.initialize()] *)
Definition initialize (s : Session) : M unit :=
  fun w =>
    let r := w_remote w in
    let w1 := log (EvInitialize (session_live w)) (set_remote (tick_remote r) w) in
    match r_override r (r_calls r) with
    | Some f => match f_outcome f with
                | inl e => (inl e, w1)
                | inr _ => (inr tt, w1)
                end
    | None => if session_live w then (inr tt, w1)
              else (inl ClosedResourceError, w1)
    end.

(** The world once the server has acted on a request. *)
Definition served (r : Remote) (tool : string) (args : pyval) (w1 : World)
  : call_result * World :=
  match serve r tool args (w_fs w1) with
  | (out, st, fs) =>
      (out, set_fs fs (set_remote (set_store st (w_remote w1)) w1))
  end.

(** [await session.call_tool(tool, args)].  On a released session the
    request does not leave the client, which raises a closed-resource
    error.  On a live one the server acts on it and its result is
    returned, a failed result included.  A fault of the environment
    decides what the client gets, and whether the server has acted. *)
Definition call_tool (s : Session) (tool : string) (args : pyval)
  : M call_result :=
  fun w =>
    let r := w_remote w in
    let w1 := log (EvCallTool (session_live w) tool args)
                  (set_remote (tick_remote r) w) in
    match r_override r (r_calls r) with
    | Some f =>
        (f_outcome f,
         if f_served f && session_live w then snd (served r tool args w1)
         else w1)
    | None =>
        if session_live w then
          (inr (fst (served r tool args w1)), snd (served r tool args w1))
        else (inl ClosedResourceError, w1)
    end.

(* ================================================================== *)
(** * The reasoning service, git, the file system *)
(* ================================================================== *)

(** [self.client.messages.create(model=..., max_tokens=..., messages=...)]:
    the [k]-th request gets the [k]-th answer of the service, whatever
    the prompt; the service owes nothing to identical prompts. *)
Definition messages_create (model : string) (max_tokens : nat) (p : prompt)
  : M (list block) :=
  fun w => (w_ai w (w_ai_calls w),
            log (EvMessagesCreate model max_tokens p) (tick_ai w)).

(** What [git diff HEAD~1 HEAD] prints: the difference between the trees
    of the last two commits; an error when there is no [HEAD~1]. *)
Definition head_diff (g : Git) : result string :=
  match g_commits g with
  | head :: prev :: _ => inr (g_render g (c_tree prev) (c_tree head))
  | _ => inl GitCommandError
  end.

(** [self.repo.git.diff(a, b)]; the program calls it on [HEAD~1] and
    [HEAD] only. *)
Definition git_diff (a b : string) : M string :=
  fun w => (head_diff (w_git w), log (EvGitDiff a b) w).

(** [repo.git.add('.')] *)
Definition git_add (pathspec : string) : M unit :=
  fun w =>
    let g := w_git w in
    (inr tt, log (EvGitAdd pathspec)
                 (set_git (mkGit (g_commits g) (w_fs w) (g_render g) (g_refuse g)
                                 (g_extra g)) w)).

(** GitPython's [_unpack_args]: a list is flattened into its elements,
    anything else is one argument, passed as its [str()]. *)
Fixpoint unpack_args (v : pyval) : list pyval :=
  match v with
  | PList xs => flat_map unpack_args xs
  | _ => [v]
  end.

(** The arguments that follow [-m]: GitPython drops an argument that is
    [None]. *)
Definition commit_args (msg : pyval) : list pyval :=
  match msg with
  | PNone => []
  | _ => unpack_args msg
  end.

(** The characters git takes for white space. *)
Definition is_space (c : ascii) : bool :=
  Ascii.eqb c " " || Ascii.eqb c "009" || Ascii.eqb c "010" || Ascii.eqb c "013".

Fixpoint rstrip (s : string) : string :=
  match s with
  | EmptyString => EmptyString
  | String c rest =>
      match rstrip rest with
      | EmptyString => if is_space c then EmptyString else String c EmptyString
      | rest' => String c rest'
      end
  end.

Fixpoint split_lines (s : string) : list string :=
  match s with
  | EmptyString => [EmptyString]
  | String c rest =>
      if Ascii.eqb c "010" then EmptyString :: split_lines rest
      else match split_lines rest with
           | l :: ls => String c l :: ls
           | [] => [String c EmptyString]
           end
  end.

(** A line that git does not count as message text: once the white
    space at its end is cut, nothing is left, or it is a sign-off. *)
Definition no_text (line : string) : bool :=
  let l := rstrip line in
  String.eqb l EmptyString || String.prefix "Signed-off-by: " l.

(** A message that git takes for empty, and refuses.  Only a string can
    be one: the [str()] of any other value has a character that counts. *)
Definition empty_message (m : pyval) : bool :=
  match m with
  | PStr s => forallb no_text (split_lines s)
  | _ => false
  end.

Definition file_at (fs : FS) (p : path) : option string :=
  match fs_lookup fs p with
  | Some (File c) => Some c
  | _ => None
  end.

(** Do two trees hold the same files?  (Git does not track
    directories.) *)
Definition same_files (a b : FS) : bool :=
  forallb (fun pn => match file_at a (fst pn), file_at b (fst pn) with
                     | Some x, Some y => String.eqb x y
                     | None, None => true
                     | _, _ => false
                     end) (a ++ b)%list.

Definition head_tree (g : Git) : FS :=
  match g_commits g with
  | head :: _ => c_tree head
  | [] => []
  end.

(** [repo.git.commit('-m', msg)].  Without an argument left after [-m]
    the command line is in error.  With one, it is the message: git
    commits the index under it, unless it has a reason of its own to
    refuse, the index holds nothing new, or the message is empty.  With
    more, the rest is for git to interpret. *)
Definition git_commit (flag : string) (msg : pyval) : M unit :=
  fun w =>
    let g := w_git w in
    let w1 := log (EvGitCommit flag msg) w in
    match commit_args msg with
    | [] => (inl GitCommandError, w1)
    | m :: rest =>
        match g_refuse g with
        | Some e => (inl e, w1)
        | None =>
            match rest with
            | [] =>
                if same_files (g_index g) (head_tree g) || empty_message m
                then (inl GitCommandError, w1)
                else (inr tt,
                      set_git (mkGit (mkCommit m (g_index g) :: g_commits g)
                                     (g_index g) (g_render g) None (g_extra g))
                              w1)
            | _ :: _ =>
                match g_extra g m rest (g_commits g) (g_index g) with
                | inl e => (inl e, w1)
                | inr (commits, index) =>
                    (inr tt, set_git (mkGit commits index (g_render g) None
                                            (g_extra g)) w1)
                end
            end
        end
    end.

(** [backup_dir.mkdir(parents=True, exist_ok=True)] *)
Definition mkdir (p : path) : M unit :=
  fun w =>
    let w1 := log (EvMkdir p) w in
    match makedirs p (w_fs w) with
    | inl e => (inl e, w1)
    | inr fs => (inr tt, set_fs fs w1)
    end.

(** [shutil.copytree(src, dst, dirs_exist_ok=True)] *)
Definition copytree (src dst : path) : M unit :=
  fun w =>
    let w1 := log (EvCopytree src dst) w in
    match copytree_fs src dst (w_fs w) with
    | (r, fs) => (r, set_fs fs w1)
    end.

(** [open(p, 'w', encoding='utf-8')] *)
Definition open_w (p : path) : M unit :=
  fun w =>
    let w1 := log (EvOpenW p) w in
    match open_w_fs p (w_fs w) with
    | inl e => (inl e, w1)
    | inr fs => (inr tt, set_fs fs w1)
    end.

Definition write (p : path) (data : string) : M unit :=
  fun w => (inr tt, set_fs (write_fs p data (w_fs w)) (log (EvWrite p data) w)).

Definition close (p : path) : M unit := emit (EvClose p).

(* ================================================================== *)
(** * class PowerBIAIAgent *)
(* ================================================================== *)

Definition ai_model : string := "claude-sonnet-4-20250514".

(** [connect_to_model]: the [return session] sits inside both
    [async with] blocks, so both contexts exit before the caller gets
    the handle. *)
Definition connect_to_model (model_path : string) : M Session :=
  with_ctx stdio_enter stdio_exit
    (with_ctx session_enter session_exit
       (let session := TheSession in
        initialize session ;;;
        result <- call_tool session tool_connection
                    (PDict [("request",
                             PDict [("operation", PStr "ConnectFolder");
                                    ("folderPath", PStr model_path)])]) ;;
        ret session)).

(** [analyze_measure_with_ai]: one request, and [json.loads] of the first
    block of the answer; the parsed value is returned as it is. *)
Definition analyze_measure_with_ai (measure_name dax_expression : pyval)
  : M pyval :=
  response <- messages_create ai_model 1024
                (MeasurePrompt measure_name dax_expression) ;;
  t <- lift (content0_text response) ;;
  lift (json_loads t).

(** [analyze_tmdl_changes] *)
Definition analyze_tmdl_changes (diff_content : string) : M pyval :=
  response <- messages_create ai_model 2048 (ChangesPrompt diff_content) ;;
  t <- lift (content0_text response) ;;
  lift (json_loads t).

Definition list_request (connection_name : string) : pyval :=
  PDict [("request", PDict [("operation", PStr "List");
                            ("connectionName", PStr connection_name)])].

Definition get_request (connection_name : string) (table name : pyval) : pyval :=
  PDict [("request", PDict [("operation", PStr "Get");
                            ("connectionName", PStr connection_name);
                            ("tableName", table);
                            ("measureName", name)])].

Definition update_request (connection_name : string)
  (table name name' description folder notes : pyval) : pyval :=
  PDict [("request",
          PDict [("operation", PStr "Update");
                 ("connectionName", PStr connection_name);
                 ("tableName", table);
                 ("measureName", name);
                 ("updateDefinition",
                  PDict [("name", name');
                         ("description", description);
                         ("displayFolder", folder);
                         ("annotations",
                          PList [PDict [("key", PStr "AI_Generated_Docs");
                                        ("value", PStr "true")];
                                 PDict [("key", PStr "Technical_Notes");
                                        ("value", notes)]])])])].

(** The body of the [for] loop of [auto_document_measures], for one
    [measure]; [documented] is [documented_measures] so far. *)
Definition document_measure (session : Session) (connection_name : string)
  (measure : pyval) (documented : list pyval) : M (list pyval) :=
  d <- lift (py_get measure "description" PNone) ;;
  if negb (truthy d) then
    table <- lift (subscript measure "tableName") ;;
    name <- lift (subscript measure "name") ;;
    measure_detail <- call_tool session tool_measure
                        (get_request connection_name table name) ;;
    t <- lift (content0_text (content measure_detail)) ;;
    details <- lift (json_loads t) ;;
    data <- lift (subscript details "data") ;;
    m <- lift (subscript data "measure") ;;
    dax <- lift (subscript m "expression") ;;
    name1 <- lift (subscript measure "name") ;;
    ai_analysis <- analyze_measure_with_ai name1 dax ;;
    table2 <- lift (subscript measure "tableName") ;;
    name2 <- lift (subscript measure "name") ;;
    name3 <- lift (subscript measure "name") ;;
    description <- lift (subscript ai_analysis "description") ;;
    folder <- lift (py_get ai_analysis "display_folder" (PStr EmptyString)) ;;
    notes <- lift (subscript ai_analysis "technical_notes") ;;
    call_tool session tool_measure
      (update_request connection_name table2 name2 name3
                      description folder notes) ;;;
    name4 <- lift (subscript measure "name") ;;
    description' <- lift (subscript ai_analysis "description") ;;
    let documented' :=
      (documented ++ [PDict [("measure", name4);
                             ("description", description')]])%list in
    name5 <- lift (subscript measure "name") ;;
    print (MsgDocumented name5) ;;;
    ret documented'
  else ret documented.

(** [for measure in ...: body] *)
Fixpoint for_measures (session : Session) (connection_name : string)
  (measures : list pyval) (documented : list pyval) : M (list pyval) :=
  match measures with
  | [] => ret documented
  | measure :: rest =>
      documented' <- document_measure session connection_name measure documented ;;
      for_measures session connection_name rest documented'
  end.

(** The first statements of [auto_document_measures]: the list request
    and the sequence the loop will run over. *)
Definition list_measures (session : Session) (connection_name : string)
  : M (list pyval) :=
  measures_result <- call_tool session tool_measure
                       (list_request connection_name) ;;
  t <- lift (content0_text (content measures_result)) ;;
  measures <- lift (json_loads t) ;;
  data <- lift (subscript measures "data") ;;
  ms <- lift (subscript data "measures") ;;
  lift (py_iter ms).

(** [auto_document_measures] *)
Definition auto_document_measures (session : Session) (connection_name : string)
  : M (list pyval) :=
  items <- list_measures session connection_name ;;
  let documented_measures := [] in
  for_measures session connection_name items documented_measures.

Definition definition_dir : path := ["Dataset.SemanticModel"; "definition"].

Definition fence : string := "```".

(** The [with open(changelog_path, 'w', encoding='utf-8') as f] block of
    [create_backup_with_changelog]. *)
Definition write_changelog (changelog_path : path) (analysis : pyval)
  (diff : string) : M unit :=
  with_ctx (open_w changelog_path) (close changelog_path)
    (stamp' <- now ;;
     write changelog_path
           ("# Model Backup - " ++ strftime_header stamp' ++ nl ++ nl) ;;;
     write changelog_path ("## Changes Summary" ++ nl ++ nl) ;;;
     changelog <- lift (subscript analysis "changelog") ;;
     line <- lift (str_add changelog (nl ++ nl)) ;;
     write changelog_path line ;;;
     write changelog_path ("## Impact Assessment" ++ nl ++ nl) ;;;
     impact <- lift (subscript analysis "impact") ;;
     line' <- lift (str_add impact (nl ++ nl)) ;;
     write changelog_path line' ;;;
     write changelog_path ("## Technical Details" ++ nl ++ nl) ;;;
     write changelog_path (fence ++ nl ++ diff ++ nl ++ fence ++ nl)).

(** [create_backup_with_changelog], from the creation of the backup
    folder on: what runs once the diff is known not to be empty and has
    been analysed. *)
Definition materialize_backup (analysis : pyval) (diff : string) : M pyval :=
  stamp <- now ;;
  let backup_dir := ["backups"; strftime_compact stamp] in
  mkdir backup_dir ;;;
  copytree definition_dir (backup_dir ++ ["definition"])%list ;;;
  let changelog_path := (backup_dir ++ ["CHANGELOG.md"])%list in
  write_changelog changelog_path analysis diff ;;;
  print (MsgBackupCreated backup_dir) ;;;
  print (MsgChangelog changelog_path) ;;;
  lift (subscript analysis "commit_message").

(** [create_backup_with_changelog]; [PNone] is the bare [return]. *)
Definition create_backup_with_changelog : M pyval :=
  diff <- git_diff "HEAD~1" "HEAD" ;;
  if negb (truthy (PStr diff)) then
    print MsgNoChanges ;;;
    ret PNone
  else
    analysis <- analyze_tmdl_changes diff ;;
    materialize_backup analysis diff.

(* ================================================================== *)
(** * main *)
(* ================================================================== *)

Definition model_path : string :=
  "c:/Users/Dell/Documents/Payroll Engine BI/payrollengine-powerbi-repo/Dataset.SemanticModel".

Definition export_request : pyval :=
  PDict [("request",
          PDict [("operation", PStr "ExportToTmdlFolder");
                 ("tmdlFolderPath", PStr (model_path ++ "/definition"))])].

Definition connection_name : string := "TMDL-" ++ model_path ++ "/definition".

(** [main], up to and including the export.  (The agent's constructor,
    which only builds the two clients, is taken to have succeeded.) *)
Definition document_and_export : M unit :=
  print MsgConnecting ;;;
  session <- connect_to_model model_path ;;
  print MsgAutoDocumenting ;;;
  documented <- auto_document_measures session connection_name ;;
  call_tool session tool_database export_request ;;;
  ret tt.

(** The rest of [main]: the backup, then stage and commit. *)
Definition backup_and_commit : M unit :=
  commit_message <- create_backup_with_changelog ;;
  git_add "." ;;;
  git_commit "-m" commit_message ;;;
  print MsgComplete.

Definition main : M unit :=
  document_and_export ;;;
  backup_and_commit.

(* ================================================================== *)
(** * What a backup leaves behind *)
(* ================================================================== *)

Definition backup_dir_at (stamp : datetime) : path :=
  ["backups"; strftime_compact stamp].

(** ** Reading a time stamp back *)

Definition digit_value (c : ascii) : nat := nat_of_ascii c - 48.

(** The number a string of decimal digits stands for. *)
Fixpoint number_from (acc : nat) (s : string) : nat :=
  match s with
  | EmptyString => acc
  | String c rest => number_from (10 * acc + digit_value c) rest
  end.

Definition number (s : string) : nat := number_from 0 s.

(** The time a folder name [YYYYMMDD_HHMMSS] shows. *)
Definition stamp_of_name (name : string) : datetime :=
  mkDatetime (number (substring 0 4 name)) (number (substring 4 2 name))
             (number (substring 6 2 name)) (number (substring 9 2 name))
             (number (substring 11 2 name)) (number (substring 13 2 name)) 0.

(** The time a header [YYYY-MM-DD HH:MM:SS] shows. *)
Definition stamp_of_header (header : string) : datetime :=
  mkDatetime (number (substring 0 4 header)) (number (substring 5 2 header))
             (number (substring 8 2 header)) (number (substring 11 2 header))
             (number (substring 14 2 header)) (number (substring 17 2 header)) 0.

(** ** The files of a tree, and where their copies land *)

(** [src ++ r] is a file with content [c], reached from [src] through
    directories. *)
Definition tree_file (fs : FS) (src r : path) (c : string) : Prop :=
  fs_lookup fs (src ++ r)%list = Some (File c) /\
  forall a b, r = (a ++ b)%list -> a <> [] -> b <> [] ->
              fs_lookup fs (src ++ a)%list = Some Dir.

(** Where the copy of [src ++ r] is found below [dst]: at [dst ++ r],
    or, when a directory had that name before the copy, inside that
    directory. *)
Definition landing (fs : FS) (dst r : path) : path :=
  match fs_lookup fs (dst ++ r)%list with
  | Some Dir => (dst ++ r ++ [last r EmptyString])%list
  | _ => (dst ++ r)%list
  end.

(** The text of the changelog document: the pieces
    [write_changelog] writes, in the order it writes them. *)
Definition changelog_text (stamp' : datetime) (changelog impact diff : string)
  : string :=
  ((((((EmptyString
   ++ ("# Model Backup - " ++ strftime_header stamp' ++ nl ++ nl))
   ++ ("## Changes Summary" ++ nl ++ nl))
   ++ (changelog ++ nl ++ nl))
   ++ ("## Impact Assessment" ++ nl ++ nl))
   ++ (impact ++ nl ++ nl))
   ++ ("## Technical Details" ++ nl ++ nl))
   ++ (fence ++ nl ++ diff ++ nl ++ fence ++ nl).

Definition changelog_events (p : path) (stamp' : datetime)
  (changelog impact diff : string) : list event :=
  [EvOpenW p; EvNow;
   EvWrite p ("# Model Backup - " ++ strftime_header stamp' ++ nl ++ nl);
   EvWrite p ("## Changes Summary" ++ nl ++ nl);
   EvWrite p (changelog ++ nl ++ nl);
   EvWrite p ("## Impact Assessment" ++ nl ++ nl);
   EvWrite p (impact ++ nl ++ nl);
   EvWrite p ("## Technical Details" ++ nl ++ nl);
   EvWrite p (fence ++ nl ++ diff ++ nl ++ fence ++ nl);
   EvClose p].

Definition backup_events (stamp stamp' : datetime)
  (changelog impact diff : string) : list event :=
  (EvNow :: EvMkdir (backup_dir_at stamp)
   :: EvCopytree definition_dir (backup_dir_at stamp ++ ["definition"])
   :: changelog_events (backup_dir_at stamp ++ ["CHANGELOG.md"]) stamp'
                       changelog impact diff
   ++ [EvPrint (MsgBackupCreated (backup_dir_at stamp));
       EvPrint (MsgChangelog (backup_dir_at stamp ++ ["CHANGELOG.md"]))])%list.

(** The change sets handed to the reasoning service, read off a trace. *)
Fixpoint changesets_analysed (tr : list event) : list string :=
  match tr with
  | [] => []
  | EvMessagesCreate _ _ (ChangesPrompt d) :: rest => d :: changesets_analysed rest
  | _ :: rest => changesets_analysed rest
  end.

Definition changesets_of (w : World) : list string :=
  changesets_analysed (w_trace w).

(** What both [analyze_...] methods make of the service's answer: the
    first block's text, parsed; nothing looks at the keys. *)
Definition parse_reply (r : result (list block)) : result pyval :=
  match r with
  | inl e => inl e
  | inr content =>
      match content0_text content with
      | inl e => inl e
      | inr t => json_loads t
      end
  end.

(** [keeps obs c]: running [c] does not change the observation [obs] of
    the world, however [c] ends. *)
Definition keeps {X A : Type} (obs : World -> X) (c : M A) : Prop :=
  forall w, obs (snd (c w)) = obs w.

(** [appends c]: running [c] only adds events at the end of the trace. *)
Definition appends {A : Type} (c : M A) : Prop :=
  forall w, exists tr, w_trace (snd (c w)) = (w_trace w ++ tr)%list.

(** The session is live and no request meets a fault: every request
    reaches the server, the server acts on it, and the server's own result
    comes back. *)
Definition healthy (w : World) : Prop :=
  session_live w = true /\ forall k, r_override (w_remote w) k = None.

Definition undocumented (m : measure_row) : bool :=
  negb (truthy (m_description m)).

(** The world after a request that the server answered. *)
Definition after_call (w : World) (tool : string) (args : pyval)
  (st : list measure_row) (fs : FS) : World :=
  set_fs fs (set_remote (set_store st (tick_remote (w_remote w)))
                        (log (EvCallTool true tool args) w)).

(** An entry of [documented_measures]. *)
Definition documented_entry (name description : pyval) : pyval :=
  PDict [("measure", name); ("description", description)].

Definition update_definition (name description folder notes : pyval) : pyval :=
  PDict [("name", name);
         ("description", description);
         ("displayFolder", folder);
         ("annotations",
          PList [PDict [("key", PStr "AI_Generated_Docs");
                        ("value", PStr "true")];
                 PDict [("key", PStr "Technical_Notes");
                        ("value", notes)]])].

Definition same_measure (a b : measure_row) : Prop :=
  m_table a = m_table b /\ m_name a = m_name b.

(** A measure is accounted for by the rows still to visit when it has a
    description already, or one of those rows is an undocumented row of
    the same name in the same table. *)
Definition covered (rows : list measure_row) (m : measure_row) : Prop :=
  truthy (m_description m) = true \/
  exists r, In r rows /\ same_measure r m /\ undocumented r = true.

Definition has_description (doc : pyval) : Prop :=
  exists d, subscript doc "description" = inr d /\ truthy d = true.

(* ================================================================== *)
(** * Reading a listing *)
(* ================================================================== *)

(** The test of the loop, [not measure.get('description')], on an item
    that has a [get]. *)
Definition needs_doc (measure : pyval) : bool :=
  match py_get measure "description" PNone with
  | inr d => negb (truthy d)
  | inl _ => false
  end.

(** An item the loop passes over: a dict whose description is there and
    is not empty. *)
Definition is_documented (measure : pyval) : bool :=
  match py_get measure "description" PNone with
  | inr d => truthy d
  | inl _ => false
  end.

(** The four things the loop does for a measure it documents. *)
Definition step_events (live : bool) (conn : string)
  (table name dax description folder notes : pyval) : list event :=
  [EvCallTool live tool_measure (get_request conn table name);
   EvMessagesCreate ai_model 1024 (MeasurePrompt name dax);
   EvCallTool live tool_measure
     (update_request conn table name name description folder notes);
   EvPrint (MsgDocumented name)].

(** [details['data']['measure']['expression']] *)
Definition expression_of (details : pyval) : result pyval :=
  match subscript details "data" with
  | inl e => inl e
  | inr data =>
      match subscript data "measure" with
      | inl e => inl e
      | inr m => subscript m "expression"
      end
  end.

Definition connect_request (model_path : string) : pyval :=
  PDict [("request", PDict [("operation", PStr "ConnectFolder");
                            ("folderPath", PStr model_path)])].

(** What the changelog holds when the block stops at the impact
    assessment. *)
Definition changelog_until_impact (stamp' : datetime) (changelog : string)
  : string :=
  (((EmptyString
   ++ ("# Model Backup - " ++ strftime_header stamp' ++ nl ++ nl))
   ++ ("## Changes Summary" ++ nl ++ nl))
   ++ (changelog ++ nl ++ nl))
   ++ ("## Impact Assessment" ++ nl ++ nl).

(** [bounded obs n c]: running [c] adds at most [n] to the counter
    [obs], and never lowers it. *)
Definition bounded {A : Type} (obs : World -> nat) (n : nat) (c : M A) : Prop :=
  forall w, obs w <= obs (snd (c w)) <= obs w + n.

(** The order of two time stamps, to the second. *)
Definition then_compare (c : comparison) (rest : comparison) : comparison :=
  match c with
  | Eq => rest
  | _ => c
  end.

Definition datetime_compare (a b : datetime) : comparison :=
  then_compare (Nat.compare (year a) (year b))
  (then_compare (Nat.compare (month a) (month b))
  (then_compare (Nat.compare (day a) (day b))
  (then_compare (Nat.compare (hour a) (hour b))
  (then_compare (Nat.compare (minute a) (minute b))
                (Nat.compare (second a) (second b)))))).

(* ================================================================== *)
(** * Sample worlds *)
(* ================================================================== *)

Module Sample.

Definition row (table name expression : string) (description : pyval)
  : measure_row :=
  mkRow table name expression description PNone (PList []).

(** One documented measure and two that are not. *)
Definition store : list measure_row :=
  [row "Sales" "Total" "SUM(Sales[Amount])" (PStr "Sum of all sales");
   row "Sales" "Margin" "[Total] - [Cost]" PNone;
   row "Sales" "Orders" "COUNTROWS(Sales)" (PStr EmptyString)].

Definition no_override : nat -> option fault := fun _ => None.

Definition keep_fs : list measure_row -> pyval -> FS -> FS := fun _ _ fs => fs.

(** A session that is open, on a server that answers. *)
Definition remote : Remote :=
  mkRemote None true true store 0 no_override keep_fs.

(** A server not yet started: what [main] finds. *)
Definition remote_down : Remote :=
  mkRemote None false false store 0 no_override keep_fs.

Definition measure_analysis (description : pyval) : pyval :=
  PDict [("description", description);
         ("technical_notes", PStr "notes");
         ("issues", PList []);
         ("display_folder", PStr "KPIs")].

Definition change_analysis : pyval :=
  PDict [("changelog", PStr "Documented two measures.");
         ("impact", PStr "No report is affected.");
         ("commit_message", PStr "Document measures")].

Definition says (v : pyval) : result (list block) := inr (reply v).

Definition noon : datetime := mkDatetime 2026 1 2 12 0 0 0.
Definition noon_and_a_second : datetime := mkDatetime 2026 1 2 12 0 1 0.
Definition eleven : datetime := mkDatetime 2026 1 2 11 0 0 0.

Definition tree : FS :=
  [(["Dataset.SemanticModel"], Dir);
   (definition_dir, Dir);
   ((definition_dir ++ ["model.tmdl"])%list, File "model Model");
   ((definition_dir ++ ["tables"])%list, Dir);
   ((definition_dir ++ ["tables"; "Sales.tmdl"])%list, File "table Sales")].

Definition older_tree : FS :=
  [(["Dataset.SemanticModel"], Dir);
   (definition_dir, Dir);
   ((definition_dir ++ ["model.tmdl"])%list, File "model Model")].

(** A renderer that tells whether the two trees list the same nodes. *)
Definition node_eqb (a b : node) : bool :=
  match a, b with
  | Dir, Dir => true
  | File x, File y => String.eqb x y
  | _, _ => false
  end.

Definition same_at (a b : FS) (p : path) : bool :=
  match fs_lookup a p, fs_lookup b p with
  | Some x, Some y => node_eqb x y
  | None, None => true
  | _, _ => false
  end.

Definition diff_text : string :=
  "diff --git a/Dataset.SemanticModel/definition b/Dataset.SemanticModel/definition".

Definition render (old new : FS) : string :=
  if forallb (fun pn => same_at old new (fst pn)) (old ++ new)%list
  then EmptyString
  else diff_text.

(** A git that takes no argument after the message. *)
Definition no_extra (m : pyval) (rest : list pyval) (commits : list commit)
  (index : FS) : result (list commit * FS) := inl GitCommandError.

(** Two commits that differ, so that there is something to audit. *)
Definition git : Git :=
  mkGit [mkCommit (PStr "add Sales table") tree;
         mkCommit (PStr "initial") older_tree]
        tree render None no_extra.

(** Two commits with the same tree: [git diff HEAD~1 HEAD] is empty. *)
Definition git_quiet : Git :=
  mkGit [mkCommit (PStr "touch") tree; mkCommit (PStr "initial") tree]
        tree render None no_extra.

(** A stdout that encodes every line (UTF-8), and one that has no check
    mark ([cp1252]). *)
Definition utf8 : message -> bool := fun _ => true.
Definition cp1252 : message -> bool := fun _ => false.

Definition world (r : Remote) (ai : nat -> result (list block))
  (clock : nat -> datetime) (fs : FS) (g : Git) : World :=
  mkWorld [] r 0 ai 0 clock fs g utf8.

Definition clock_frozen : nat -> datetime := fun _ => noon.

(** A clock that passes a second boundary between its first two reads. *)
Definition clock_ticking (k : nat) : datetime :=
  match k with
  | O => noon
  | S _ => noon_and_a_second
  end.

(** A run with something to audit. *)
Definition audit_world : World :=
  world remote (fun _ => says change_analysis) clock_ticking tree git.

(** A run with nothing to audit. *)
Definition quiet_world : World :=
  world remote (fun _ => says change_analysis) clock_frozen tree git_quiet.

(** The snapshot of an earlier backup, taken at [noon]. *)
Definition tree_with_snapshot : FS :=
  (tree ++
   [(["backups"], Dir);
    (backup_dir_at noon, Dir);
    (backup_dir_at noon ++ ["CHANGELOG.md"], File "old changelog");
    (backup_dir_at noon ++ ["definition"], Dir);
    (backup_dir_at noon ++ ["definition"; "model.tmdl"], File "old model")])%list.

(** A second backup within the same second. *)
Definition rerun_world : World :=
  world remote (fun _ => says change_analysis) clock_frozen
        tree_with_snapshot git.

(** Three measures to document; the update of the second is rejected
    with a protocol error, the server not having acted on it. *)
Definition store3 : list measure_row :=
  [row "Sales" "Total" "SUM(Sales[Amount])" (PStr "Sum of all sales");
   row "Sales" "Margin" "[Total] - [Cost]" PNone;
   row "Sales" "Orders" "COUNTROWS(Sales)" (PStr EmptyString);
   row "Sales" "Returns" "COUNTROWS(Returns)" PNone].

Definition reject_fifth (k : nat) : option fault :=
  match k with
  | 4 => Some (mkFault false (inl (McpError "update rejected")))
  | _ => None
  end.

Definition rejecting_world : World :=
  world (mkRemote None true true store3 0 reject_fifth keep_fs)
        (fun _ => says (measure_analysis (PStr "generated")))
        clock_frozen tree git.

(** What [main] starts from: no server yet. *)
Definition fresh_world : World :=
  world remote_down (fun _ => says (measure_analysis (PStr "generated")))
        clock_frozen tree git.

(** A service that answers with an empty description. *)
Definition blank_world : World :=
  world remote (fun _ => says (measure_analysis (PStr EmptyString)))
        clock_frozen tree git.

(** A service that answers as hoped. *)
Definition good_world : World :=
  world remote (fun _ => says (measure_analysis (PStr "generated")))
        clock_frozen tree git.

(** An answer that is valid JSON and lacks [issues] and
    [display_folder]. *)
Definition partial_analysis : pyval :=
  PDict [("description", PStr "Sales less cost.");
         ("technical_notes", PStr "notes")].

Definition partial_world : World :=
  world remote (fun _ => says partial_analysis) clock_frozen tree git.

(** An answer that is valid JSON and has none of the keys. *)
Definition keyless_world : World :=
  world remote (fun _ => says (PDict [])) clock_frozen tree git.

(** A model in which every measure has a description. *)
Definition store_documented : list measure_row :=
  [row "Sales" "Total" "SUM(Sales[Amount])" (PStr "Sum of all sales");
   row "Sales" "Margin" "[Total] - [Cost]" (PStr "Sales less cost")].

Definition documented_world : World :=
  world (mkRemote None true true store_documented 0 no_override keep_fs)
        (fun _ => says (measure_analysis (PStr "generated")))
        clock_frozen tree git.

(** A service whose answer is not JSON. *)
Definition garbled_world : World :=
  world remote (fun _ => inr [TextBlock (Malformed "I cannot help with that.")])
        clock_frozen tree git.

(** An analysis of a change that has no impact text. *)
Definition analysis_without_impact : pyval :=
  PDict [("changelog", PStr "Documented two measures.");
         ("commit_message", PStr "Document measures")].

(** The same on a console whose encoding has no check mark. *)
Definition console_world : World :=
  mkWorld [] remote 0 (fun _ => says (measure_analysis (PStr "generated")))
          0 clock_frozen tree git cp1252.

(** The second request is answered with a tool failure, the server not
    having acted on it. *)
Definition fail_second (k : nat) : option fault :=
  match k with
  | 1 => Some (mkFault false (inr (tool_error "update failed")))
  | _ => None
  end.

Definition deaf_world : World :=
  world (mkRemote None true true store 0 fail_second keep_fs)
        (fun _ => says (measure_analysis (PStr "generated")))
        clock_frozen tree git.

(** The same for a whole run: the third request is the first update. *)
Definition fail_third (k : nat) : option fault :=
  match k with
  | 2 => Some (mkFault false (inr (tool_error "update failed")))
  | _ => None
  end.

Definition deaf_run_world : World :=
  world (mkRemote None true true store 0 fail_third keep_fs)
        (fun _ => says (measure_analysis (PStr "generated")))
        clock_frozen tree git.

(** An analysis whose commit message is the empty string. *)
Definition mute_world : World :=
  world remote
        (fun _ => says (PDict [("changelog", PStr "Documented two measures.");
                               ("impact", PStr "No report is affected.");
                               ("commit_message", PStr EmptyString)]))
        clock_ticking tree git.

(** A run with something to audit, and an analysis without [impact]. *)
Definition half_world : World :=
  world remote (fun _ => says analysis_without_impact) clock_ticking tree git.

(** A server process that starts and then fails the handshake. *)
Definition failing_handshake (k : nat) : option fault :=
  match k with
  | O => Some (mkFault false (inl (McpError "initialize failed")))
  | S _ => None
  end.

Definition handshake_world : World :=
  world (mkRemote None false false store 0 failing_handshake keep_fs)
        (fun _ => says (measure_analysis (PStr "generated")))
        clock_frozen tree git.

(** A repository with its first commit only. *)
Definition young_world : World :=
  world remote (fun _ => says change_analysis) clock_frozen tree
        (mkGit [mkCommit (PStr "initial") tree] tree render None no_extra).

End Sample.

(* ================================================================== *)
(** * Auxiliary facts: paths and the file system *)
(* ================================================================== *)

Open Scope list_scope.

Lemma path_eqb_true (p q : path) : path_eqb p q = true <-> p = q.
Proof. unfold path_eqb. destruct (list_eq_dec string_dec p q); split; congruence. Qed.

Lemma path_eqb_refl (p : path) : path_eqb p p = true.
Proof. now apply path_eqb_true. Qed.

Lemma path_eqb_false (p q : path) : path_eqb p q = false <-> p <> q.
Proof. unfold path_eqb. destruct (list_eq_dec string_dec p q); split; congruence. Qed.

Lemma strip_prefix_app (pre r : path) : strip_prefix pre (pre ++ r)%list = Some r.
Proof. induction pre as [|a pre IH]; simpl; [reflexivity|]. now rewrite String.eqb_refl. Qed.

Lemma strip_prefix_some (pre p r : path) :
  strip_prefix pre p = Some r -> p = (pre ++ r)%list.
Proof.
  revert p. induction pre as [|a pre IH]; intros p H; simpl in *.
  - congruence.
  - destruct p as [|b p]; [discriminate|].
    destruct (String.eqb_spec a b); [|discriminate].
    subst. f_equal. now apply IH.
Qed.

Lemma strip_prefix_none (pre p r : path) :
  strip_prefix pre p = None -> p <> (pre ++ r)%list.
Proof. intros H E. subst. rewrite strip_prefix_app in H. discriminate. Qed.

Lemma fs_lookup_app (a b : FS) (p : path) :
  fs_lookup (a ++ b)%list p
  = match fs_lookup a p with Some n => Some n | None => fs_lookup b p end.
Proof.
  induction a as [|[q n] a IH]; simpl; [reflexivity|].
  destruct (path_eqb p q); [reflexivity|apply IH].
Qed.

Lemma fs_lookup_in (fs : FS) (p : path) (n : node) :
  fs_lookup fs p = Some n -> In (p, n) fs.
Proof.
  induction fs as [|[q m] fs IH]; simpl; [discriminate|].
  destruct (path_eqb p q) eqn:E.
  - apply path_eqb_true in E. subst q. intros H. injection H as ->. now left.
  - intros H. right. now apply IH.
Qed.

Lemma fs_lookup_absent (fs : FS) (p : path) :
  (forall n, ~ In (p, n) fs) -> fs_lookup fs p = None.
Proof.
  induction fs as [|[q m] fs IH]; intros H; simpl; [reflexivity|].
  destruct (path_eqb p q) eqn:E.
  - apply path_eqb_true in E. subst q. exfalso. apply (H m). now left.
  - apply IH. intros n X. apply (H n). now right.
Qed.

(** A path all of whose bindings agree is bound to what they say. *)
Lemma fs_lookup_unique (fs : FS) (p : path) (n : node) :
  In (p, n) fs -> (forall n', In (p, n') fs -> n' = n) -> fs_lookup fs p = Some n.
Proof.
  induction fs as [|[q m] fs IH]; intros Hin Hall; simpl; [contradiction|].
  destruct (path_eqb p q) eqn:E.
  - apply path_eqb_true in E. subst q. f_equal. apply Hall. now left.
  - apply path_eqb_false in E. destruct Hin as [X|X]; [congruence|].
    apply IH; [exact X|]. intros n' Y. apply Hall. now right.
Qed.

(** ** Creating directories *)

Lemma makedirs_from_keeps (todo done : path) (fs fs' : FS) (p : path) (n : node) :
  makedirs_from done todo fs = inr fs' ->
  fs_lookup fs p = Some n -> fs_lookup fs' p = Some n.
Proof.
  revert done fs. induction todo as [|c rest IH]; intros done fs H L; simpl in H.
  - congruence.
  - destruct (fs_lookup fs (done ++ [c])) as [[?|]|] eqn:E; try discriminate.
    + eapply IH; eauto.
    + eapply IH; [exact H|]. simpl.
      destruct (path_eqb p (done ++ [c])) eqn:Q; [|exact L].
      apply path_eqb_true in Q. subst. congruence.
Qed.

Lemma makedirs_from_made (todo done : path) (fs fs' : FS) :
  makedirs_from done todo fs = inr fs' -> todo <> [] ->
  fs_lookup fs' (done ++ todo)%list = Some Dir.
Proof.
  revert done fs. induction todo as [|c rest IH]; intros done fs H N; simpl in H.
  - congruence.
  - destruct rest as [|c' rest'].
    + destruct (fs_lookup fs (done ++ [c])) as [[?|]|] eqn:E; try discriminate;
        simpl in H; inversion H; subst; simpl; [assumption|].
      now rewrite path_eqb_refl.
    + replace (done ++ c :: c' :: rest')%list with ((done ++ [c]) ++ c' :: rest')%list
        by now rewrite <- app_assoc.
      destruct (fs_lookup fs (done ++ [c])) as [[?|]|] eqn:E; try discriminate;
        (eapply IH; [exact H|discriminate]).
Qed.

(* ================================================================== *)
(** * Auxiliary facts: running a computation *)
(* ================================================================== *)

Lemma bind_inr_inv {A B} (c : M A) (k : A -> M B) w b w' :
  bind c k w = (inr b, w') ->
  exists a w1, c w = (inr a, w1) /\ k a w1 = (inr b, w').
Proof.
  unfold bind. destruct (c w) as [[e|a] w1]; intros H; [discriminate|].
  now exists a, w1.
Qed.

Ltac bind_inv H :=
  let a := fresh "a" in
  let w1 := fresh "w" in
  let H1 := fresh "Hstep" in
  apply bind_inr_inv in H; destruct H as (a & w1 & H1 & H).

Ltac wsimpl :=
  cbn [w_trace w_remote w_ai_calls w_ai w_clock_reads w_clock w_fs w_git
       w_stdout log set_remote set_fs set_git tick_ai tick_clock fst snd].
Ltac wsimpl_in H :=
  cbn [w_trace w_remote w_ai_calls w_ai w_clock_reads w_clock w_fs w_git
       w_stdout log set_remote set_fs set_git tick_ai tick_clock fst snd] in H.

(** ** Printing a line *)

Lemma print_inr (m : message) (w : World) (u : unit) (w' : World) :
  print m w = (inr u, w') ->
  w' = log (EvPrint m) w /\ plain m || w_stdout w m = true.
Proof.
  unfold print, emit. destruct (plain m || w_stdout w m); [|discriminate].
  intros H. injection H as _ <-. now split.
Qed.

Lemma print_inl (m : message) (w : World) (e : exn) (w' : World) :
  print m w = (inl e, w') ->
  e = UnicodeEncodeError /\ w' = w /\ plain m || w_stdout w m = false.
Proof.
  unfold print, emit. destruct (plain m || w_stdout w m); [discriminate|].
  intros H. injection H as <- <-. now repeat split.
Qed.

Lemma print_plain (m : message) (w : World) :
  plain m = true -> print m w = (inr tt, log (EvPrint m) w).
Proof. intros P. unfold print, emit. now rewrite P. Qed.

Lemma print_snd (m : message) (w : World) :
  snd (print m w) = w \/ snd (print m w) = log (EvPrint m) w.
Proof.
  unfold print, emit. destruct (plain m || w_stdout w m); [now right|now left].
Qed.

(** ** Writing a file *)

Lemma fs_lookup_head fs p n : fs_lookup ((p, n) :: fs) p = Some n.
Proof. simpl. now rewrite path_eqb_refl. Qed.

Lemma fs_lookup_tail fs p q n : q <> p -> fs_lookup ((p, n) :: fs) q = fs_lookup fs q.
Proof. intros N. simpl. apply path_eqb_false in N. now rewrite N. Qed.

Lemma write_fs_file p data fs old :
  fs_lookup fs p = Some (File old) ->
  write_fs p data fs = (p, File (old ++ data)%string) :: fs.
Proof. intros H. unfold write_fs. now rewrite H. Qed.

Lemma write_fs_other p data fs q :
  q <> p -> fs_lookup (write_fs p data fs) q = fs_lookup fs q.
Proof.
  intros N. unfold write_fs.
  destruct (fs_lookup fs p) as [[?|]|]; now apply fs_lookup_tail.
Qed.

Lemma open_w_fs_other p fs fs' q :
  open_w_fs p fs = inr fs' -> q <> p -> fs_lookup fs' q = fs_lookup fs q.
Proof.
  unfold open_w_fs. destruct p as [|c p]; [discriminate|].
  destruct (node_at fs (parent (c :: p))) as [[?|]|]; try discriminate.
  destruct (fs_lookup fs (c :: p)) as [[?|]|]; try discriminate;
    intros H N; inversion H; subst; now apply fs_lookup_tail.
Qed.

Lemma open_w_fs_empty p fs fs' :
  open_w_fs p fs = inr fs' -> fs' = (p, File EmptyString) :: fs.
Proof.
  unfold open_w_fs. destruct p as [|c p]; [discriminate|].
  destruct (node_at fs (parent (c :: p))) as [[?|]|]; try discriminate.
  destruct (fs_lookup fs (c :: p)) as [[?|]|]; try discriminate;
    intros H; now inversion H.
Qed.

Lemma write_fs_head p data old fs :
  write_fs p data ((p, File old) :: fs)
  = (p, File (old ++ data)%string) :: (p, File old) :: fs.
Proof. apply write_fs_file, fs_lookup_head. Qed.

(** ** The changelog block *)

Lemma write_changelog_ok p analysis diff w w' :
  write_changelog p analysis diff w = (inr tt, w') ->
  exists changelog impact,
    subscript analysis "changelog" = inr (PStr changelog) /\
    subscript analysis "impact" = inr (PStr impact) /\
    let stamp' := w_clock w (w_clock_reads w) in
    fs_lookup (w_fs w') p = Some (File (changelog_text stamp' changelog impact diff)) /\
    (forall q, q <> p -> fs_lookup (w_fs w') q = fs_lookup (w_fs w) q) /\
    w_trace w' = w_trace w ++ changelog_events p stamp' changelog impact diff /\
    w_clock_reads w' = S (w_clock_reads w) /\
    w_clock w' = w_clock w /\ w_git w' = w_git w /\ w_remote w' = w_remote w /\
    w_ai_calls w' = w_ai_calls w /\ w_ai w' = w_ai w.
Proof.
  unfold write_changelog, with_ctx. intros H.
  unfold open_w at 1 in H.
  destruct (open_w_fs p (w_fs w)) as [e|fs0] eqn:Eo; [discriminate|].
  apply open_w_fs_empty in Eo as Efs0.
  match type of H with
  | match ?body ?w0 with _ => _ end = _ => destruct (body w0) as [r w2] eqn:Eb
  end.
  unfold close, emit in H.
  apply pair_equal_spec in H. destruct H as [-> <-].
  rename Eb into H.
  bind_inv H. unfold now in Hstep.
  apply pair_equal_spec in Hstep. destruct Hstep as [Ha <-].
  injection Ha as <-.
  unfold bind, write, lift in H. wsimpl_in H.
  destruct (subscript analysis "changelog") as [e|c] eqn:Ec; [discriminate|].
  destruct c as [| | |changelog| |]; try discriminate.
  destruct (subscript analysis "impact") as [e|i] eqn:Ei; [discriminate|].
  destruct i as [| | |impact| |]; try discriminate.
  cbn [str_add] in H.
  apply pair_equal_spec in H. destruct H as [_ <-].
  exists changelog, impact. split; [reflexivity|]. split; [reflexivity|].
  wsimpl. subst fs0.
  repeat rewrite write_fs_head.
  split; [apply fs_lookup_head|].
  split.
  { intros q N. repeat (rewrite fs_lookup_tail by exact N). reflexivity. }
  split.
  { unfold changelog_events. repeat rewrite <- app_assoc. reflexivity. }
  repeat split; reflexivity.
Qed.

(** Whatever way the block ends, it writes nowhere but at [p]. *)
Lemma write_changelog_frame p analysis diff w q :
  q <> p ->
  fs_lookup (w_fs (snd (write_changelog p analysis diff w))) q = fs_lookup (w_fs w) q.
Proof.
  intros N. unfold write_changelog, with_ctx.
  unfold open_w at 1.
  destruct (open_w_fs p (w_fs w)) as [e|fs0] eqn:Eo; [reflexivity|].
  pose proof (open_w_fs_other _ _ _ _ Eo N) as Ho.
  unfold bind, now, write, lift, close, emit. wsimpl.
  destruct (subscript analysis "changelog") as [e|c]; wsimpl;
    [now rewrite !write_fs_other|].
  destruct (str_add c _) as [e|line]; wsimpl; [now rewrite !write_fs_other|].
  destruct (subscript analysis "impact") as [e|i]; wsimpl;
    [now rewrite !write_fs_other|].
  destruct (str_add i _) as [e|line']; wsimpl; now rewrite !write_fs_other.
Qed.

(** ** What creating directories and copying a tree leave alone *)

Lemma makedirs_from_frame (todo done : path) (fs fs' : FS) (q : path) :
  makedirs_from done todo fs = inr fs' ->
  (forall a b, todo = a ++ b -> a <> [] -> q <> done ++ a) ->
  fs_lookup fs' q = fs_lookup fs q.
Proof.
  revert done fs. induction todo as [|c rest IH]; intros done fs H L; simpl in H.
  - congruence.
  - assert (N : path_eqb q (done ++ [c]) = false).
    { apply path_eqb_false. apply (L [c] rest); [reflexivity|discriminate]. }
    assert (L' : forall a b, rest = a ++ b -> a <> [] -> q <> (done ++ [c]) ++ a).
    { intros a b E Na. rewrite <- app_assoc. apply (L (c :: a) b).
      - simpl. now rewrite E.
      - discriminate. }
    destruct (fs_lookup fs (done ++ [c])) as [[?|]|] eqn:E; try discriminate.
    + eapply IH; eauto.
    + rewrite (IH _ _ H L'). simpl. now rewrite N.
Qed.

Lemma makedirs_frame2 (a b : string) (fs fs' : FS) (q : path) :
  makedirs [a; b] fs = inr fs' -> q <> [a] -> q <> [a; b] ->
  fs_lookup fs' q = fs_lookup fs q.
Proof.
  intros H N1 N2. apply (makedirs_from_frame _ _ _ _ _ H).
  intros x y E Nx. simpl.
  destruct x as [|x1 [|x2 [|x3 x]]]; try congruence; simpl in E; inversion E; subst;
    try assumption.
  all: try (destruct x; discriminate).
Qed.

Lemma makedirs_frame3 (a b c : string) (fs fs' : FS) (q : path) :
  makedirs [a; b; c] fs = inr fs' -> q <> [a] -> q <> [a; b] -> q <> [a; b; c] ->
  fs_lookup fs' q = fs_lookup fs q.
Proof.
  intros H N1 N2 N3. apply (makedirs_from_frame _ _ _ _ _ H).
  intros x y E Nx. simpl.
  destruct x as [|x1 [|x2 [|x3 [|x4 x]]]]; try congruence; simpl in E; inversion E; subst;
    try assumption.
  all: try (destruct x; discriminate).
Qed.

Lemma makedirs_made (p : path) (fs fs' : FS) :
  makedirs p fs = inr fs' -> p <> [] -> fs_lookup fs' p = Some Dir.
Proof. intros H N. exact (makedirs_from_made p [] fs fs' H N). Qed.

Lemma makedirs_keeps (p : path) (fs fs' : FS) (q : path) (n : node) :
  makedirs p fs = inr fs' -> fs_lookup fs q = Some n -> fs_lookup fs' q = Some n.
Proof. apply makedirs_from_keeps. Qed.

(** ** Copying a tree *)

Lemma below_in (src : path) (fs : FS) (r : path) (n : node) :
  r <> [] -> In (src ++ r, n) fs -> In r (below src fs).
Proof.
  intros N H. unfold below. apply in_flat_map. exists (src ++ r, n).
  split; [exact H|]. cbn [fst]. rewrite strip_prefix_app.
  destruct r; [contradiction|now left].
Qed.

Lemma below_nonempty (src : path) (fs : FS) (r : path) :
  In r (below src fs) -> r <> [].
Proof.
  unfold below. intros H. apply in_flat_map in H. destruct H as ([p n] & _ & H).
  cbn [fst] in H. destruct (strip_prefix src p) as [[|c r']|]; try contradiction.
  destruct H as [<-|[]]. discriminate.
Qed.

Lemma walkable_dirs (r : path) :
  forall src dst fs,
    walkable src dst r fs = true ->
    forall a b, r = a ++ b -> a <> [] -> b <> [] ->
                fs_lookup fs (src ++ a) = Some Dir /\
                forall c, fs_lookup fs (dst ++ a) <> Some (File c).
Proof.
  induction r as [|c rest IH]; intros src dst fs W a b E Na Nb.
  - destruct a; [contradiction|discriminate].
  - destruct a as [|c' a]; [contradiction|]. injection E as <- E.
    destruct rest as [|c2 rest]; [destruct a; [now destruct b|discriminate]|].
    cbn [walkable] in W.
    destruct (fs_lookup fs (src ++ [c])) as [[x|]|] eqn:Es; try discriminate.
    destruct (fs_lookup fs (dst ++ [c])) as [[x|]|] eqn:Ed; try discriminate.
    + destruct a as [|c3 a].
      * split; [exact Es|]. intros y. rewrite Ed. discriminate.
      * destruct (IH _ _ _ W (c3 :: a) b E) as [H1 H2]; try discriminate;
          [exact Nb|].
        rewrite <- !app_assoc in H1, H2. now split.
    + destruct a as [|c3 a].
      * split; [exact Es|]. intros y. rewrite Ed. discriminate.
      * destruct (IH _ _ _ W (c3 :: a) b E) as [H1 H2]; try discriminate;
          [exact Nb|].
        rewrite <- !app_assoc in H1, H2. now split.
Qed.

Lemma walkable_of_dirs (r : path) :
  forall src dst fs,
    (forall a b, r = a ++ b -> a <> [] -> b <> [] ->
                 fs_lookup fs (src ++ a) = Some Dir /\
                 forall c, fs_lookup fs (dst ++ a) <> Some (File c)) ->
    walkable src dst r fs = true.
Proof.
  induction r as [|c rest IH]; intros src dst fs H; [reflexivity|].
  destruct rest as [|c2 rest]; [reflexivity|].
  cbn [walkable].
  destruct (H [c] (c2 :: rest)) as [H1 H2]; try discriminate; [reflexivity|].
  rewrite H1.
  assert (W : walkable (src ++ [c]) (dst ++ [c]) (c2 :: rest) fs = true).
  { apply IH. intros a b E Na Nb. rewrite <- !app_assoc.
    apply (H (c :: a) b); [simpl; now rewrite E|discriminate|exact Nb]. }
  destruct (fs_lookup fs (dst ++ [c])) as [[x|]|] eqn:Ed; try exact W.
  exfalso. now apply (H2 x).
Qed.

(** What a copy adds is below its destination, strictly. *)
Lemma copy_node_below (src dst : path) (fs : FS) (r : path) (t : path) (n : node) :
  r <> [] -> In (t, n) (fst (copy_node src dst fs r)) ->
  exists x, x <> [] /\ t = dst ++ x.
Proof.
  intros N. unfold copy_node.
  destruct (walkable src dst r fs); [|contradiction].
  destruct (fs_lookup fs (src ++ r)) as [[c|]|]; [| |contradiction].
  - destruct (fs_lookup fs (dst ++ r)) as [[x|]|].
    + intros [H|[]]. injection H as <- <-. now exists r.
    + cbv zeta.
      destruct (fs_lookup fs (dst ++ r ++ [last r EmptyString])) as [[x|]|];
        try contradiction;
        intros [H|[]]; injection H as <- <-;
        exists (r ++ [last r EmptyString]);
        (split; [now destruct r|reflexivity]).
    + intros [H|[]]. injection H as <- <-. now exists r.
  - destruct (fs_lookup fs (dst ++ r)) as [[x|]|]; try contradiction;
      intros [H|[]]; injection H as <- <-; now exists r.
Qed.

Lemma copied_in (src dst : path) (fs : FS) (rs : list path) (t : path) (n : node) :
  In (t, n) (flat_map fst (map (copy_node src dst fs) rs)) ->
  exists r, In r rs /\ In (t, n) (fst (copy_node src dst fs r)).
Proof.
  intros H. apply in_flat_map in H. destruct H as (step & Hs & Ht).
  apply in_map_iff in Hs. destruct Hs as (r & <- & Hr). now exists r.
Qed.

Lemma copied_below (src dst : path) (fs : FS) (t : path) (n : node) :
  In (t, n) (flat_map fst (map (copy_node src dst fs) (below src fs))) ->
  exists x, x <> [] /\ t = dst ++ x.
Proof.
  intros H. apply copied_in in H. destruct H as (r & Hr & Ht).
  apply (copy_node_below src dst fs r t n); [|exact Ht].
  now apply below_nonempty in Hr.
Qed.

Lemma copied_outside (src dst : path) (fs : FS) (q : path) :
  (forall x, x <> [] -> q <> dst ++ x) ->
  fs_lookup (flat_map fst (map (copy_node src dst fs) (below src fs))) q = None.
Proof.
  intros H. apply fs_lookup_absent. intros n X.
  apply copied_below in X. destruct X as (x & Nx & E). now apply (H x).
Qed.

(** What a copy that succeeds has done. *)
Lemma copytree_fs_source (src dst : path) (fs fs2 : FS) :
  copytree_fs src dst fs = (inr tt, fs2) -> node_at fs src = Some Dir.
Proof.
  unfold copytree_fs. destruct (node_at fs src) as [[?|]|]; try discriminate.
  reflexivity.
Qed.

Lemma copytree_fs_ok (src dst : path) (fs fs2 : FS) :
  copytree_fs src dst fs = (inr tt, fs2) ->
  exists fs1,
    makedirs dst fs = inr fs1 /\
    fs2 = flat_map fst (map (copy_node src dst fs1) (below src fs1)) ++ fs1 /\
    forall r, In r (below src fs1) -> snd (copy_node src dst fs1 r) = false.
Proof.
  unfold copytree_fs. destruct (node_at fs src) as [[?|]|]; try discriminate.
  destruct (makedirs dst fs) as [e|fs1]; [discriminate|]. cbv zeta.
  destruct (existsb snd _) eqn:E; [discriminate|].
  intros H. injection H as <-. exists fs1. split; [reflexivity|].
  split; [reflexivity|]. intros r Hr.
  destruct (snd (copy_node src dst fs1 r)) eqn:S; [|reflexivity].
  assert (X : existsb snd (map (copy_node src dst fs1) (below src fs1)) = true).
  { apply existsb_exists. exists (copy_node src dst fs1 r).
    split; [now apply in_map|exact S]. }
  congruence.
Qed.

(** Whatever way the copy ends, it writes below [dst] only, and creates
    [dst] and its parents. *)
Lemma copytree_fs_frame3 (src : path) (a b c : string) (fs : FS) (q : path) :
  q <> [a] -> q <> [a; b] -> strip_prefix [a; b; c] q = None ->
  fs_lookup (snd (copytree_fs src [a; b; c] fs)) q = fs_lookup fs q.
Proof.
  intros N1 N2 N3.
  assert (N4 : q <> [a; b; c]).
  { intros ->. change [a; b; c] with ([a; b; c] ++ []) in N3 at 2.
    rewrite strip_prefix_app in N3. discriminate. }
  assert (N5 : forall x, x <> [] -> q <> [a; b; c] ++ x).
  { intros x _ ->. rewrite strip_prefix_app in N3. discriminate. }
  unfold copytree_fs. destruct (node_at fs src) as [[?|]|]; try reflexivity.
  destruct (makedirs [a; b; c] fs) as [e|fs1] eqn:Hm; [reflexivity|].
  pose proof (makedirs_frame3 _ _ _ _ _ _ Hm N1 N2 N4) as F. cbv zeta.
  destruct (existsb snd _); cbn [snd];
    now rewrite fs_lookup_app, copied_outside.
Qed.

(** A copy that succeeds has been through every directory of the
    source. *)
Lemma copy_reaches (src dst : path) (fs : FS) (r : path) :
  (forall r', In r' (below src fs) -> snd (copy_node src dst fs r') = false) ->
  (forall a b, r = a ++ b -> a <> [] -> b <> [] ->
               fs_lookup fs (src ++ a) = Some Dir) ->
  walkable src dst r fs = true.
Proof.
  intros Hok Hd.
  assert (P : forall n a b, length a <= n -> r = a ++ b -> a <> [] -> b <> [] ->
                            forall c, fs_lookup fs (dst ++ a) <> Some (File c)).
  { induction n as [|n IH]; intros a b L E Na Nb c X.
    - destruct a; [contradiction|simpl in L; lia].
    - assert (W : walkable src dst a fs = true).
      { apply walkable_of_dirs. intros a1 a2 E1 N1 N2. split.
        - apply (Hd a1 (a2 ++ b)); [now rewrite E, E1, <- app_assoc|exact N1|].
          now destruct a2.
        - apply (IH a1 (a2 ++ b)); [|now rewrite E, E1, <- app_assoc|exact N1|].
          + rewrite E1, length_app in L. destruct a2; [contradiction|].
            simpl in L. lia.
          + now destruct a2. }
      pose proof (Hd a b E Na Nb) as Ds.
      assert (I : In a (below src fs))
        by (apply (below_in src fs a Dir Na), fs_lookup_in, Ds).
      specialize (Hok a I). unfold copy_node in Hok.
      rewrite W, Ds, X in Hok. discriminate. }
  apply walkable_of_dirs. intros a b E Na Nb. split; [now apply (Hd a b)|].
  now apply (P (length a) a b).
Qed.

Lemma app_last_inj (r r' : path) :
  r ++ [last r EmptyString] = r' ++ [last r' EmptyString] -> r = r'.
Proof. intros H. now apply app_inj_tail in H. Qed.

(** A copy that succeeds has put every file of the source tree where
    [landing] says. *)
Lemma copy_lands (src dst : path) (fs : FS) (r : path) (c : string) :
  (forall r', In r' (below src fs) -> snd (copy_node src dst fs r') = false) ->
  r <> [] -> tree_file fs src r c ->
  fs_lookup (flat_map fst (map (copy_node src dst fs) (below src fs)) ++ fs)
            (landing fs dst r)
  = Some (File c).
Proof.
  intros Hok N [Hf Hd].
  pose proof (copy_reaches src dst fs r Hok Hd) as W.
  assert (I : In r (below src fs))
    by (apply (below_in src fs r (File c) N), fs_lookup_in, Hf).
  assert (Here : In (landing fs dst r, File c) (fst (copy_node src dst fs r))).
  { pose proof (Hok r I) as S. unfold copy_node, landing in *.
    rewrite W, Hf in *.
    destruct (fs_lookup fs (dst ++ r)) as [[x|]|]; try now left.
    cbv zeta in *.
    destruct (fs_lookup fs (dst ++ r ++ [last r EmptyString])) as [[x|]|];
      try now left. discriminate. }
  rewrite fs_lookup_app.
  rewrite (fs_lookup_unique _ (landing fs dst r) (File c)); [reflexivity| |].
  - apply in_flat_map. exists (copy_node src dst fs r).
    split; [now apply in_map|exact Here].
  - intros n' X. apply copied_in in X. destruct X as (r' & I' & X).
    pose proof (below_nonempty _ _ _ I') as N'.
    unfold copy_node in X.
    destruct (walkable src dst r' fs) eqn:W'; [|contradiction].
    assert (Pre : forall p, p <> [] -> forall x, x <> [] -> r' = p ++ x ->
                            fs_lookup fs (src ++ p) = Some Dir).
    { intros p Np x Nx E.
      apply (walkable_dirs r' src dst fs W' p x E Np Nx). }
    assert (Pre0 : forall p, p <> [] -> forall x, x <> [] -> r = p ++ x ->
                             fs_lookup fs (src ++ p) = Some Dir).
    { intros p Np x Nx E. now apply (Hd p x). }
    unfold landing in X.
    destruct (fs_lookup fs (src ++ r')) as [[c'|]|] eqn:S'; [| |contradiction].
    + (* r' is a file *)
      destruct (fs_lookup fs (dst ++ r')) as [[y|]|] eqn:D'.
      * destruct X as [X|[]]. injection X as X <-.
        destruct (fs_lookup fs (dst ++ r)) as [[z|]|] eqn:D0;
          apply app_inv_head in X.
        -- subst r'. congruence.
        -- subst r'. rewrite (Pre r N [last r EmptyString]) in Hf;
             [discriminate|discriminate|reflexivity].
        -- subst r'. congruence.
      * cbv zeta in X.
        destruct (fs_lookup fs (dst ++ r' ++ [last r' EmptyString])) as [[y|]|];
          try contradiction;
          destruct X as [X|[]]; injection X as X <-;
          (destruct (fs_lookup fs (dst ++ r)) as [[z|]|] eqn:D0;
           apply app_inv_head in X;
           [ subst r; rewrite (Pre0 r' N' [last r' EmptyString]) in S';
             [discriminate|discriminate|reflexivity]
           | apply app_last_inj in X; subst r'; congruence
           | subst r; rewrite (Pre0 r' N' [last r' EmptyString]) in S';
             [discriminate|discriminate|reflexivity] ]).
      * destruct X as [X|[]]. injection X as X <-.
        destruct (fs_lookup fs (dst ++ r)) as [[z|]|] eqn:D0;
          apply app_inv_head in X.
        -- subst r'. congruence.
        -- subst r'. rewrite (Pre r N [last r EmptyString]) in Hf;
             [discriminate|discriminate|reflexivity].
        -- subst r'. congruence.
    + (* r' is a directory *)
      assert (X' : (dst ++ r', Dir) = (match fs_lookup fs (dst ++ r) with
                                       | Some Dir => dst ++ r ++ [last r EmptyString]
                                       | _ => dst ++ r
                                       end, n')).
      { destruct (fs_lookup fs (dst ++ r')) as [[y|]|]; try contradiction;
          now destruct X as [X|[]]. }
      injection X' as X' _.
      destruct (fs_lookup fs (dst ++ r)) as [[z|]|] eqn:D0;
        apply app_inv_head in X'.
      * subst r'. congruence.
      * subst r'. rewrite (Pre r N [last r EmptyString]) in Hf;
          [discriminate|discriminate|reflexivity].
      * subst r'. congruence.
Qed.

Lemma makedirs_from_frame_below (todo done : path) (fs fs' : FS) (x : path) :
  makedirs_from done todo fs = inr fs' -> x <> [] ->
  fs_lookup fs' (done ++ todo ++ x) = fs_lookup fs (done ++ todo ++ x).
Proof.
  intros H N. apply (makedirs_from_frame _ _ _ _ _ H).
  intros a b E Na X. subst todo.
  apply (f_equal (@length string)) in X. rewrite !length_app in X.
  destruct x; [contradiction|]. simpl in X. lia.
Qed.

Lemma makedirs_frame_below (p : path) (fs fs' : FS) (x : path) :
  makedirs p fs = inr fs' -> x <> [] ->
  fs_lookup fs' (p ++ x) = fs_lookup fs (p ++ x).
Proof. intros H N. exact (makedirs_from_frame_below p [] fs fs' x H N). Qed.

(** Every file of the source tree, as it was when the copy began, is
    found where [landing] says, with the same content. *)
Lemma copytree_fs_copies (src dst : path) (fs fs2 : FS) (r : path) (c : string) :
  copytree_fs src dst fs = (inr tt, fs2) ->
  r <> [] -> tree_file fs src r c ->
  fs_lookup fs2 (landing fs dst r) = Some (File c).
Proof.
  intros H N [Hf Hd]. apply copytree_fs_ok in H.
  destruct H as (fs1 & Hm & -> & Hok).
  assert (T1 : tree_file fs1 src r c).
  { split; [exact (makedirs_keeps _ _ _ _ _ Hm Hf)|].
    intros a b E Na Nb. exact (makedirs_keeps _ _ _ _ _ Hm (Hd a b E Na Nb)). }
  assert (L : landing fs dst r = landing fs1 dst r).
  { unfold landing. now rewrite (makedirs_frame_below _ _ _ r Hm N). }
  rewrite L. now apply copy_lands.
Qed.

(** The destination is a directory after a copy that succeeds. *)
Lemma copytree_fs_made (src dst : path) (fs fs2 : FS) :
  copytree_fs src dst fs = (inr tt, fs2) -> dst <> [] ->
  fs_lookup fs2 dst = Some Dir.
Proof.
  intros H N. apply copytree_fs_ok in H. destruct H as (fs1 & Hm & -> & _).
  rewrite fs_lookup_app, copied_outside.
  - now apply (makedirs_made dst fs fs1).
  - intros x Nx E. rewrite <- (app_nil_r dst) in E at 1.
    apply app_inv_head in E. now subst x.
Qed.

(** What a copy that succeeds leaves alone: all but the folders it
    creates and what is below the destination. *)
Lemma copytree_fs_keeps (src dst : path) (fs fs2 : FS) (q : path) :
  copytree_fs src dst fs = (inr tt, fs2) ->
  (forall x, x <> [] -> q <> dst ++ x) ->
  exists fs1, makedirs dst fs = inr fs1 /\ fs_lookup fs2 q = fs_lookup fs1 q.
Proof.
  intros H N. apply copytree_fs_ok in H. destruct H as (fs1 & Hm & -> & _).
  exists fs1. split; [exact Hm|]. now rewrite fs_lookup_app, copied_outside.
Qed.
(** ** The backup, once the diff has been analysed *)

Lemma materialize_ok analysis diff w msg w' :
  materialize_backup analysis diff w = (inr msg, w') ->
  let stamp := w_clock w (w_clock_reads w) in
  let stamp' := w_clock w (S (w_clock_reads w)) in
  let dir := backup_dir_at stamp in
  exists changelog impact fs1 fs2,
    subscript analysis "changelog" = inr (PStr changelog) /\
    subscript analysis "impact" = inr (PStr impact) /\
    subscript analysis "commit_message" = inr msg /\
    makedirs dir (w_fs w) = inr fs1 /\
    copytree_fs definition_dir (dir ++ ["definition"]) fs1 = (inr tt, fs2) /\
    fs_lookup (w_fs w') (dir ++ ["CHANGELOG.md"])
    = Some (File (changelog_text stamp' changelog impact diff)) /\
    (forall q, q <> dir ++ ["CHANGELOG.md"] ->
               fs_lookup (w_fs w') q = fs_lookup fs2 q) /\
    w_trace w' = w_trace w ++ backup_events stamp stamp' changelog impact diff /\
    w_clock_reads w' = S (S (w_clock_reads w)) /\
    w_git w' = w_git w.
Proof.
  intros H stamp stamp' dir. unfold materialize_backup in H.
  bind_inv H. unfold now in Hstep.
  apply pair_equal_spec in Hstep. destruct Hstep as [Ha <-]. injection Ha as <-.
  fold stamp in H. fold (backup_dir_at stamp) in H. fold dir in H.
  bind_inv H. unfold mkdir in Hstep. wsimpl_in Hstep.
  destruct (makedirs dir (w_fs w)) as [e|fs1] eqn:Hm; [discriminate|].
  apply pair_equal_spec in Hstep. destruct Hstep as [_ <-].
  bind_inv H. unfold copytree in Hstep. wsimpl_in Hstep.
  destruct (copytree_fs definition_dir (dir ++ ["definition"]) fs1) as [r fs2] eqn:Hc.
  apply pair_equal_spec in Hstep. destruct Hstep as [-> <-].
  bind_inv H.
  repeat match goal with x : unit |- _ => destruct x end.
  apply write_changelog_ok in Hstep.
  destruct Hstep as (changelog & impact & Ec & Ei & Hf & Ho & Ht & Hr & Hk & Hg & _).
  wsimpl_in Hf. wsimpl_in Ho. wsimpl_in Ht. wsimpl_in Hr. wsimpl_in Hk. wsimpl_in Hg.
  bind_inv H. apply print_inr in Hstep. destruct Hstep as [-> _].
  bind_inv H. apply print_inr in Hstep. destruct Hstep as [-> _].
  unfold lift in H.
  apply pair_equal_spec in H. destruct H as [Hmsg <-].
  exists changelog, impact, fs1, fs2. wsimpl.
  repeat split; try assumption.
  rewrite Ht. unfold backup_events. fold dir. fold stamp'.
  repeat rewrite <- app_assoc. reflexivity.
Qed.

(** The backup writes below its own folder only; besides, it may create
    [backups] itself. *)
Lemma materialize_frame analysis diff w q :
  let dir := backup_dir_at (w_clock w (w_clock_reads w)) in
  q <> ["backups"] -> q <> dir -> strip_prefix dir q = None ->
  fs_lookup (w_fs (snd (materialize_backup analysis diff w))) q = fs_lookup (w_fs w) q.
Proof.
  intros dir N1 N2 N3. unfold materialize_backup.
  unfold bind at 1. unfold now. fold (backup_dir_at (w_clock w (w_clock_reads w))).
  fold dir.
  assert (Nd : strip_prefix (dir ++ ["definition"]) q = None).
  { destruct (strip_prefix (dir ++ ["definition"]) q) as [r|] eqn:E; [|reflexivity].
    apply strip_prefix_some in E. rewrite <- app_assoc in E. subst q.
    rewrite strip_prefix_app in N3. discriminate. }
  assert (Nc : q <> dir ++ ["CHANGELOG.md"]).
  { intros ->. rewrite strip_prefix_app in N3. discriminate. }
  unfold bind at 1. unfold mkdir. wsimpl.
  destruct (makedirs dir (w_fs w)) as [e|fs1] eqn:Hm; wsimpl; [reflexivity|].
  pose proof (makedirs_frame2 _ _ _ _ _ Hm N1 N2) as F1.
  unfold bind at 1. unfold copytree. wsimpl.
  pose proof (copytree_fs_frame3 definition_dir _ _ _ fs1 q N1 N2 Nd) as F2.
  change (["backups"; strftime_compact (w_clock w (w_clock_reads w)); "definition"])
    with (dir ++ ["definition"]) in F2.
  destruct (copytree_fs definition_dir (dir ++ ["definition"]) fs1) as [r fs2].
  simpl in F2.
  destruct r as [e|[]]; wsimpl; [congruence|].
  unfold bind at 1.
  match goal with
  | |- context [write_changelog ?p ?a ?d ?w0] =>
      pose proof (write_changelog_frame p a d w0 q Nc) as F3;
      destruct (write_changelog p a d w0) as [r3 w3]
  end.
  simpl in F3. wsimpl_in F3.
  destruct r3 as [e|[]]; wsimpl; [congruence|].
  unfold bind, print, emit, lift.
  repeat (destruct (plain _ || w_stdout _ _); wsimpl); congruence.
Qed.

(* ================================================================== *)
(** * Auxiliary facts: what a computation leaves alone *)
(* ================================================================== *)

Section Keeps.
Context {X : Type} (obs : World -> X).

Lemma keeps_ret {A} (a : A) : keeps obs (ret a).
Proof. intros w. reflexivity. Qed.

Lemma keeps_lift {A} (r : result A) : keeps obs (lift r).
Proof. intros w. reflexivity. Qed.

Lemma keeps_bind {A B} (c : M A) (k : A -> M B) :
  keeps obs c -> (forall a, keeps obs (k a)) -> keeps obs (bind c k).
Proof.
  intros Hc Hk w. unfold bind. specialize (Hc w).
  destruct (c w) as [[e|a] w1]; simpl in *; [exact Hc|].
  now rewrite Hk.
Qed.

Lemma keeps_with_ctx {A} (enter exit : M unit) (body : M A) :
  keeps obs enter -> keeps obs exit -> keeps obs body ->
  keeps obs (with_ctx enter exit body).
Proof.
  intros He Hx Hb w. unfold with_ctx. specialize (He w).
  destruct (enter w) as [[e|[]] w1]; simpl in *; [exact He|].
  specialize (Hb w1). destruct (body w1) as [r w2]. simpl in Hb.
  specialize (Hx w2). destruct (exit w2) as [[e|[]] w3]; simpl in *; congruence.
Qed.

Lemma keeps_if {A} (b : bool) (c1 c2 : M A) :
  keeps obs c1 -> keeps obs c2 -> keeps obs (if b then c1 else c2).
Proof. now destruct b. Qed.

End Keeps.

Ltac keeps_step :=
  first [ apply keeps_ret | apply keeps_lift | apply keeps_if
        | apply keeps_with_ctx | apply keeps_bind; [|intros]
        | progress cbv zeta ].

(** ** The repository is touched by [git add] and [git commit] only *)

(** The ways a tool call can go. *)
Ltac call_tool_cases w :=
  unfold call_tool, served; cbv zeta; wsimpl;
  match goal with
  | |- context [serve ?r ?t ?a ?fs] =>
      destruct (serve r t a fs) as [[?out ?st] ?fs']
  end;
  destruct (r_override (w_remote w) (r_calls (w_remote w))) as [?f|];
  [ match goal with
    | f : fault |- _ => destruct (f_served f); cbn [andb]
    end
  | ];
  try destruct (session_live w) eqn:?L; cbn [fst snd].

Ltac initialize_cases w :=
  unfold initialize; cbv zeta;
  destruct (r_override (w_remote w) (r_calls (w_remote w))) as [?f|];
  [ match goal with
    | f : fault |- _ => destruct (f_outcome f) as [?e|?x]
    end
  | destruct (session_live w) eqn:?L ].

Lemma call_tool_git s tool args : keeps w_git (call_tool s tool args).
Proof. intros w. call_tool_cases w; reflexivity. Qed.

Lemma initialize_git s : keeps w_git (initialize s).
Proof. intros w. initialize_cases w; reflexivity. Qed.

Lemma print_git m : keeps w_git (print m).
Proof. intros w. now destruct (print_snd m w) as [-> | ->]. Qed.

Lemma stdio_enter_git : keeps w_git stdio_enter.
Proof. intros w. unfold stdio_enter. now destruct (r_spawn (w_remote w)). Qed.

Lemma emit_git e : keeps w_git (emit e).
Proof. intros w. reflexivity. Qed.

Lemma messages_create_git model n p : keeps w_git (messages_create model n p).
Proof. intros w. reflexivity. Qed.

Lemma connect_to_model_git p : keeps w_git (connect_to_model p).
Proof.
  unfold connect_to_model.
  repeat keeps_step;
    first [ apply stdio_enter_git | apply initialize_git | apply call_tool_git
          | intros w; reflexivity ].
Qed.

Lemma document_measure_git s conn m acc : keeps w_git (document_measure s conn m acc).
Proof.
  unfold document_measure.
  repeat first [ apply call_tool_git | apply messages_create_git
               | apply print_git | keeps_step ].
Qed.

Lemma for_measures_git s conn ms : forall acc, keeps w_git (for_measures s conn ms acc).
Proof.
  induction ms as [|m ms IH]; intros acc; simpl.
  - apply keeps_ret.
  - apply keeps_bind; [apply document_measure_git|exact IH].
Qed.

Lemma auto_document_measures_git s conn : keeps w_git (auto_document_measures s conn).
Proof.
  unfold auto_document_measures, list_measures.
  apply keeps_bind; [|intros; apply for_measures_git].
  repeat keeps_step; apply call_tool_git.
Qed.

Lemma document_and_export_git : keeps w_git document_and_export.
Proof.
  unfold document_and_export.
  repeat first [ apply print_git | apply connect_to_model_git
               | apply auto_document_measures_git | apply call_tool_git
               | keeps_step ].
Qed.

(** ** Only [analyze_tmdl_changes] hands a change set to the service *)

Lemma changesets_app (a b : list event) :
  changesets_analysed (a ++ b) = changesets_analysed a ++ changesets_analysed b.
Proof.
  induction a as [|e a IH]; simpl; [reflexivity|].
  destruct e; try exact IH. destruct p; [exact IH|]. simpl. now rewrite IH.
Qed.

Lemma log_changesets e w :
  changesets_of (log e w) = changesets_of w ++ changesets_analysed [e].
Proof. unfold changesets_of. simpl. apply changesets_app. Qed.

Lemma emit_changesets e :
  changesets_analysed [e] = [] -> keeps changesets_of (emit e).
Proof.
  intros H w. unfold emit. simpl. rewrite log_changesets, H. apply app_nil_r.
Qed.

Lemma now_changesets : keeps changesets_of now.
Proof. intros w. unfold now. simpl. rewrite log_changesets. apply app_nil_r. Qed.

Lemma mkdir_changesets p : keeps changesets_of (mkdir p).
Proof.
  intros w. unfold mkdir. destruct (makedirs p (w_fs w)); simpl;
    unfold changesets_of; simpl; rewrite changesets_app; apply app_nil_r.
Qed.

Lemma copytree_changesets src dst : keeps changesets_of (copytree src dst).
Proof.
  intros w. unfold copytree. destruct (copytree_fs src dst (w_fs w)); simpl.
  unfold changesets_of; simpl. rewrite changesets_app; apply app_nil_r.
Qed.

Lemma open_w_changesets p : keeps changesets_of (open_w p).
Proof.
  intros w. unfold open_w. destruct (open_w_fs p (w_fs w)); simpl;
    unfold changesets_of; simpl; rewrite changesets_app; apply app_nil_r.
Qed.

Lemma write_changesets p data : keeps changesets_of (write p data).
Proof.
  intros w. unfold write. simpl.
  unfold changesets_of; simpl. rewrite changesets_app; apply app_nil_r.
Qed.

Lemma print_changesets m : keeps changesets_of (print m).
Proof.
  intros w. destruct (print_snd m w) as [-> | ->]; [reflexivity|].
  rewrite log_changesets. apply app_nil_r.
Qed.

Lemma materialize_changesets analysis diff :
  keeps changesets_of (materialize_backup analysis diff).
Proof.
  unfold materialize_backup, write_changelog, close.
  repeat first [ apply now_changesets | apply mkdir_changesets
               | apply copytree_changesets | apply open_w_changesets
               | apply write_changesets | apply print_changesets
               | apply emit_changesets; reflexivity | keeps_step ].
Qed.

(* ================================================================== *)
(** * Auxiliary facts: time stamps *)
(* ================================================================== *)

Lemma append_inj_l (a c b d : string) :
  String.length a = String.length c ->
  (a ++ b)%string = (c ++ d)%string -> a = c /\ b = d.
Proof.
  revert c. induction a as [|x a IH]; intros [|y c] L E; simpl in *;
    try discriminate.
  - now split.
  - injection E as -> E. injection L as L.
    destruct (IH c L E) as [-> ->]. now split.
Qed.

Lemma length_append (a b : string) :
  String.length (a ++ b)%string = String.length a + String.length b.
Proof. induction a as [|x a IH]; simpl; [reflexivity|]. now rewrite IH. Qed.

Lemma fix_digits_length (width n : nat) : String.length (fix_digits width n) = width.
Proof.
  revert n. induction width as [|w IH]; intros n; simpl; [reflexivity|].
  rewrite length_append, IH. simpl. lia.
Qed.

Lemma digit_inj (n m : nat) : digit n = digit m -> n mod 10 = m mod 10.
Proof.
  unfold digit. intros H.
  assert (Hn : n mod 10 < 10) by (apply Nat.mod_upper_bound; lia).
  assert (Hm : m mod 10 < 10) by (apply Nat.mod_upper_bound; lia).
  apply (f_equal nat_of_ascii) in H.
  rewrite !nat_ascii_embedding in H by lia. lia.
Qed.

Lemma fix_digits_inj (width n m : nat) :
  n < 10 ^ width -> m < 10 ^ width ->
  fix_digits width n = fix_digits width m -> n = m.
Proof.
  revert n m. induction width as [|w IH]; intros n m Hn Hm E.
  - simpl in Hn, Hm. lia.
  - cbn [fix_digits] in E.
    apply append_inj_l in E; [|now rewrite !fix_digits_length].
    destruct E as [E1 E2]. injection E2 as E2. apply digit_inj in E2.
    rewrite Nat.pow_succ_r' in Hn, Hm.
    assert (n / 10 = m / 10).
    { apply IH; [| |exact E1]; apply Nat.Div0.div_lt_upper_bound; lia. }
    rewrite (Nat.div_mod_eq n 10), (Nat.div_mod_eq m 10). lia.
Qed.

Ltac split_field H :=
  apply append_inj_l in H; [|now rewrite !fix_digits_length];
  let F := fresh "F" in destruct H as [F H].

Ltac split_sep H :=
  apply append_inj_l in H; [|reflexivity]; destruct H as [_ H].

Lemma strftime_compact_inj (a b : datetime) :
  datetime_ok a -> datetime_ok b ->
  strftime_compact a = strftime_compact b -> same_second a b.
Proof.
  intros (A1 & A2 & A3 & A4 & A5 & A6) (B1 & B2 & B3 & B4 & B5 & B6) H.
  unfold strftime_compact in H.
  split_field H. split_field H. split_field H.
  split_sep H. split_field H. split_field H.
  change 100 with (10 ^ 2) in *.
  unfold same_second. repeat split; eapply fix_digits_inj; eauto.
Qed.

Lemma strftime_header_inj (a b : datetime) :
  datetime_ok a -> datetime_ok b ->
  strftime_header a = strftime_header b -> same_second a b.
Proof.
  intros (A1 & A2 & A3 & A4 & A5 & A6) (B1 & B2 & B3 & B4 & B5 & B6) H.
  unfold strftime_header in H.
  split_field H. split_sep H. split_field H. split_sep H.
  split_field H. split_sep H. split_field H. split_sep H.
  split_field H. split_sep H.
  change 100 with (10 ^ 2) in *.
  unfold same_second. repeat split; eapply fix_digits_inj; eauto.
Qed.

Lemma strftime_same_second (a b : datetime) :
  same_second a b ->
  strftime_compact a = strftime_compact b /\ strftime_header a = strftime_header b.
Proof.
  intros (E1 & E2 & E3 & E4 & E5 & E6).
  unfold strftime_compact, strftime_header.
  now rewrite E1, E2, E3, E4, E5, E6.
Qed.
(** ** Reading a time stamp back *)

Lemma number_from_app (a b : string) (acc : nat) :
  number_from acc (a ++ b)%string = number_from (number_from acc a) b.
Proof. revert acc. induction a as [|x a IH]; intros acc; simpl; [reflexivity|apply IH]. Qed.

Lemma digit_value_digit (n : nat) : digit_value (digit n) = n mod 10.
Proof.
  unfold digit_value, digit.
  assert (Hn : n mod 10 < 10) by (apply Nat.mod_upper_bound; lia).
  rewrite nat_ascii_embedding by lia. lia.
Qed.

Lemma number_from_fix_digits (width n acc : nat) :
  number_from acc (fix_digits width n) = acc * 10 ^ width + n mod 10 ^ width.
Proof.
  revert n acc. induction width as [|w IH]; intros n acc.
  - simpl. lia.
  - cbn [fix_digits]. rewrite number_from_app, IH. cbn [number_from].
    rewrite digit_value_digit.
    rewrite Nat.pow_succ_r', (Nat.Div0.mod_mul_r n 10 (10 ^ w)). lia.
Qed.

Lemma number_fix_digits (width n : nat) :
  n < 10 ^ width -> number (fix_digits width n) = n.
Proof.
  intros H. unfold number. rewrite number_from_fix_digits.
  rewrite Nat.mod_small by exact H. lia.
Qed.

Lemma substring_app_head (a b : string) (n : nat) :
  String.length a = n -> substring 0 n (a ++ b)%string = a.
Proof.
  revert n. induction a as [|x a IH]; intros n L; simpl in L; subst n; simpl.
  - now destruct b.
  - f_equal. now apply IH.
Qed.

Lemma substring_app_skip (a b : string) (k n m : nat) :
  String.length a = k -> substring (k + n) m (a ++ b)%string = substring n m b.
Proof.
  revert k. induction a as [|x a IH]; intros k L; simpl in L; subst k; simpl.
  - reflexivity.
  - now apply IH.
Qed.

Lemma substring_field (width v : nat) (rest : string) :
  substring 0 width (fix_digits width v ++ rest)%string = fix_digits width v.
Proof. apply substring_app_head, fix_digits_length. Qed.

Lemma substring_past_field (width v n m k : nat) (rest : string) :
  n = width + k ->
  substring n m (fix_digits width v ++ rest)%string = substring k m rest.
Proof. intros ->. apply substring_app_skip, fix_digits_length. Qed.

Lemma substring_last_field (width v : nat) :
  substring 0 width (fix_digits width v) = fix_digits width v.
Proof.
  rewrite <- (substring_field width v EmptyString) at 2.
  f_equal. clear. induction (fix_digits width v) as [|x a IH]; simpl; congruence.
Qed.

Ltac field_step :=
  match goal with
  | |- context [substring 0 ?w (fix_digits ?w ?v ++ ?b)%string] =>
      rewrite (substring_field w v b)
  | |- context [substring 0 ?w (fix_digits ?w ?v)] =>
      rewrite (substring_last_field w v)
  | |- context [substring ?n ?m (fix_digits ?w ?v ++ ?b)%string] =>
      let k := eval compute in (n - w) in
      rewrite (substring_past_field w v n m k b) by reflexivity
  | |- context [substring (S ?n) ?m (String ?c ?r)] =>
      change (substring (S n) m (String c r)) with (substring n m r)
  end.

(** The folder name shows the time it was made from. *)
Lemma stamp_of_name_compact (d : datetime) :
  datetime_ok d -> same_second (stamp_of_name (strftime_compact d)) d.
Proof.
  intros (A1 & A2 & A3 & A4 & A5 & A6).
  change 100 with (10 ^ 2) in *.
  unfold stamp_of_name, strftime_compact, same_second.
  cbn [year month day hour minute second].
  cbn [append]. repeat field_step.
  rewrite !number_fix_digits by assumption.
  repeat split; reflexivity.
Qed.

Lemma strftime_compact_length (d : datetime) :
  String.length (strftime_compact d) = 15.
Proof.
  unfold strftime_compact.
  repeat rewrite ?length_append, ?fix_digits_length. reflexivity.
Qed.

(** The changelog header shows the time it was made from. *)
Lemma stamp_of_header_header (d : datetime) :
  datetime_ok d -> same_second (stamp_of_header (strftime_header d)) d.
Proof.
  intros (A1 & A2 & A3 & A4 & A5 & A6).
  change 100 with (10 ^ 2) in *.
  unfold stamp_of_header, strftime_header, same_second.
  cbn [year month day hour minute second].
  cbn [append]. repeat field_step.
  rewrite !number_fix_digits by assumption.
  repeat split; reflexivity.
Qed.

(* ================================================================== *)
(** * The change-audit pipeline: [create_backup_with_changelog] *)
(* ================================================================== *)

Lemma truthy_nonempty (d : string) : d <> EmptyString -> truthy (PStr d) = true.
Proof.
  intros N. simpl. destruct (String.eqb_spec d EmptyString); [contradiction|reflexivity].
Qed.

Lemma analyze_tmdl_changes_eq (d : string) (w : World) :
  analyze_tmdl_changes d w
  = (parse_reply (w_ai w (w_ai_calls w)),
     log (EvMessagesCreate ai_model 2048 (ChangesPrompt d)) (tick_ai w)).
Proof.
  unfold analyze_tmdl_changes, bind, messages_create, lift, parse_reply.
  destruct (w_ai w (w_ai_calls w)) as [e|content]; [reflexivity|].
  destruct (content0_text content) as [e|t]; reflexivity.
Qed.

Lemma analyze_measure_with_ai_eq (name dax : pyval) (w : World) :
  analyze_measure_with_ai name dax w
  = (parse_reply (w_ai w (w_ai_calls w)),
     log (EvMessagesCreate ai_model 1024 (MeasurePrompt name dax)) (tick_ai w)).
Proof.
  unfold analyze_measure_with_ai, bind, messages_create, lift, parse_reply.
  destruct (w_ai w (w_ai_calls w)) as [e|content]; [reflexivity|].
  destruct (content0_text content) as [e|t]; reflexivity.
Qed.

Lemma parse_reply_inr (r : result (list block)) (v : pyval) :
  parse_reply r = inr v <-> exists rest, r = inr (TextBlock (Encodes v) :: rest).
Proof.
  unfold parse_reply. split.
  - destruct r as [e|[|[t|] rest]]; simpl; try discriminate.
    destruct t as [raw|v']; simpl; [discriminate|].
    intros H. injection H as ->. now exists rest.
  - intros [rest ->]. reflexivity.
Qed.

Lemma create_backup_empty (w : World) :
  head_diff (w_git w) = inr EmptyString ->
  create_backup_with_changelog w
  = (inr PNone, log (EvPrint MsgNoChanges) (log (EvGitDiff "HEAD~1" "HEAD") w)).
Proof.
  intros H. unfold create_backup_with_changelog, bind, git_diff.
  rewrite H. reflexivity.
Qed.

Lemma create_backup_ok (w : World) (d : string) (msg : pyval) (w' : World) :
  head_diff (w_git w) = inr d -> d <> EmptyString ->
  create_backup_with_changelog w = (inr msg, w') ->
  exists analysis,
    parse_reply (w_ai w (w_ai_calls w)) = inr analysis /\
    materialize_backup analysis d
      (log (EvMessagesCreate ai_model 2048 (ChangesPrompt d))
           (tick_ai (log (EvGitDiff "HEAD~1" "HEAD") w)))
    = (inr msg, w').
Proof.
  intros Hd Hne H. unfold create_backup_with_changelog in H.
  unfold bind at 1 in H. unfold git_diff in H. rewrite Hd in H.
  rewrite (truthy_nonempty d Hne) in H. cbn [negb] in H.
  unfold bind at 1 in H. rewrite analyze_tmdl_changes_eq in H. wsimpl_in H.
  destruct (parse_reply (w_ai w (w_ai_calls w))) as [e|analysis]; [discriminate|].
  now exists analysis.
Qed.

Ltac changesets_done :=
  unfold changesets_of; wsimpl; rewrite ?changesets_app;
  cbn [changesets_analysed]; rewrite <- ?app_assoc; cbn [app];
  rewrite ?app_nil_r; reflexivity.

Lemma create_backup_changesets (w : World) :
  changesets_of (snd (create_backup_with_changelog w))
  = changesets_of w
    ++ match head_diff (w_git w) with
       | inr d => if truthy (PStr d) then [d] else []
       | inl _ => []
       end.
Proof.
  unfold create_backup_with_changelog. unfold bind at 1. unfold git_diff.
  destruct (head_diff (w_git w)) as [e|d].
  - cbn [snd]. changesets_done.
  - destruct (truthy (PStr d)); cbn [negb].
    + unfold bind at 1. rewrite analyze_tmdl_changes_eq.
      destruct (parse_reply _) as [e|analysis].
      * cbn [snd]. changesets_done.
      * rewrite materialize_changesets. changesets_done.
    + unfold bind, print, emit, ret. cbn [plain orb snd]. changesets_done.
Qed.

(** Any path the backup leaves alone, however it ends. *)
Lemma create_backup_frame (w : World) (q : path) :
  let dir := backup_dir_at (w_clock w (w_clock_reads w)) in
  q <> ["backups"] -> q <> dir -> strip_prefix dir q = None ->
  fs_lookup (w_fs (snd (create_backup_with_changelog w))) q = fs_lookup (w_fs w) q.
Proof.
  intros dir N1 N2 N3.
  unfold create_backup_with_changelog. unfold bind at 1. unfold git_diff.
  destruct (head_diff (w_git w)) as [e|d]; [reflexivity|].
  destruct (truthy (PStr d)); cbn [negb]; [|reflexivity].
  unfold bind at 1. rewrite analyze_tmdl_changes_eq.
  destruct (parse_reply _) as [e|analysis]; [reflexivity|].
  now rewrite materialize_frame.
Qed.

(** C6 (empty-diff short-circuit).  When [git diff HEAD~1 HEAD] prints
    nothing, [create_backup_with_changelog] returns [None] and has done
    two things only: asked git for the diff and printed a line.  The file
    system is as it was (no backup folder, no changelog), the reasoning
    service was not called and the clock was not read. *)
Theorem empty_diff_returns_nothing_writes_nothing (w : World) :
  head_diff (w_git w) = inr EmptyString ->
  exists w',
    create_backup_with_changelog w = (inr PNone, w') /\
    w_fs w' = w_fs w /\
    w_trace w' = w_trace w ++ [EvGitDiff "HEAD~1" "HEAD"; EvPrint MsgNoChanges] /\
    w_ai_calls w' = w_ai_calls w /\
    w_clock_reads w' = w_clock_reads w /\
    w_git w' = w_git w.
Proof.
  intros H. eexists. split; [apply (create_backup_empty w H)|].
  wsimpl. rewrite <- app_assoc. repeat split; reflexivity.
Qed.

Lemma empty_diff_witness :
  head_diff (w_git Sample.quiet_world) = inr EmptyString /\
  exists w',
    create_backup_with_changelog Sample.quiet_world = (inr PNone, w') /\
    w_fs w' = Sample.tree /\
    w_trace w' = [EvGitDiff "HEAD~1" "HEAD"; EvPrint MsgNoChanges] /\
    w_ai_calls w' = 0 /\ w_clock_reads w' = 0 /\ w_git w' = Sample.git_quiet.
Proof.
  split; [vm_compute; reflexivity|].
  apply (empty_diff_returns_nothing_writes_nothing Sample.quiet_world).
  vm_compute; reflexivity.
Defined.

(** C2 (commit gating), evaluated where it fails.  With an empty diff
    [create_backup_with_changelog] returns [None], and the rest of [main]
    still stages the working tree and calls [commit('-m', None)]. *)
Theorem empty_diff_still_stages_and_commits (w : World) :
  head_diff (w_git w) = inr EmptyString ->
  exists w',
    backup_and_commit w = (inl GitCommandError, w') /\
    w_trace w' = w_trace w ++ [EvGitDiff "HEAD~1" "HEAD"; EvPrint MsgNoChanges;
                               EvGitAdd "."; EvGitCommit "-m" PNone] /\
    g_index (w_git w') = w_fs w.
Proof.
  intros H. unfold backup_and_commit. unfold bind at 1.
  rewrite (create_backup_empty w H).
  eexists. split; [reflexivity|]. wsimpl.
  rewrite <- !app_assoc. split; reflexivity.
Qed.

Lemma empty_diff_commit_witness :
  head_diff (w_git Sample.quiet_world) = inr EmptyString /\
  exists w',
    backup_and_commit Sample.quiet_world = (inl GitCommandError, w') /\
    w_trace w' = [EvGitDiff "HEAD~1" "HEAD"; EvPrint MsgNoChanges;
                  EvGitAdd "."; EvGitCommit "-m" PNone] /\
    g_index (w_git w') = Sample.tree.
Proof.
  split; [vm_compute; reflexivity|].
  apply (empty_diff_still_stages_and_commits Sample.quiet_world).
  vm_compute; reflexivity.
Defined.

Lemma git_commit_trace (flag : string) (msg : pyval) (w : World) :
  w_trace (snd (git_commit flag msg w)) = w_trace w ++ [EvGitCommit flag msg].
Proof.
  unfold git_commit. cbv zeta.
  destruct (commit_args msg) as [|m rest]; [reflexivity|].
  destruct (g_refuse (w_git w)); [reflexivity|].
  destruct rest.
  - destruct (same_files _ _ || empty_message m); reflexivity.
  - destruct (g_extra _ _ _ _ _) as [e|[commits index]]; reflexivity.
Qed.

(** Whatever [create_backup_with_changelog] returns, [main] goes on to
    stage and to commit with it. *)
Lemma commit_follows_every_return (w : World) (m : pyval) (w1 : World) :
  create_backup_with_changelog w = (inr m, w1) ->
  exists r w2 tail,
    backup_and_commit w = (r, w2) /\
    w_trace w2 = w_trace w1 ++ EvGitAdd "." :: EvGitCommit "-m" m :: tail.
Proof.
  intros H. unfold backup_and_commit. unfold bind at 1. rewrite H.
  unfold bind at 1. unfold git_add. cbv zeta.
  set (w2 := log (EvGitAdd ".") _).
  assert (T2 : w_trace w2 = w_trace w1 ++ [EvGitAdd "."]) by reflexivity.
  clearbody w2.
  pose proof (git_commit_trace "-m" m w2) as T3.
  unfold bind. destruct (git_commit "-m" m w2) as [[e|[]] w3]; cbn [snd] in T3.
  - exists (inl e), w3, []. split; [reflexivity|].
    now rewrite T3, T2, <- app_assoc.
  - destruct (print MsgComplete w3) as [r w4] eqn:P.
    exists r, w4.
    destruct r as [e|u].
    + apply print_inl in P. destruct P as (_ & -> & _). exists [].
      split; [reflexivity|]. now rewrite T3, T2, <- app_assoc.
    + apply print_inr in P. destruct P as [-> _]. exists [EvPrint MsgComplete].
      split; [reflexivity|]. wsimpl. now rewrite T3, T2, <- !app_assoc.
Qed.

(** C4 (which change set is analysed).  The documentation phase and the
    export leave the repository as it was, and the one change set
    [create_backup_with_changelog] then hands to the reasoning service
    is what [git diff HEAD~1 HEAD] printed: the difference between the
    two commits that were there before the run began.  What the run did
    to the model and to the exported tree has no part in it. *)
Theorem analysed_changeset_is_last_commit_diff (w : World) :
  let w1 := snd (document_and_export w) in
  let w2 := snd (create_backup_with_changelog w1) in
  w_git w1 = w_git w /\
  changesets_of w2
  = changesets_of w1
    ++ match head_diff (w_git w) with
       | inr d => if truthy (PStr d) then [d] else []
       | inl _ => []
       end.
Proof.
  intros w1 w2.
  assert (G : w_git w1 = w_git w) by apply document_and_export_git.
  split; [exact G|]. subst w2. rewrite <- G. apply create_backup_changesets.
Qed.

(* ================================================================== *)
(** * The snapshot a backup produces *)
(* ================================================================== *)

(** What a backup that returns has done, step by step. *)
Lemma create_backup_done (w : World) (d : string) (msg : pyval) (w' : World) :
  head_diff (w_git w) = inr d -> d <> EmptyString ->
  create_backup_with_changelog w = (inr msg, w') ->
  let stamp := w_clock w (w_clock_reads w) in
  let stamp' := w_clock w (S (w_clock_reads w)) in
  let dir := backup_dir_at stamp in
  exists analysis changelog impact fs1 fs2,
    parse_reply (w_ai w (w_ai_calls w)) = inr analysis /\
    subscript analysis "changelog" = inr (PStr changelog) /\
    subscript analysis "impact" = inr (PStr impact) /\
    subscript analysis "commit_message" = inr msg /\
    makedirs dir (w_fs w) = inr fs1 /\
    copytree_fs definition_dir (dir ++ ["definition"]) fs1 = (inr tt, fs2) /\
    fs_lookup (w_fs w') (dir ++ ["CHANGELOG.md"])
    = Some (File (changelog_text stamp' changelog impact d)) /\
    (forall q, q <> dir ++ ["CHANGELOG.md"] ->
               fs_lookup (w_fs w') q = fs_lookup fs2 q) /\
    w_trace w'
    = w_trace w
      ++ EvGitDiff "HEAD~1" "HEAD"
      :: EvMessagesCreate ai_model 2048 (ChangesPrompt d)
      :: backup_events stamp stamp' changelog impact d /\
    w_clock_reads w' = S (S (w_clock_reads w)).
Proof.
  intros Hd Hne H stamp stamp' dir.
  destruct (create_backup_ok w d msg w' Hd Hne H) as (analysis & Ha & Hm).
  apply materialize_ok in Hm. wsimpl_in Hm.
  destruct Hm as (changelog & impact & fs1 & fs2 & Ec & Ei & Em & H1 & H2
                  & Hf & Ho & Ht & Hr & _).
  exists analysis, changelog, impact, fs1, fs2.
  repeat split; try assumption.
  rewrite Ht. rewrite <- !app_assoc. reflexivity.
Qed.

Lemma backup_dir_not_changelog (dir : path) (r : path) :
  dir ++ "definition" :: r <> dir ++ ["CHANGELOG.md"].
Proof. intros E. apply app_inv_head in E. discriminate. Qed.

Lemma landing_not_changelog (fs : FS) (dir r : path) :
  landing fs (dir ++ ["definition"]) r <> dir ++ ["CHANGELOG.md"].
Proof.
  unfold landing.
  destruct (fs_lookup fs ((dir ++ ["definition"]) ++ r)) as [[x|]|];
    rewrite <- !app_assoc; apply backup_dir_not_changelog.
Qed.

(** C9, as amended (snapshot completeness).  Take a run whose diff [d]
    is not empty and in which [create_backup_with_changelog] returns.
    The folder is [backups/<name>], where [name] is the first clock read
    printed as [YYYYMMDD_HHMMSS]: fifteen characters which, read back,
    give the year, month, day, hour, minute and second of that read.
    The folder is a directory.  Every file of
    [Dataset.SemanticModel/definition], as it stood when the backup
    began, is found below [<folder>/definition] with the same content,
    at the same relative path, or inside the directory that had its name
    when the folder was there already.  [<folder>/CHANGELOG.md] holds the
    header, the changelog summary, the impact assessment and the fenced
    diff, in that order, the two texts being those of the reasoning
    service's answer, and it is the one file the run opened.  Nothing else
    on the file system has changed, except that [backups] may have been
    created. *)
Theorem backup_holds_tree_and_one_changelog
  (w : World) (d : string) (msg : pyval) (w' : World) :
  head_diff (w_git w) = inr d -> d <> EmptyString ->
  create_backup_with_changelog w = (inr msg, w') ->
  let stamp := w_clock w (w_clock_reads w) in
  let stamp' := w_clock w (S (w_clock_reads w)) in
  let name := strftime_compact stamp in
  let dir := ["backups"; name] in
  String.length name = 15 /\
  (datetime_ok stamp -> same_second (stamp_of_name name) stamp) /\
  fs_lookup (w_fs w') dir = Some Dir /\
  (forall r c, tree_file (w_fs w) definition_dir r c ->
               fs_lookup (w_fs w') (landing (w_fs w) (dir ++ ["definition"]) r)
               = Some (File c)) /\
  (exists analysis changelog impact,
      parse_reply (w_ai w (w_ai_calls w)) = inr analysis /\
      subscript analysis "changelog" = inr (PStr changelog) /\
      subscript analysis "impact" = inr (PStr impact) /\
      fs_lookup (w_fs w') (dir ++ ["CHANGELOG.md"])
      = Some (File (changelog_text stamp' changelog impact d)) /\
      w_trace w'
      = w_trace w
        ++ EvGitDiff "HEAD~1" "HEAD"
        :: EvMessagesCreate ai_model 2048 (ChangesPrompt d)
        :: backup_events stamp stamp' changelog impact d) /\
  (forall q, q <> ["backups"] -> q <> dir -> q <> dir ++ ["CHANGELOG.md"] ->
             strip_prefix (dir ++ ["definition"]) q = None ->
             fs_lookup (w_fs w') q = fs_lookup (w_fs w) q).
Proof.
  intros Hd Hne H stamp stamp' name dir.
  destruct (create_backup_done w d msg w' Hd Hne H)
    as (analysis & changelog & impact & fs1 & fs2 & Ha & Ec & Ei & _ & H1 & H2
        & Hf & Ho & Ht & _).
  fold stamp in H1, H2, Hf, Ho, Ht. fold stamp' in Hf, Ht.
  change (backup_dir_at stamp) with dir in H1, H2, Hf, Ho.
  assert (Nlog : dir <> dir ++ ["CHANGELOG.md"]).
  { intros E. apply (f_equal (@length string)) in E.
    rewrite length_app in E. simpl in E. lia. }
  split; [apply strftime_compact_length|].
  split; [apply stamp_of_name_compact|].
  split; [|split; [|split]].
  - rewrite Ho by exact Nlog.
    destruct (copytree_fs_keeps _ _ _ _ dir H2) as (fs1' & H3 & ->).
    + intros x Nx E. apply (f_equal (@length string)) in E.
      rewrite !length_app in E. simpl in E. lia.
    + apply (makedirs_keeps _ _ _ _ _ H3).
      apply (makedirs_made _ _ _ H1). discriminate.
  - intros r c T.
    assert (Nr : r <> []).
    { intros ->. destruct T as [T _]. rewrite app_nil_r in T.
      apply copytree_fs_source in H2.
      change (fs_lookup fs1 definition_dir = Some Dir) in H2.
      apply (makedirs_keeps _ _ _ _ _ H1) in T. congruence. }
    rewrite Ho by apply landing_not_changelog.
    assert (T1 : tree_file fs1 definition_dir r c).
    { destruct T as [Tf Td]. split; [exact (makedirs_keeps _ _ _ _ _ H1 Tf)|].
      intros a b E Na Nb. exact (makedirs_keeps _ _ _ _ _ H1 (Td a b E Na Nb)). }
    assert (L : landing (w_fs w) (dir ++ ["definition"]) r
                = landing fs1 (dir ++ ["definition"]) r).
    { unfold landing.
      rewrite (makedirs_frame2 _ _ _ _ ((dir ++ ["definition"]) ++ r) H1);
        [reflexivity|discriminate|discriminate]. }
    rewrite L. now apply (copytree_fs_copies _ _ _ _ _ _ H2).
  - exists analysis, changelog, impact. repeat split; assumption.
  - intros q N1 N2 N3 N4.
    rewrite (Ho q N3).
    destruct (copytree_fs_keeps _ _ _ _ q H2) as (fs1' & H3 & ->).
    + intros x _ ->. rewrite strip_prefix_app in N4. discriminate.
    + assert (N5 : q <> dir ++ ["definition"]).
      { intros ->.
        change (dir ++ ["definition"]) with ((dir ++ ["definition"]) ++ []) in N4 at 2.
        rewrite strip_prefix_app in N4. discriminate. }
      rewrite (makedirs_frame3 _ _ _ _ _ _ H3 N1 N2 N5).
      apply (makedirs_frame2 _ _ _ _ _ H1 N1 N2).
Qed.

Lemma backup_holds_tree_witness :
  head_diff (w_git Sample.audit_world) = inr Sample.diff_text /\
  create_backup_with_changelog Sample.audit_world
  = (inr (PStr "Document measures"),
     snd (create_backup_with_changelog Sample.audit_world)) /\
  tree_file Sample.tree definition_dir ["tables"; "Sales.tmdl"] "table Sales" /\
  let fs' := w_fs (snd (create_backup_with_changelog Sample.audit_world)) in
  same_second (stamp_of_name "20260102_120000") Sample.noon /\
  fs_lookup fs' ["backups"; "20260102_120000"] = Some Dir /\
  fs_lookup fs' ["backups"; "20260102_120000"; "definition"; "tables"; "Sales.tmdl"]
  = Some (File "table Sales").
Proof.
  assert (H1 : head_diff (w_git Sample.audit_world) = inr Sample.diff_text)
    by (vm_compute; reflexivity).
  assert (H2 : Sample.diff_text <> EmptyString) by discriminate.
  assert (H3 : create_backup_with_changelog Sample.audit_world
               = (inr (PStr "Document measures"),
                  snd (create_backup_with_changelog Sample.audit_world)))
    by (vm_compute; reflexivity).
  assert (T : tree_file Sample.tree definition_dir ["tables"; "Sales.tmdl"]
                        "table Sales").
  { split; [reflexivity|]. intros a b E Na Nb.
    destruct a as [|x [|y a]]; [contradiction| |].
    - injection E as <- _. reflexivity.
    - exfalso. injection E as _ _ E. destruct a; [now destruct b|discriminate]. }
  assert (O : datetime_ok Sample.noon) by (vm_compute; lia).
  split; [exact H1|]. split; [exact H3|]. split; [exact T|].
  destruct (backup_holds_tree_and_one_changelog Sample.audit_world
              Sample.diff_text _ _ H1 H2 H3) as (_ & S & A & B & _).
  split; [exact (S O)|]. split; [exact A|].
  exact (B ["tables"; "Sales.tmdl"] "table Sales" T).
Defined.

(** C9 as stated fails: a run with a diff that is not empty need not
    get to the end.  Here the analysis has no [impact]: the call raises
    [KeyError], and it leaves the folder, the copy of the tree and a
    changelog that stops at the impact heading. *)
Lemma backup_stops_half_way :
  let w := Sample.half_world in
  let r := create_backup_with_changelog w in
  head_diff (w_git w) = inr Sample.diff_text /\
  truthy (PStr Sample.diff_text) = true /\
  fst r = inl (KeyError "impact") /\
  fs_lookup (w_fs (snd r)) ["backups"; "20260102_120000"] = Some Dir /\
  fs_lookup (w_fs (snd r))
            ["backups"; "20260102_120000"; "definition"; "tables"; "Sales.tmdl"]
  = Some (File "table Sales") /\
  fs_lookup (w_fs (snd r)) ["backups"; "20260102_120000"; "CHANGELOG.md"]
  = Some (File (changelog_until_impact Sample.noon_and_a_second
                                       "Documented two measures.")).
Proof. vm_compute. repeat split; reflexivity. Qed.

(** ** When a backup does return *)

Lemma makedirs_from_succeeds (todo done : path) (fs : FS) :
  (forall a b c, todo = a ++ b -> a <> [] ->
                 fs_lookup fs (done ++ a) <> Some (File c)) ->
  exists fs', makedirs_from done todo fs = inr fs'.
Proof.
  revert done fs. induction todo as [|c0 rest IH]; intros done fs H; simpl.
  - now exists fs.
  - assert (Hrest : forall fs0,
               (forall q, q <> done ++ [c0] -> fs_lookup fs0 q = fs_lookup fs q) ->
               forall a b c, rest = a ++ b -> a <> [] ->
                             fs_lookup fs0 ((done ++ [c0]) ++ a) <> Some (File c)).
    { intros fs0 Hfs0 a b c E Na. rewrite Hfs0.
      - rewrite <- app_assoc. apply (H (c0 :: a) b c); [simpl; now rewrite E|discriminate].
      - intros X. rewrite <- (app_nil_r (done ++ [c0])) in X at 2.
        apply app_inv_head in X. contradiction. }
    destruct (fs_lookup fs (done ++ [c0])) as [[x|]|] eqn:E.
    + exfalso. apply (H [c0] rest x); [reflexivity|discriminate|exact E].
    + apply IH. apply Hrest. reflexivity.
    + apply IH. apply Hrest. intros q Nq. now apply fs_lookup_tail.
Qed.

Lemma makedirs_from_no_new_file (todo done : path) (fs fs' : FS) (q : path) (c : string) :
  makedirs_from done todo fs = inr fs' ->
  fs_lookup fs' q = Some (File c) -> fs_lookup fs q = Some (File c).
Proof.
  revert done fs. induction todo as [|c0 rest IH]; intros done fs H L; simpl in H.
  - congruence.
  - destruct (fs_lookup fs (done ++ [c0])) as [[x|]|] eqn:E; try discriminate.
    + eapply IH; eauto.
    + specialize (IH _ _ H L). simpl in IH.
      destruct (path_eqb q (done ++ [c0])); [discriminate|exact IH].
Qed.

Lemma makedirs2_succeeds (a b : string) (fs : FS) :
  (forall c, fs_lookup fs [a] <> Some (File c)) ->
  (forall c, fs_lookup fs [a; b] <> Some (File c)) ->
  exists fs', makedirs [a; b] fs = inr fs'.
Proof.
  intros Ha Hb. apply makedirs_from_succeeds. intros x y c E Nx. cbn [app].
  destruct x as [|x1 [|x2 [|x3 x]]]; try congruence; inversion E; subst; auto.
  all: try (destruct x; discriminate).
Qed.

Lemma makedirs3_succeeds (a b c : string) (fs : FS) :
  (forall x, fs_lookup fs [a] <> Some (File x)) ->
  (forall x, fs_lookup fs [a; b] <> Some (File x)) ->
  (forall x, fs_lookup fs [a; b; c] <> Some (File x)) ->
  exists fs', makedirs [a; b; c] fs = inr fs'.
Proof.
  intros Ha Hb Hc. apply makedirs_from_succeeds. intros x y z E Nx. cbn [app].
  destruct x as [|x1 [|x2 [|x3 [|x4 x]]]]; try congruence; inversion E; subst; auto.
  all: try (destruct x; discriminate).
Qed.

(** Below a destination that holds nothing yet, a copy meets no
    error. *)
Lemma copy_node_fresh (src dst : path) (fs : FS) (r : path) :
  fs_lookup fs (dst ++ r) = None -> snd (copy_node src dst fs r) = false.
Proof.
  intros H. unfold copy_node. rewrite H.
  destruct (walkable src dst r fs); [|reflexivity].
  now destruct (fs_lookup fs (src ++ r)) as [[c|]|].
Qed.

Lemma copytree_fs_fresh (src dst : path) (fs fs1 : FS) :
  node_at fs src = Some Dir ->
  makedirs dst fs = inr fs1 ->
  (forall r, r <> [] -> fs_lookup fs1 (dst ++ r) = None) ->
  copytree_fs src dst fs
  = (inr tt, flat_map fst (map (copy_node src dst fs1) (below src fs1)) ++ fs1).
Proof.
  intros Hs Hm Hf. unfold copytree_fs. rewrite Hs, Hm. cbv zeta.
  destruct (existsb snd _) eqn:E; [|reflexivity].
  apply existsb_exists in E. destruct E as (step & Hin & E).
  apply in_map_iff in Hin. destruct Hin as (r & <- & Hr).
  rewrite copy_node_fresh in E; [discriminate|].
  apply Hf. now apply below_nonempty in Hr.
Qed.

Lemma write_changelog_stdout (p : path) (analysis : pyval) (diff : string) :
  keeps w_stdout (write_changelog p analysis diff).
Proof.
  unfold write_changelog, close.
  repeat first [ (intros w; reflexivity)
               | (intros w; unfold open_w; now destruct (open_w_fs p (w_fs w)))
               | keeps_step ].
Qed.

Lemma write_changelog_runs (p : path) (analysis : pyval) (diff : string)
  (w : World) (fs0 : FS) (changelog impact : string) :
  open_w_fs p (w_fs w) = inr fs0 ->
  subscript analysis "changelog" = inr (PStr changelog) ->
  subscript analysis "impact" = inr (PStr impact) ->
  exists w', write_changelog p analysis diff w = (inr tt, w').
Proof.
  intros Ho Ec Ei. unfold write_changelog, with_ctx, open_w. rewrite Ho.
  unfold bind, now, write, lift, close, emit. rewrite Ec, Ei.
  cbn [str_add]. eexists. reflexivity.
Qed.

(** A backup returns when there is a diff, the reasoning service answers
    with the three texts, the definition tree is there, the folder of
    this second does not exist yet, and stdout can print the two lines
    that report it. *)
Lemma backup_returns_on_a_fresh_folder
  (w : World) (d : string) (analysis : pyval) (changelog impact : string)
  (msg : pyval) :
  let dir := backup_dir_at (w_clock w (w_clock_reads w)) in
  head_diff (w_git w) = inr d -> d <> EmptyString ->
  parse_reply (w_ai w (w_ai_calls w)) = inr analysis ->
  subscript analysis "changelog" = inr (PStr changelog) ->
  subscript analysis "impact" = inr (PStr impact) ->
  subscript analysis "commit_message" = inr msg ->
  fs_lookup (w_fs w) definition_dir = Some Dir ->
  (forall c, fs_lookup (w_fs w) ["backups"] <> Some (File c)) ->
  (forall r, fs_lookup (w_fs w) (dir ++ r) = None) ->
  w_stdout w (MsgBackupCreated dir) = true ->
  w_stdout w (MsgChangelog (dir ++ ["CHANGELOG.md"])) = true ->
  exists w', create_backup_with_changelog w = (inr msg, w').
Proof.
  intros dir Hd Hne Ha Ec Ei Em Hsrc Hb Hfresh Hp1 Hp2.
  set (stamp := strftime_compact (w_clock w (w_clock_reads w))).
  assert (Edir : dir = ["backups"; stamp]) by reflexivity.
  set (fs := w_fs w) in *.
  set (dst := ["backups"; stamp; "definition"]).
  set (log_path := ["backups"; stamp; "CHANGELOG.md"]).
  assert (Edst : dir ++ ["definition"] = dst) by reflexivity.
  assert (Elog : dir ++ ["CHANGELOG.md"] = log_path) by reflexivity.
  assert (Hdir : fs_lookup fs dir = None)
    by (rewrite <- (app_nil_r dir); apply Hfresh).
  (* the two folders can be made *)
  destruct (makedirs2_succeeds "backups" stamp fs) as [fs1 H1].
  { exact Hb. }
  { intros c. rewrite <- Edir, Hdir. discriminate. }
  assert (F1 : forall q, q <> ["backups"] -> q <> dir ->
                         fs_lookup fs1 q = fs_lookup fs q)
    by (intros q N1 N2; exact (makedirs_frame2 _ _ _ _ _ H1 N1 N2)).
  assert (D1 : fs_lookup fs1 dir = Some Dir)
    by (apply (makedirs_made _ _ _ H1); discriminate).
  destruct (makedirs3_succeeds "backups" stamp "definition" fs1) as [fs1' H2].
  { intros c X. apply (makedirs_from_no_new_file _ _ _ _ _ _ H1) in X.
    now apply (Hb c). }
  { intros c. rewrite <- Edir, D1. discriminate. }
  { intros c. fold dst. rewrite F1 by discriminate.
    rewrite <- Edst, Hfresh. discriminate. }
  fold dst in H2.
  assert (F2 : forall q, q <> ["backups"] -> q <> dir -> q <> dst ->
                         fs_lookup fs1' q = fs_lookup fs q).
  { intros q N1 N2 N3.
    rewrite (makedirs_frame3 _ _ _ _ _ _ H2 N1 N2 N3). now apply F1. }
  assert (D1' : fs_lookup fs1' dir = Some Dir)
    by exact (makedirs_keeps _ _ _ _ _ H2 D1).
  (* the copy meets nothing below the new folder *)
  assert (Hc : copytree_fs definition_dir dst fs1
               = (inr tt,
                  flat_map fst (map (copy_node definition_dir dst fs1')
                                    (below definition_dir fs1')) ++ fs1')).
  { apply copytree_fs_fresh.
    - exact (makedirs_keeps _ _ _ _ _ H1 Hsrc).
    - exact H2.
    - intros r Nr. destruct r as [|c r]; [contradiction|].
      rewrite F2 by discriminate.
      change (dst ++ c :: r) with (dir ++ "definition" :: c :: r).
      apply Hfresh. }
  set (fs2 := flat_map fst _ ++ fs1') in Hc.
  assert (O2 : forall q, (forall x, x <> [] -> q <> dst ++ x) ->
                         fs_lookup fs2 q = fs_lookup fs1' q).
  { intros q Nq. unfold fs2. now rewrite fs_lookup_app, copied_outside. }
  (* the changelog can be opened *)
  assert (Ho : open_w_fs log_path fs2 = inr ((log_path, File EmptyString) :: fs2)).
  { unfold open_w_fs, log_path. cbn [parent removelast node_at].
    fold log_path. rewrite <- Edir.
    rewrite (O2 dir) by (intros x _; unfold dst; rewrite Edir; discriminate).
    rewrite (O2 log_path) by (intros x _; unfold dst, log_path; discriminate).
    rewrite D1', F2; try discriminate.
    now rewrite <- Elog, Hfresh. }
  (* run the program *)
  unfold create_backup_with_changelog. unfold bind at 1. unfold git_diff.
  rewrite Hd, (truthy_nonempty d Hne). cbn [negb].
  unfold bind at 1. rewrite analyze_tmdl_changes_eq. wsimpl. rewrite Ha.
  unfold materialize_backup. unfold bind at 1. unfold now. wsimpl.
  fold stamp. cbn [app]. fold dst. fold log_path.
  unfold bind at 1. unfold mkdir. wsimpl. fold fs. rewrite H1.
  unfold bind at 1. unfold copytree. wsimpl. rewrite Hc.
  unfold bind at 1.
  match goal with
  | |- context [write_changelog log_path analysis d ?w0] =>
      destruct (write_changelog_runs log_path analysis d w0 _ changelog impact
                  Ho Ec Ei) as [w3 H3];
      assert (S3 : w_stdout w3 = w_stdout w)
        by (pose proof (write_changelog_stdout log_path analysis d w0) as K;
            rewrite H3 in K; exact K)
  end.
  rewrite H3. unfold bind, print, emit, lift. wsimpl.
  rewrite S3. change ["backups"; stamp] with dir.
  rewrite Hp1. cbn [orb plain]. wsimpl. rewrite S3.
  change log_path with (dir ++ ["CHANGELOG.md"]). rewrite Hp2.
  cbn [orb plain]. rewrite Em.
  eexists. reflexivity.
Qed.

Lemma string_app_assoc (a b c : string) :
  ((a ++ b) ++ c)%string = (a ++ (b ++ c))%string.
Proof. induction a as [|x a IH]; simpl; [reflexivity|now rewrite IH]. Qed.

Lemma changelog_text_header (stamp' : datetime) (changelog impact d : string) :
  exists rest,
    changelog_text stamp' changelog impact d
    = ("# Model Backup - " ++ strftime_header stamp' ++ rest)%string.
Proof.
  unfold changelog_text. cbn [append].
  eexists. repeat rewrite string_app_assoc. reflexivity.
Qed.

Lemma same_second_sym (a b : datetime) : same_second a b -> same_second b a.
Proof. unfold same_second. intuition congruence. Qed.

Lemma same_second_trans (a b c : datetime) :
  same_second a b -> same_second b c -> same_second a c.
Proof. unfold same_second. intuition congruence. Qed.



Lemma backup_dir_at_inj (a b : datetime) :
  datetime_ok a -> datetime_ok b ->
  backup_dir_at a = backup_dir_at b -> same_second a b.
Proof.
  intros Oa Ob E. unfold backup_dir_at in E.
  apply (f_equal (fun l => nth 1 l EmptyString)) in E. cbn [nth] in E.
  now apply strftime_compact_inj.
Qed.

(** C8, as amended (snapshot identity).  A snapshot is identified by its
    capture time to the second.  A backup captured in another second
    than an existing snapshot has another folder, and however it ends it
    leaves every node of the existing snapshot's folder as it was. *)
Theorem snapshots_of_other_seconds_are_left_alone
  (w : World) (old : datetime) (r : path) :
  let stamp := w_clock w (w_clock_reads w) in
  datetime_ok old -> datetime_ok stamp -> ~ same_second old stamp ->
  backup_dir_at old <> backup_dir_at stamp /\
  fs_lookup (w_fs (snd (create_backup_with_changelog w))) (backup_dir_at old ++ r)
  = fs_lookup (w_fs w) (backup_dir_at old ++ r).
Proof.
  intros stamp Oo Os N.
  assert (D : backup_dir_at old <> backup_dir_at stamp).
  { intros E. apply N. now apply backup_dir_at_inj. }
  split; [exact D|].
  apply create_backup_frame; fold stamp.
  - discriminate.
  - intros E. destruct r as [|c r].
    + rewrite app_nil_r in E. contradiction.
    + discriminate.
  - unfold backup_dir_at in *. cbn [strip_prefix app].
    destruct (String.eqb_spec (strftime_compact stamp) (strftime_compact old))
      as [E|_]; [|reflexivity].
    exfalso. apply D. now rewrite E.
Qed.

Lemma snapshots_left_alone_witness :
  datetime_ok Sample.eleven /\ datetime_ok Sample.noon /\
  ~ same_second Sample.eleven Sample.noon /\
  backup_dir_at Sample.eleven <> backup_dir_at Sample.noon /\
  fs_lookup (w_fs (snd (create_backup_with_changelog Sample.audit_world)))
            (backup_dir_at Sample.eleven ++ ["CHANGELOG.md"])
  = fs_lookup Sample.tree (backup_dir_at Sample.eleven ++ ["CHANGELOG.md"]).
Proof.
  assert (O1 : datetime_ok Sample.eleven) by (vm_compute; lia).
  assert (O2 : datetime_ok Sample.noon) by (vm_compute; lia).
  assert (N : ~ same_second Sample.eleven Sample.noon)
    by (unfold same_second; simpl; lia).
  split; [exact O1|]. split; [exact O2|]. split; [exact N|].
  exact (snapshots_of_other_seconds_are_left_alone
           Sample.audit_world Sample.eleven ["CHANGELOG.md"] O1 O2 N).
Defined.

(** C8 as stated fails: a second backup captured within the same second
    goes into the folder of the first and overwrites what is there. *)
Lemma snapshot_overwritten_within_a_second :
  let w := Sample.rerun_world in
  let w' := snd (create_backup_with_changelog w) in
  let dir := backup_dir_at Sample.noon in
  fs_lookup (w_fs w) (dir ++ ["CHANGELOG.md"]) = Some (File "old changelog") /\
  fs_lookup (w_fs w) (dir ++ ["definition"; "model.tmdl"])
  = Some (File "old model") /\
  fst (create_backup_with_changelog w) = inr (PStr "Document measures") /\
  fs_lookup (w_fs w') (dir ++ ["CHANGELOG.md"])
  = Some (File (changelog_text Sample.noon "Documented two measures."
                               "No report is affected." Sample.diff_text)) /\
  fs_lookup (w_fs w') (dir ++ ["definition"; "model.tmdl"])
  = Some (File "model Model").
Proof. vm_compute. repeat split; reflexivity. Qed.

(* ================================================================== *)
(** * The analysis adapters *)
(* ================================================================== *)

(** C5, as amended.  Each adapter returns a value exactly when the
    first block of the service's answer is a text that is JSON, and it
    returns that value, whatever keys it has or lacks; a first block
    whose text is not JSON raises [JSONDecodeError]. *)
Theorem adapters_return_whatever_json_they_get
  (name dax : pyval) (d : string) (w : World) (v : pyval) :
  (fst (analyze_measure_with_ai name dax w) = inr v <->
   exists rest, w_ai w (w_ai_calls w) = inr (TextBlock (Encodes v) :: rest)) /\
  (fst (analyze_tmdl_changes d w) = inr v <->
   exists rest, w_ai w (w_ai_calls w) = inr (TextBlock (Encodes v) :: rest)) /\
  (forall raw rest,
      w_ai w (w_ai_calls w) = inr (TextBlock (Malformed raw) :: rest) ->
      fst (analyze_measure_with_ai name dax w) = inl JSONDecodeError /\
      fst (analyze_tmdl_changes d w) = inl JSONDecodeError).
Proof.
  rewrite analyze_measure_with_ai_eq, analyze_tmdl_changes_eq. cbn [fst].
  split; [apply parse_reply_inr|]. split; [apply parse_reply_inr|].
  intros raw rest E. rewrite E. split; reflexivity.
Qed.

(** C5 as stated fails: answers that lack expected keys are returned
    without complaint, and the controller goes on with one of them,
    writing the default folder into the model. *)
Lemma answers_without_keys_are_accepted :
  fst (analyze_measure_with_ai (PStr "Margin") (PStr "[Total] - [Cost]")
                               Sample.partial_world)
  = inr Sample.partial_analysis /\
  subscript Sample.partial_analysis "issues" = inl (KeyError "issues") /\
  subscript Sample.partial_analysis "display_folder"
  = inl (KeyError "display_folder") /\
  fst (analyze_tmdl_changes Sample.diff_text Sample.keyless_world)
  = inr (PDict []) /\
  fst (auto_document_measures TheSession connection_name Sample.partial_world)
  = inr [PDict [("measure", PStr "Margin");
                ("description", PStr "Sales less cost.")];
         PDict [("measure", PStr "Orders");
                ("description", PStr "Sales less cost.")]] /\
  map m_display_folder
      (r_store (w_remote (snd (auto_document_measures
                                 TheSession connection_name Sample.partial_world))))
  = [PNone; PStr EmptyString; PStr EmptyString].
Proof. vm_compute. repeat split; reflexivity. Qed.

(* ================================================================== *)
(** * The session *)
(* ================================================================== *)

Lemma appends_ret {A} (a : A) : appends (ret a).
Proof. intros w. exists []. simpl. now rewrite app_nil_r. Qed.

Lemma appends_lift {A} (r : result A) : appends (lift r).
Proof. intros w. exists []. simpl. now rewrite app_nil_r. Qed.

Lemma appends_bind {A B} (c : M A) (k : A -> M B) :
  appends c -> (forall a, appends (k a)) -> appends (bind c k).
Proof.
  intros Hc Hk w. unfold bind. destruct (Hc w) as [tr Ht].
  destruct (c w) as [[e|a] w1]; simpl in *; [now exists tr|].
  destruct (Hk a w1) as [tr' Ht']. exists (tr ++ tr').
  now rewrite Ht', Ht, app_assoc.
Qed.

Lemma appends_if {A} (b : bool) (c1 c2 : M A) :
  appends c1 -> appends c2 -> appends (if b then c1 else c2).
Proof. now destruct b. Qed.

Lemma call_tool_trace s tool args w :
  w_trace (snd (call_tool s tool args w))
  = w_trace w ++ [EvCallTool (session_live w) tool args].
Proof. call_tool_cases w; reflexivity. Qed.

Lemma appends_call_tool s tool args : appends (call_tool s tool args).
Proof.
  intros w. exists [EvCallTool (session_live w) tool args].
  apply call_tool_trace.
Qed.

Lemma appends_initialize s : appends (initialize s).
Proof.
  intros w. exists [EvInitialize (session_live w)].
  initialize_cases w; reflexivity.
Qed.

Lemma appends_print m : appends (print m).
Proof.
  intros w. destruct (print_snd m w) as [-> | ->].
  - exists []. now rewrite app_nil_r.
  - now exists [EvPrint m].
Qed.

Lemma appends_emit e : appends (emit e).
Proof. intros w. now exists [e]. Qed.

Lemma appends_messages_create model n p : appends (messages_create model n p).
Proof. intros w. now exists [EvMessagesCreate model n p]. Qed.

Ltac appends_step :=
  first [ apply appends_ret | apply appends_lift | apply appends_if
        | apply appends_call_tool | apply appends_initialize
        | apply appends_emit | apply appends_print
        | apply appends_messages_create
        | apply appends_bind; [|intros] | progress cbv zeta ].

Lemma appends_document_measure s conn m acc :
  appends (document_measure s conn m acc).
Proof. unfold document_measure. repeat appends_step. Qed.

Lemma appends_for_measures s conn ms :
  forall acc, appends (for_measures s conn ms acc).
Proof.
  induction ms as [|m ms IH]; intros acc; simpl.
  - apply appends_ret.
  - apply appends_bind; [apply appends_document_measure|exact IH].
Qed.

(** The two context managers' flags are changed by entering and leaving
    them only. *)
Lemma call_tool_live s tool args : keeps session_live (call_tool s tool args).
Proof. intros w. call_tool_cases w; first [reflexivity|assumption]. Qed.

Lemma messages_create_live model n p : keeps session_live (messages_create model n p).
Proof. intros w. reflexivity. Qed.

Lemma emit_live e : keeps session_live (emit e).
Proof. intros w. reflexivity. Qed.

Lemma print_live m : keeps session_live (print m).
Proof. intros w. now destruct (print_snd m w) as [-> | ->]. Qed.

Lemma document_measure_live s conn m acc :
  keeps session_live (document_measure s conn m acc).
Proof.
  unfold document_measure.
  repeat first [ apply call_tool_live | apply messages_create_live
               | apply print_live | keeps_step ].
Qed.

Lemma for_measures_live s conn ms :
  forall acc, keeps session_live (for_measures s conn ms acc).
Proof.
  induction ms as [|m ms IH]; intros acc; simpl.
  - apply keeps_ret.
  - apply keeps_bind; [apply document_measure_live|exact IH].
Qed.

Lemma auto_document_measures_live s conn :
  keeps session_live (auto_document_measures s conn).
Proof.
  unfold auto_document_measures, list_measures.
  apply keeps_bind; [|intros; apply for_measures_live].
  repeat first [ apply call_tool_live | keeps_step ].
Qed.

(** What [connect_to_model] has done by the time it hands the session
    over. *)
Lemma connect_to_model_returns (p : string) (w : World) (s : Session) (w1 : World) :
  connect_to_model p w = (inr s, w1) ->
  session_live w1 = false /\
  exists during,
    w_trace w1
    = w_trace w ++ EvStdioEnter :: EvSessionEnter :: during
                ++ [EvSessionExit; EvStdioExit].
Proof.
  unfold connect_to_model. unfold with_ctx at 1. unfold stdio_enter.
  destruct (r_spawn (w_remote w)); [discriminate|].
  unfold with_ctx, session_enter, session_exit, stdio_exit.
  match goal with
  | |- context [bind (initialize ?s0) ?k ?w0] =>
      assert (Ha : appends (bind (initialize s0) k))
        by repeat appends_step;
      destruct (Ha w0) as [during Hd];
      destruct (bind (initialize s0) k w0) as [r wb]
  end.
  cbn [snd] in Hd. wsimpl_in Hd.
  intros H. apply pair_equal_spec in H. destruct H as [_ <-].
  split; [reflexivity|].
  exists during. wsimpl. rewrite Hd. rewrite <- !app_assoc. reflexivity.
Qed.

Lemma bind_assoc {A B C} (c : M A) (k : A -> M B) (h : B -> M C) (w : World) :
  bind (bind c k) h w = bind c (fun a => bind (k a) h) w.
Proof. unfold bind. destruct (c w) as [[e|a] w1]; reflexivity. Qed.

Lemma first_call_of_documentation (s : Session) (conn : string) (w : World) :
  exists rest,
    w_trace (snd (auto_document_measures s conn w))
    = w_trace w ++ EvCallTool (session_live w) tool_measure (list_request conn)
                :: rest.
Proof.
  unfold auto_document_measures, list_measures. rewrite bind_assoc.
  unfold bind at 1.
  pose proof (call_tool_trace s tool_measure (list_request conn) w) as Ht.
  destruct (call_tool s tool_measure (list_request conn) w) as [[e|out] w1];
    cbn [snd] in Ht.
  - exists []. exact Ht.
  - match goal with
    | |- context [bind ?c ?k w1] =>
        assert (Ha : appends (bind c k))
          by (repeat first [apply appends_for_measures | appends_step])
    end.
    destruct (Ha w1) as [rest Hr]. exists rest.
    now rewrite Hr, Ht, <- app_assoc.
Qed.

(** C7 (session lifetime), evaluated where it fails.  When
    [connect_to_model] returns the session, both context managers have
    already been left: the session is released.  It stays released
    through the documentation phase, whose first request, and the export
    request after it, are issued on the released handle; unless the
    environment answers in the server's place, the first request raises
    and the run ends there. *)
Theorem session_is_released_before_it_is_used
  (p : string) (w : World) (s : Session) (w1 : World) (conn : string) :
  connect_to_model p w = (inr s, w1) ->
  let w2 := snd (auto_document_measures s conn w1) in
  session_live w1 = false /\
  (exists during,
      w_trace w1 = w_trace w ++ EvStdioEnter :: EvSessionEnter :: during
                             ++ [EvSessionExit; EvStdioExit]) /\
  (exists rest,
      w_trace w2 = w_trace w1 ++ EvCallTool false tool_measure (list_request conn)
                              :: rest) /\
  w_trace (snd (call_tool s tool_database export_request w2))
  = w_trace w2 ++ [EvCallTool false tool_database export_request] /\
  (r_override (w_remote w1) (r_calls (w_remote w1)) = None ->
   fst (auto_document_measures s conn w1) = inl ClosedResourceError).
Proof.
  intros H w2. destruct (connect_to_model_returns p w s w1 H) as [L D].
  split; [exact L|]. split; [exact D|].
  split; [|split].
  - destruct (first_call_of_documentation s conn w1) as [rest Hr].
    exists rest. now rewrite L in Hr.
  - rewrite call_tool_trace. unfold w2.
    now rewrite auto_document_measures_live, L.
  - intros O. unfold auto_document_measures, list_measures. rewrite bind_assoc.
    unfold bind at 1. unfold call_tool. now rewrite O, L.
Qed.

Lemma session_released_witness :
  connect_to_model model_path Sample.fresh_world
  = (inr TheSession, snd (connect_to_model model_path Sample.fresh_world)) /\
  session_live (snd (connect_to_model model_path Sample.fresh_world)) = false /\
  fst (auto_document_measures TheSession connection_name
         (snd (connect_to_model model_path Sample.fresh_world)))
  = inl ClosedResourceError.
Proof.
  assert (H : connect_to_model model_path Sample.fresh_world
              = (inr TheSession, snd (connect_to_model model_path Sample.fresh_world)))
    by (vm_compute; reflexivity).
  split; [exact H|].
  destruct (session_is_released_before_it_is_used
              model_path Sample.fresh_world TheSession _ connection_name H)
    as (L & _ & _ & _ & F).
  split; [exact L|]. apply F. vm_compute; reflexivity.
Defined.

(** The whole of [main] on a server that would have answered: the run
    ends at the first request of the documentation phase. *)
Lemma main_stops_at_the_first_request :
  fst (main Sample.fresh_world) = inl ClosedResourceError /\
  w_trace (snd (main Sample.fresh_world))
  = [EvPrint MsgConnecting; EvStdioEnter; EvSessionEnter; EvInitialize true;
     EvCallTool true tool_connection
       (PDict [("request", PDict [("operation", PStr "ConnectFolder");
                                  ("folderPath", PStr model_path)])]);
     EvSessionExit; EvStdioExit; EvPrint MsgAutoDocumenting;
     EvCallTool false tool_measure (list_request connection_name)].
Proof. vm_compute. split; reflexivity. Qed.

(* ================================================================== *)
(** * The documentation controller: [auto_document_measures] *)
(* ================================================================== *)

Lemma for_measures_app s conn (before after : list pyval) :
  forall acc w,
    for_measures s conn (before ++ after) acc w
    = bind (for_measures s conn before acc)
           (fun acc' => for_measures s conn after acc') w.
Proof.
  induction before as [|m before IH]; intros acc w; simpl.
  - reflexivity.
  - unfold bind. destruct (document_measure s conn m acc w) as [[e|acc1] w1];
      [reflexivity|].
    specialize (IH acc1 w1). unfold bind in IH. exact IH.
Qed.

(** C1, as amended (a failure is not isolated).  Let the measures listed
    be [before ++ m :: after], let the loop have gone through [before],
    and let the step for [m] raise [e].  Then [auto_document_measures]
    raises [e]: it returns no result, not even the entries gathered for
    [before], and it leaves the world as the failing step left it, so
    that nothing is fetched, analysed or updated for [after]. *)
Theorem first_failure_ends_the_run
  (s : Session) (conn : string) (w : World)
  (before : list pyval) (m : pyval) (after : list pyval)
  (w0 : World) (acc : list pyval) (w1 : World) (e : exn) (w2 : World) :
  list_measures s conn w = (inr (before ++ m :: after), w0) ->
  for_measures s conn before [] w0 = (inr acc, w1) ->
  document_measure s conn m acc w1 = (inl e, w2) ->
  auto_document_measures s conn w = (inl e, w2).
Proof.
  intros HL HB HM. unfold auto_document_measures. unfold bind at 1.
  rewrite HL. cbv zeta. rewrite for_measures_app. unfold bind at 1.
  rewrite HB. simpl. unfold bind at 1. now rewrite HM.
Qed.

Lemma first_failure_witness :
  let w := Sample.rejecting_world in
  let items := map row_listing Sample.store3 in
  let w0 := snd (list_measures TheSession connection_name w) in
  let w1 := snd (for_measures TheSession connection_name (firstn 2 items) [] w0) in
  let acc := [PDict [("measure", PStr "Margin"); ("description", PStr "generated")]] in
  let w2 := snd (document_measure TheSession connection_name (nth 2 items PNone) acc w1) in
  list_measures TheSession connection_name w = (inr items, w0) /\
  for_measures TheSession connection_name (firstn 2 items) [] w0 = (inr acc, w1) /\
  document_measure TheSession connection_name (nth 2 items PNone) acc w1
  = (inl (McpError "update rejected"), w2) /\
  auto_document_measures TheSession connection_name w
  = (inl (McpError "update rejected"), w2).
Proof.
  intros w items w0 w1 acc w2.
  assert (HL : list_measures TheSession connection_name w
               = (inr (firstn 2 items ++ nth 2 items PNone :: skipn 3 items), w0))
    by (vm_compute; reflexivity).
  assert (HB : for_measures TheSession connection_name (firstn 2 items) [] w0
               = (inr acc, w1)) by (vm_compute; reflexivity).
  assert (HM : document_measure TheSession connection_name (nth 2 items PNone) acc w1
               = (inl (McpError "update rejected"), w2)) by (vm_compute; reflexivity).
  split; [exact HL|]. split; [exact HB|]. split; [exact HM|].
  exact (first_failure_ends_the_run TheSession connection_name w
           (firstn 2 items) (nth 2 items PNone) (skipn 3 items)
           w0 acc w1 (McpError "update rejected") w2 HL HB HM).
Defined.

(** C1 as stated fails.  Three measures need documentation and the
    update of the second is rejected: the exception leaves the
    controller, no result is returned, and the third measure is never
    looked at (five requests were made: the list, and a get and an
    update for each of the first two). *)
Lemma rejected_update_escapes :
  let r := auto_document_measures TheSession connection_name Sample.rejecting_world in
  length (filter undocumented Sample.store3) = 3 /\
  fst r = inl (McpError "update rejected") /\
  r_calls (w_remote (snd r)) = 5 /\
  map m_description (r_store (w_remote (snd r)))
  = [PStr "Sum of all sales"; PStr "generated"; PStr EmptyString; PNone].
Proof. vm_compute. repeat split; reflexivity. Qed.

(* ================================================================== *)
(** * Running the controller twice *)
(* ================================================================== *)

Lemma call_tool_healthy s tool args w :
  healthy w ->
  call_tool s tool args w
  = match serve (w_remote w) tool args (w_fs w) with
    | (out, st, fs) => (inr out, after_call w tool args st fs)
    end.
Proof.
  intros [L O]. unfold call_tool, served. cbv zeta. wsimpl. rewrite O, L.
  destruct (serve (w_remote w) tool args (w_fs w)) as [[out st] fs]. reflexivity.
Qed.

Lemma healthy_after_call w tool args st fs :
  healthy w -> healthy (after_call w tool args st fs).
Proof. intros [L O]. split; [exact L|exact O]. Qed.

Lemma healthy_log e w : healthy w -> healthy (log e w).
Proof. intros [L O]. split; [exact L|exact O]. Qed.

Lemma healthy_tick_ai w : healthy w -> healthy (tick_ai w).
Proof. intros [L O]. split; [exact L|exact O]. Qed.

Lemma serve_list r conn fs :
  serve r tool_measure (list_request conn) fs
  = (tool_reply (PDict [("success", PBool true);
                        ("data", PDict [("measures",
                                         PList (map row_listing (r_store r)))])]),
     r_store r, fs).
Proof. reflexivity. Qed.

Lemma serve_get r conn t n fs :
  serve r tool_measure (get_request conn t n) fs
  = match find (row_is t n) (r_store r) with
    | Some m =>
        (tool_reply (PDict [("success", PBool true);
                            ("data", PDict [("measure", row_detail m)])]),
         r_store r, fs)
    | None => (tool_error "measure not found", r_store r, fs)
    end.
Proof. reflexivity. Qed.

Lemma serve_update r conn t n n' d f notes fs :
  serve r tool_measure (update_request conn t n n' d f notes) fs
  = if existsb (row_is t n) (r_store r)
    then (ok_reply,
          update_rows t n (update_definition n' d f notes) (r_store r), fs)
    else (tool_error "measure not found", r_store r, fs).
Proof. reflexivity. Qed.

Lemma list_measures_healthy s conn w :
  healthy w ->
  list_measures s conn w
  = (inr (map row_listing (r_store (w_remote w))),
     after_call w tool_measure (list_request conn) (r_store (w_remote w)) (w_fs w)).
Proof.
  intros H. unfold list_measures. unfold bind at 1.
  rewrite (call_tool_healthy s _ _ w H), serve_list. reflexivity.
Qed.

Lemma find_existsb {A} (f : A -> bool) (l : list A) :
  existsb f l = true -> exists x, find f l = Some x.
Proof.
  induction l as [|a l IH]; simpl; [discriminate|].
  destruct (f a); [now exists a|exact IH].
Qed.

Lemma listing_description r :
  py_get (row_listing r) "description" PNone = inr (m_description r).
Proof. reflexivity. Qed.

Lemma listing_table r : subscript (row_listing r) "tableName" = inr (PStr (m_table r)).
Proof. reflexivity. Qed.

Lemma listing_name r : subscript (row_listing r) "name" = inr (PStr (m_name r)).
Proof. reflexivity. Qed.

Ltac lift_step H :=
  unfold bind at 1 in H; unfold lift at 1 in H;
  rewrite ?listing_description, ?listing_table, ?listing_name in H;
  cbv beta iota in H.

Lemma document_measure_skips s conn r acc w :
  undocumented r = false ->
  document_measure s conn (row_listing r) acc w = (inr acc, w).
Proof.
  intros U. unfold document_measure. unfold bind at 1. unfold lift at 1.
  rewrite listing_description. cbv beta iota.
  unfold undocumented in U. rewrite U. reflexivity.
Qed.

Lemma document_measure_documents s conn r acc w acc' w' :
  healthy w ->
  existsb (row_is (PStr (m_table r)) (PStr (m_name r))) (r_store (w_remote w)) = true ->
  undocumented r = true ->
  document_measure s conn (row_listing r) acc w = (inr acc', w') ->
  exists d f notes,
    acc' = acc ++ [documented_entry (PStr (m_name r)) d] /\
    r_store (w_remote w')
    = update_rows (PStr (m_table r)) (PStr (m_name r))
                  (update_definition (PStr (m_name r)) d f notes)
                  (r_store (w_remote w)) /\
    healthy w'.
Proof.
  intros Hh Hk U H. unfold document_measure in H.
  lift_step H. unfold undocumented in U. rewrite U in H.
  lift_step H. lift_step H.
  unfold bind at 1 in H.
  rewrite (call_tool_healthy s _ _ w Hh), serve_get in H.
  destruct (find_existsb _ _ Hk) as [m Hm]. rewrite Hm in H.
  set (w1 := after_call w _ _ _ _) in H.
  assert (H1 : healthy w1) by now apply healthy_after_call.
  assert (S1 : r_store (w_remote w1) = r_store (w_remote w)) by reflexivity.
  clearbody w1.
  lift_step H. cbn [content0_text reply tool_reply content] in H.
  lift_step H. cbn [json_loads] in H.
  lift_step H. cbn [subscript assoc String.eqb Ascii.eqb Bool.eqb] in H.
  lift_step H. lift_step H.
  cbn [row_detail subscript assoc String.eqb Ascii.eqb Bool.eqb] in H.
  lift_step H.
  unfold bind at 1 in H. rewrite analyze_measure_with_ai_eq in H.
  destruct (parse_reply (w_ai w1 (w_ai_calls w1))) as [e|ai] eqn:Eai; [discriminate|].
  set (w2 := log _ (tick_ai w1)) in H.
  assert (H2 : healthy w2) by now apply healthy_log, healthy_tick_ai.
  assert (S2 : r_store (w_remote w2) = r_store (w_remote w)) by exact S1.
  clearbody w2.
  lift_step H. lift_step H. lift_step H.
  lift_step H. destruct (subscript ai "description") as [e|d] eqn:Ed; [discriminate|].
  lift_step H. destruct (py_get ai "display_folder" (PStr EmptyString)) as [e|f] eqn:Ef;
    [discriminate|].
  lift_step H. destruct (subscript ai "technical_notes") as [e|notes] eqn:En;
    [discriminate|].
  unfold bind at 1 in H.
  rewrite (call_tool_healthy s _ _ w2 H2), serve_update, S2, Hk in H.
  set (w3 := after_call w2 _ _ _ _) in H.
  assert (H3 : healthy w3) by now apply healthy_after_call.
  assert (S3 : r_store (w_remote w3)
               = update_rows (PStr (m_table r)) (PStr (m_name r))
                   (update_definition (PStr (m_name r)) d f notes)
                   (r_store (w_remote w))) by reflexivity.
  clearbody w3.
  lift_step H. lift_step H. cbv zeta in H. lift_step H.
  bind_inv H. apply print_inr in Hstep. destruct Hstep as [-> _].
  unfold ret in H.
  apply pair_equal_spec in H. destruct H as [Ha <-]. injection Ha as <-.
  exists d, f, notes. split; [reflexivity|]. split; [exact S3|].
  now apply healthy_log.
Qed.

Lemma existsb_update_rows t n t' n' upd st :
  existsb (row_is t n) (update_rows t' n' upd st) = existsb (row_is t n) st.
Proof.
  unfold update_rows. induction st as [|m st IH]; simpl; [reflexivity|].
  rewrite IH. now destruct (row_is t' n' m).
Qed.

Lemma row_is_same (r m : measure_row) :
  row_is (PStr (m_table r)) (PStr (m_name r)) m = true <-> same_measure r m.
Proof.
  unfold row_is, same_measure. rewrite andb_true_iff, !String.eqb_eq. reflexivity.
Qed.

Lemma for_measures_all_documented s conn (rows : list measure_row) acc w :
  (forall r, In r rows -> truthy (m_description r) = true) ->
  for_measures s conn (map row_listing rows) acc w = (inr acc, w).
Proof.
  induction rows as [|r rows IH]; intros H; simpl; [reflexivity|].
  unfold bind. rewrite document_measure_skips.
  - apply IH. intros r' Hr'. apply H. now right.
  - unfold undocumented. rewrite H; [reflexivity|now left].
Qed.

Lemma for_measures_listed s conn (rows : list measure_row) :
  forall acc w docs w',
    healthy w ->
    (forall r, In r rows ->
               existsb (row_is (PStr (m_table r)) (PStr (m_name r)))
                       (r_store (w_remote w)) = true) ->
    for_measures s conn (map row_listing rows) acc w = (inr docs, w') ->
    exists new,
      docs = acc ++ new /\
      healthy w' /\
      map (fun doc => subscript doc "measure") new
      = map (fun m => inr (PStr (m_name m))) (filter undocumented rows) /\
      (Forall has_description new ->
       (forall m, In m (r_store (w_remote w)) -> covered rows m) ->
       forall m, In m (r_store (w_remote w')) -> truthy (m_description m) = true).
Proof.
  induction rows as [|r rows IH]; intros acc w docs w' Hh Hk H.
  - simpl in H. unfold ret in H. apply pair_equal_spec in H. destruct H as [Hd <-].
    injection Hd as <-. exists []. rewrite app_nil_r.
    repeat split; try assumption; try (destruct Hh; assumption).
    intros _ Hc m Hm. destruct (Hc m Hm) as [T|(r & [] & _)]. exact T.
  - cbn [map for_measures] in H. apply bind_inr_inv in H.
    destruct H as (acc1 & w1 & Hstep & H).
    assert (Hk' : forall r', In r' rows ->
                  existsb (row_is (PStr (m_table r')) (PStr (m_name r')))
                          (r_store (w_remote w)) = true)
      by (intros r' Hr'; apply Hk; now right).
    destruct (undocumented r) eqn:U.
    + destruct (document_measure_documents s conn r acc w acc1 w1 Hh
                  (Hk r (or_introl eq_refl)) U Hstep)
        as (d & f & notes & -> & Hs & Hh1).
      assert (Hk1 : forall r', In r' rows ->
                    existsb (row_is (PStr (m_table r')) (PStr (m_name r')))
                            (r_store (w_remote w1)) = true).
      { intros r' Hr'. rewrite Hs, existsb_update_rows. now apply Hk'. }
      destruct (IH _ _ _ _ Hh1 Hk1 H) as (new & -> & Hh' & Hn & Hc).
      exists (documented_entry (PStr (m_name r)) d :: new).
      split; [now rewrite <- app_assoc|]. split; [exact Hh'|].
      split; [cbn [filter]; rewrite U; cbn [map]; now rewrite Hn|].
      intros Hf Hcov. inversion Hf as [|x l (d' & Ed & Td) Hf' E]; subst.
      cbn in Ed. injection Ed as <-.
      apply (Hc Hf'). intros m1 Hm1. rewrite Hs in Hm1.
      unfold update_rows in Hm1. apply in_map_iff in Hm1.
      destruct Hm1 as (m & <- & Hm).
      destruct (row_is (PStr (m_table r)) (PStr (m_name r)) m) eqn:R.
      * left. exact Td.
      * destruct (Hcov m Hm) as [T|(r0 & [<-|Hr0] & Hsame & Hu)].
        -- now left.
        -- apply row_is_same in Hsame. congruence.
        -- right. now exists r0.
    + rewrite (document_measure_skips s conn r acc w U) in Hstep.
      apply pair_equal_spec in Hstep. destruct Hstep as [Ha <-]. injection Ha as <-.
      destruct (IH _ _ _ _ Hh Hk' H) as (new & -> & Hh' & Hn & Hc).
      exists new. split; [reflexivity|]. split; [exact Hh'|].
      split; [cbn [filter]; now rewrite U|].
      intros Hf Hcov. apply (Hc Hf). intros m Hm.
      destruct (Hcov m Hm) as [T|(r0 & [<-|Hr0] & Hsame & Hu)].
      * now left.
      * congruence.
      * right. now exists r0.
Qed.

(** C3, as amended (idempotency).  Take a live session on which no
    request meets a fault, so that every request reaches the server and
    every update is applied, and let a first run return [docs], each with
    a description that is not empty.  Then the first run documented the
    measures that had no description, each once and in the order listed;
    and a second run, started where the first one ended, returns the
    empty list, having made the list request and nothing else: no get,
    no analysis, no update.  (The program does not look at the reply to
    an update; what happens when an update is not applied is
    [unapplied_update_is_documented_again].) *)
Theorem second_run_documents_nothing
  (s : Session) (conn : string) (w : World) (docs : list pyval) (w1 : World) :
  healthy w ->
  auto_document_measures s conn w = (inr docs, w1) ->
  Forall has_description docs ->
  map (fun doc => subscript doc "measure") docs
  = map (fun m => inr (PStr (m_name m)))
        (filter undocumented (r_store (w_remote w))) /\
  exists w2,
    auto_document_measures s conn w1 = (inr [], w2) /\
    w_trace w2 = w_trace w1 ++ [EvCallTool true tool_measure (list_request conn)] /\
    r_store (w_remote w2) = r_store (w_remote w1) /\
    w_ai_calls w2 = w_ai_calls w1.
Proof.
  intros Hh H Hf. unfold auto_document_measures in H. unfold bind at 1 in H.
  rewrite (list_measures_healthy s conn w Hh) in H. cbv zeta in H.
  set (w0 := after_call w _ _ _ _) in H.
  assert (Hh0 : healthy w0) by now apply healthy_after_call.
  assert (Hk : forall r, In r (r_store (w_remote w)) ->
               existsb (row_is (PStr (m_table r)) (PStr (m_name r)))
                       (r_store (w_remote w0)) = true).
  { intros r Hr. apply existsb_exists. exists r. split; [exact Hr|].
    apply row_is_same. now split. }
  destruct (for_measures_listed s conn _ _ _ _ _ Hh0 Hk H)
    as (new & E & Hh1 & Hn & Hc).
  cbn [app] in E. subst new. split; [exact Hn|].
  assert (Hall : forall m, In m (r_store (w_remote w1)) ->
                           truthy (m_description m) = true).
  { apply (Hc Hf). intros m Hm. unfold covered.
    destruct (truthy (m_description m)) eqn:T; [now left|right].
    exists m. repeat split; [exact Hm|]. unfold undocumented. now rewrite T. }
  eexists. split.
  - unfold auto_document_measures. unfold bind at 1.
    rewrite (list_measures_healthy s conn w1 Hh1). cbv zeta.
    apply for_measures_all_documented. exact Hall.
  - repeat split; reflexivity.
Qed.

Lemma second_run_witness :
  let w := Sample.good_world in
  let r1 := auto_document_measures TheSession connection_name w in
  healthy w /\
  fst r1 = inr [documented_entry (PStr "Margin") (PStr "generated");
                documented_entry (PStr "Orders") (PStr "generated")] /\
  fst (auto_document_measures TheSession connection_name (snd r1)) = inr [].
Proof.
  intros w r1.
  assert (Hh : healthy w) by (split; [reflexivity|intros k; reflexivity]).
  assert (H1 : auto_document_measures TheSession connection_name w
               = (inr [documented_entry (PStr "Margin") (PStr "generated");
                       documented_entry (PStr "Orders") (PStr "generated")],
                  snd r1)) by (vm_compute; reflexivity).
  assert (Hf : Forall has_description
                 [documented_entry (PStr "Margin") (PStr "generated");
                  documented_entry (PStr "Orders") (PStr "generated")]).
  { repeat constructor; exists (PStr "generated"); split; reflexivity. }
  split; [exact Hh|]. split; [unfold r1; now rewrite H1|].
  destruct (second_run_documents_nothing TheSession connection_name w _ _ Hh H1 Hf)
    as (_ & w2 & H2 & _).
  now rewrite H2.
Defined.

(** C3 as stated fails.  The service answers with an empty description:
    the first run writes it and reports the two measures, and the second
    run finds them undocumented still and documents them again. *)
Lemma blank_description_is_documented_again :
  let r1 := auto_document_measures TheSession connection_name Sample.blank_world in
  let r2 := auto_document_measures TheSession connection_name (snd r1) in
  fst r1 = inr [documented_entry (PStr "Margin") (PStr EmptyString);
                documented_entry (PStr "Orders") (PStr EmptyString)] /\
  fst r2 = inr [documented_entry (PStr "Margin") (PStr EmptyString);
                documented_entry (PStr "Orders") (PStr EmptyString)] /\
  w_ai_calls (snd r1) = 2 /\ w_ai_calls (snd r2) = 4.
Proof. vm_compute. repeat split; reflexivity. Qed.

(** An update that is not applied has the same effect, and it makes no
    difference to the first run, which does not look at the reply.  Here
    the update of Margin is answered with a tool failure: the first run
    reports Margin and Orders, both with a description, and the second
    run reports Margin. *)
Lemma unapplied_update_is_documented_again :
  let r1 := auto_document_measures TheSession connection_name Sample.deaf_run_world in
  let r2 := auto_document_measures TheSession connection_name (snd r1) in
  fst r1 = inr [documented_entry (PStr "Margin") (PStr "generated");
                documented_entry (PStr "Orders") (PStr "generated")] /\
  map m_description (r_store (w_remote (snd r1)))
  = [PStr "Sum of all sales"; PNone; PStr "generated"] /\
  fst r2 = inr [documented_entry (PStr "Margin") (PStr "generated")].
Proof. vm_compute. repeat split; reflexivity. Qed.

(* ================================================================== *)
(** * One step of the loop, in any environment *)
(* ================================================================== *)

(** Whatever the request and whatever becomes of it, a tool call logs
    one event, counts as one request, and leaves the reasoning service,
    the clock, the repository, stdout, the faults to come and the state
    of the session alone. *)
Lemma call_tool_effect s tool args w out w1 :
  call_tool s tool args w = (out, w1) ->
  w_trace w1 = w_trace w ++ [EvCallTool (session_live w) tool args] /\
  session_live w1 = session_live w /\
  r_calls (w_remote w1) = S (r_calls (w_remote w)) /\
  w_ai w1 = w_ai w /\ w_ai_calls w1 = w_ai_calls w.
Proof.
  intros H.
  assert (E : w1 = snd (call_tool s tool args w)) by now rewrite H.
  subst w1. clear H.
  split; [apply call_tool_trace|]. split; [apply call_tool_live|].
  call_tool_cases w; repeat split; reflexivity.
Qed.

Lemma call_tool_env s tool args w :
  r_override (w_remote (snd (call_tool s tool args w))) = r_override (w_remote w) /\
  w_stdout (snd (call_tool s tool args w)) = w_stdout w.
Proof. call_tool_cases w; split; reflexivity. Qed.

Tactic Notation "rstep" hyp(H) "as" ident(x) ident(E) :=
  unfold bind at 1 in H; unfold lift at 1 in H; cbv beta iota in H;
  lazymatch type of H with
  | match ?X with inl _ => _ | inr _ => _ end = _ =>
      destruct X as [?|x] eqn:E; [discriminate|]
  end.

Ltac lstep H :=
  unfold bind at 1 in H; unfold lift at 1 in H; cbv beta iota in H.

(** What a step that returns has done. *)
Lemma document_measure_inr s conn m acc w acc' w' :
  document_measure s conn m acc w = (inr acc', w') ->
  (needs_doc m = false /\ acc' = acc /\ w' = w) \/
  (needs_doc m = true /\
   exists table name detail w1 details ai d folder notes dax upd w3,
     subscript m "tableName" = inr table /\
     subscript m "name" = inr name /\
     call_tool s tool_measure (get_request conn table name) w = (inr detail, w1) /\
     parse_reply (inr (content detail)) = inr details /\
     expression_of details = inr dax /\
     parse_reply (w_ai w (w_ai_calls w)) = inr ai /\
     subscript ai "description" = inr d /\
     py_get ai "display_folder" (PStr EmptyString) = inr folder /\
     subscript ai "technical_notes" = inr notes /\
     call_tool s tool_measure
       (update_request conn table name name d folder notes)
       (log (EvMessagesCreate ai_model 1024 (MeasurePrompt name dax)) (tick_ai w1))
     = (inr upd, w3) /\
     w' = log (EvPrint (MsgDocumented name)) w3 /\
     acc' = acc ++ [documented_entry name d] /\
     w_trace w' = w_trace w
                  ++ step_events (session_live w) conn table name dax d folder notes /\
     w_ai_calls w' = S (w_ai_calls w) /\
     r_calls (w_remote w') = S (S (r_calls (w_remote w))) /\
     session_live w' = session_live w /\
     w_ai w' = w_ai w).
Proof.
  intros H. unfold document_measure in H.
  unfold bind at 1 in H. unfold lift at 1 in H. cbv beta iota in H.
  destruct (py_get m "description" PNone) as [e|dsc] eqn:Ed; [discriminate|].
  destruct (negb (truthy dsc)) eqn:N.
  - right. split; [unfold needs_doc; now rewrite Ed|].
    rstep H as table Et.
    rstep H as name En.
    unfold bind at 1 in H.
    destruct (call_tool s tool_measure (get_request conn table name) w)
      as [[e|detail] w1] eqn:C1; [discriminate|].
    destruct (call_tool_effect _ _ _ _ _ _ C1) as (T1 & L1 & R1 & A1 & K1).
    rstep H as t Etxt. rstep H as details Edet.
    rstep H as data Edata.
    rstep H as mm Emm.
    rstep H as dax Edax.
    lstep H.
    unfold bind at 1 in H. rewrite analyze_measure_with_ai_eq in H.
    destruct (parse_reply (w_ai w1 (w_ai_calls w1))) as [e|ai] eqn:Eai;
      [discriminate|].
    lstep H. lstep H. lstep H.
    rstep H as d Edesc.
    rstep H as folder Efolder.
    rstep H as notes Enotes.
    unfold bind at 1 in H.
    match type of H with
    | match call_tool ?s0 ?t0 ?a0 ?w0 with _ => _ end = _ =>
        destruct (call_tool s0 t0 a0 w0) as [[e|upd] w3] eqn:C3; [discriminate|];
        destruct (call_tool_effect _ _ _ _ _ _ C3) as (T3 & L3 & R3 & A3 & K3)
    end.
    wsimpl_in T3. wsimpl_in R3. wsimpl_in K3. wsimpl_in A3.
    change (session_live (log (EvMessagesCreate ai_model 1024 (MeasurePrompt name dax))
                              (tick_ai w1)))
      with (session_live w1) in T3, L3.
    lstep H. lstep H. cbv zeta in H. lstep H.
    bind_inv H. apply print_inr in Hstep. destruct Hstep as [-> _].
    unfold ret in H.
    apply pair_equal_spec in H. destruct H as [Ha <-]. injection Ha as <-.
    exists table, name, detail, w1, details, ai, d, folder, notes, dax, upd, w3.
    rewrite A1, K1 in Eai.
    assert (Ex : expression_of details = inr dax)
      by (unfold expression_of; now rewrite Edata, Emm).
    assert (Ep : parse_reply (inr (content detail)) = inr details)
      by (unfold parse_reply; now rewrite Etxt).
    repeat split; try assumption; try reflexivity.
    + wsimpl. rewrite T3, T1, L1. unfold step_events.
      rewrite <- !app_assoc. reflexivity.
    + wsimpl. now rewrite K3, K1.
    + wsimpl. now rewrite R3, R1.
    + change (session_live (log (EvPrint (MsgDocumented name)) w3))
        with (session_live w3).
      now rewrite L3.
    + wsimpl. now rewrite A3, A1.
  - left. unfold ret in H. apply pair_equal_spec in H. destruct H as [Ha <-].
    injection Ha as <-. split; [unfold needs_doc; now rewrite Ed|]. now split.
Qed.

(* ================================================================== *)
(** * The controller, in any environment *)
(* ================================================================== *)

Lemma list_measures_effect s conn w items w0 :
  list_measures s conn w = (inr items, w0) ->
  w_trace w0 = w_trace w
               ++ [EvCallTool (session_live w) tool_measure (list_request conn)] /\
  session_live w0 = session_live w /\
  r_calls (w_remote w0) = S (r_calls (w_remote w)) /\
  w_ai w0 = w_ai w /\ w_ai_calls w0 = w_ai_calls w.
Proof.
  intros H. unfold list_measures in H. unfold bind at 1 in H.
  destruct (call_tool s tool_measure (list_request conn) w) as [[e|out] w1] eqn:C;
    [discriminate|].
  pose proof (call_tool_effect _ _ _ _ _ _ C) as F.
  unfold bind, lift in H.
  destruct (content0_text (content out)) as [e|t]; [discriminate|].
  destruct (json_loads t) as [e|v]; [discriminate|].
  destruct (subscript v "data") as [e|data]; [discriminate|].
  destruct (subscript data "measures") as [e|ms]; [discriminate|].
  apply pair_equal_spec in H. destruct H as [_ <-]. exact F.
Qed.

Lemma document_measure_documented s conn m acc w :
  is_documented m = true ->
  document_measure s conn m acc w = (inr acc, w).
Proof.
  unfold is_documented, document_measure. intros D.
  unfold bind at 1. unfold lift at 1.
  destruct (py_get m "description" PNone) as [e|d]; [discriminate|].
  now rewrite D.
Qed.

Lemma for_measures_documented s conn items acc w :
  forallb is_documented items = true ->
  for_measures s conn items acc w = (inr acc, w).
Proof.
  induction items as [|m items IH]; simpl; intros H; [reflexivity|].
  apply andb_true_iff in H. destruct H as [Hm Hi].
  unfold bind. rewrite (document_measure_documented s conn m acc w Hm).
  now apply IH.
Qed.

(** What a loop that returns has done: one entry, one analysis and two
    requests more for each item that needed documentation. *)
Lemma for_measures_inr s conn items :
  forall acc w docs w',
    for_measures s conn items acc w = (inr docs, w') ->
    exists new,
      docs = acc ++ new /\
      map (fun doc => subscript doc "measure") new
      = map (fun m => subscript m "name") (filter needs_doc items) /\
      w_ai_calls w' = w_ai_calls w + length new /\
      r_calls (w_remote w') = r_calls (w_remote w) + 2 * length new.
Proof.
  induction items as [|m items IH]; intros acc w docs w' H.
  - simpl in H. unfold ret in H. apply pair_equal_spec in H.
    destruct H as [Hd <-]. injection Hd as <-.
    exists []. rewrite app_nil_r. simpl. repeat split; lia.
  - cbn [for_measures] in H. apply bind_inr_inv in H.
    destruct H as (acc1 & w1 & Hstep & H).
    destruct (IH _ _ _ _ H) as (new & -> & Hn & Ha & Hr).
    destruct (document_measure_inr _ _ _ _ _ _ _ Hstep)
      as [(N & -> & ->)
         |(N & table & name & detail & w2 & details & ai & d & folder & notes
           & dax & upd & w3
           & Et & En & _ & _ & _ & _ & _ & _ & _ & _ & _ & -> & _ & Ha1 & Hr1 & _)].
    + exists new. cbn [filter]. rewrite N. repeat split; assumption.
    + exists (documented_entry name d :: new). cbn [filter]. rewrite N.
      split; [now rewrite <- app_assoc|].
      split; [cbn [map]; rewrite Hn, En; reflexivity|].
      cbn [length]. split; lia.
Qed.

(** X1.  A listing in which every measure carries a description is left
    alone, whatever the environment: the list request is the only thing
    the controller does, and it returns the empty list. *)
Theorem documented_listing_costs_one_request
  (s : Session) (conn : string) (w : World) (items : list pyval) (w0 : World) :
  list_measures s conn w = (inr items, w0) ->
  forallb is_documented items = true ->
  auto_document_measures s conn w = (inr [], w0) /\
  w_trace w0 = w_trace w
               ++ [EvCallTool (session_live w) tool_measure (list_request conn)] /\
  r_calls (w_remote w0) = S (r_calls (w_remote w)) /\
  w_ai_calls w0 = w_ai_calls w.
Proof.
  intros HL HD.
  destruct (list_measures_effect _ _ _ _ _ HL) as (T & _ & R & _ & K).
  split; [|now repeat split].
  unfold auto_document_measures. unfold bind at 1. rewrite HL. cbv zeta.
  now apply for_measures_documented.
Qed.

Lemma documented_listing_witness :
  let w := Sample.documented_world in
  let items := map row_listing Sample.store_documented in
  let w0 := snd (list_measures TheSession connection_name w) in
  list_measures TheSession connection_name w = (inr items, w0) /\
  forallb is_documented items = true /\
  auto_document_measures TheSession connection_name w = (inr [], w0) /\
  r_calls (w_remote w0) = 1 /\ w_ai_calls w0 = 0.
Proof.
  intros w items w0.
  assert (HL : list_measures TheSession connection_name w = (inr items, w0))
    by (vm_compute; reflexivity).
  assert (HD : forallb is_documented items = true) by (vm_compute; reflexivity).
  destruct (documented_listing_costs_one_request
              TheSession connection_name w items w0 HL HD) as (A & _ & R & K).
  repeat split; assumption.
Defined.

(** X2.  When the controller returns, whatever the environment: its
    result has one entry for each listed measure whose description was
    missing or empty, in the order listed and under the measure's name;
    the reasoning service was asked once for each of them; and the
    session carried the list request and two requests (a get and an
    update) for each of them. *)
Theorem one_analysis_and_two_requests_per_entry
  (s : Session) (conn : string) (w : World) (items : list pyval) (w0 : World)
  (docs : list pyval) (w' : World) :
  list_measures s conn w = (inr items, w0) ->
  auto_document_measures s conn w = (inr docs, w') ->
  map (fun doc => subscript doc "measure") docs
  = map (fun m => subscript m "name") (filter needs_doc items) /\
  length docs = length (filter needs_doc items) /\
  w_ai_calls w' = w_ai_calls w + length docs /\
  r_calls (w_remote w') = r_calls (w_remote w) + 1 + 2 * length docs.
Proof.
  intros HL H.
  destruct (list_measures_effect _ _ _ _ _ HL) as (_ & _ & R & _ & K).
  unfold auto_document_measures in H. unfold bind at 1 in H.
  rewrite HL in H. cbv zeta in H.
  destruct (for_measures_inr _ _ _ _ _ _ _ H) as (new & E & Hn & Ha & Hr).
  cbn [app] in E. subst new.
  split; [exact Hn|].
  split; [apply (f_equal (@length _)) in Hn; now rewrite !length_map in Hn|].
  split; lia.
Qed.

Lemma one_analysis_witness :
  let w := Sample.good_world in
  let w0 := snd (list_measures TheSession connection_name w) in
  let r := auto_document_measures TheSession connection_name w in
  list_measures TheSession connection_name w
  = (inr (map row_listing Sample.store), w0) /\
  fst r = inr [documented_entry (PStr "Margin") (PStr "generated");
               documented_entry (PStr "Orders") (PStr "generated")] /\
  w_ai_calls (snd r) = 2 /\ r_calls (w_remote (snd r)) = 5.
Proof.
  intros w w0 r.
  assert (HL : list_measures TheSession connection_name w
               = (inr (map row_listing Sample.store), w0))
    by (vm_compute; reflexivity).
  assert (H : auto_document_measures TheSession connection_name w
              = (inr [documented_entry (PStr "Margin") (PStr "generated");
                      documented_entry (PStr "Orders") (PStr "generated")],
                 snd r)) by (vm_compute; reflexivity).
  destruct (one_analysis_and_two_requests_per_entry
              TheSession connection_name w _ w0 _ _ HL H) as (_ & _ & A & R).
  split; [exact HL|]. split; [unfold r; now rewrite H|].
  split; [exact A|exact R].
Defined.

(** X3.  What the loop does for one measure it documents, in any
    environment in which the step returns.  It reads the table and the
    name off the listing and gets the measure; the expression it hands to
    the reasoning service, with the name, is the one found in the reply
    to that get request, at [data.measure.expression].  It then sends one
    update, whose description and technical notes are those of the
    service's answer, whose display folder is the answer's or the empty
    string when the answer has none, and which carries the annotation
    [AI_Generated_Docs].  The progress line is printed last, and the
    entry added to the result holds the name and that description. *)
Theorem documenting_step_is_get_analyse_update_print
  (s : Session) (conn : string) (m : pyval) (acc : list pyval) (w : World)
  (acc' : list pyval) (w' : World) :
  needs_doc m = true ->
  document_measure s conn m acc w = (inr acc', w') ->
  exists table name detail w1 details ai d folder notes dax,
    subscript m "tableName" = inr table /\
    subscript m "name" = inr name /\
    call_tool s tool_measure (get_request conn table name) w = (inr detail, w1) /\
    parse_reply (inr (content detail)) = inr details /\
    expression_of details = inr dax /\
    parse_reply (w_ai w (w_ai_calls w)) = inr ai /\
    subscript ai "description" = inr d /\
    py_get ai "display_folder" (PStr EmptyString) = inr folder /\
    subscript ai "technical_notes" = inr notes /\
    acc' = acc ++ [PDict [("measure", name); ("description", d)]] /\
    w_trace w'
    = w_trace w
      ++ [EvCallTool (session_live w) tool_measure (get_request conn table name);
          EvMessagesCreate ai_model 1024 (MeasurePrompt name dax);
          EvCallTool (session_live w) tool_measure
            (update_request conn table name name d folder notes);
          EvPrint (MsgDocumented name)].
Proof.
  intros N H.
  destruct (document_measure_inr _ _ _ _ _ _ _ H)
    as [(N' & _)
       |(_ & table & name & detail & w1 & details & ai & d & folder & notes
         & dax & upd & w3
         & Et & En & Ec & Ep & Ex & Ea & Ed & Ef & Eno & _ & _ & Eacc & Etr & _)].
  - congruence.
  - exists table, name, detail, w1, details, ai, d, folder, notes, dax.
    repeat split; assumption.
Qed.

Lemma documenting_step_witness :
  let w := Sample.partial_world in
  let m := row_listing (Sample.row "Sales" "Margin" "[Total] - [Cost]" PNone) in
  let r := document_measure TheSession connection_name m [] w in
  needs_doc m = true /\
  fst r = inr [PDict [("measure", PStr "Margin");
                      ("description", PStr "Sales less cost.")]] /\
  w_trace (snd r)
  = [EvCallTool true tool_measure
       (get_request connection_name (PStr "Sales") (PStr "Margin"));
     EvMessagesCreate ai_model 1024
       (MeasurePrompt (PStr "Margin") (PStr "[Total] - [Cost]"));
     EvCallTool true tool_measure
       (update_request connection_name (PStr "Sales") (PStr "Margin")
          (PStr "Margin") (PStr "Sales less cost.") (PStr EmptyString)
          (PStr "notes"));
     EvPrint (MsgDocumented (PStr "Margin"))].
Proof.
  intros w m r.
  assert (N : needs_doc m = true) by reflexivity.
  assert (H : document_measure TheSession connection_name m [] w
              = (inr [PDict [("measure", PStr "Margin");
                             ("description", PStr "Sales less cost.")]], snd r))
    by (vm_compute; reflexivity).
  split; [exact N|]. split; [unfold r; now rewrite H|].
  destruct (documenting_step_is_get_analyse_update_print
              TheSession connection_name m [] w _ _ N H)
    as (table & name & detail & w1 & details & ai & d & folder & notes & dax
        & Et & En & Ec & Ep & Ex & Ea & Ed & Ef & Eno & _ & Etr).
  rewrite Etr. clear Etr H.
  vm_compute in Et. injection Et as <-.
  vm_compute in En. injection En as <-.
  vm_compute in Ec. injection Ec as <- _.
  vm_compute in Ep. injection Ep as <-.
  vm_compute in Ex. injection Ex as <-.
  vm_compute in Ea. injection Ea as <-.
  vm_compute in Ed. injection Ed as <-.
  vm_compute in Ef. injection Ef as <-.
  vm_compute in Eno. injection Eno as <-.
  reflexivity.
Defined.

(* ================================================================== *)
(** * A step that raises *)
(* ================================================================== *)

(** A get request does not write, whatever becomes of it. *)
Lemma call_tool_get_store s conn t n w out w1 :
  call_tool s tool_measure (get_request conn t n) w = (out, w1) ->
  r_store (w_remote w1) = r_store (w_remote w).
Proof.
  intros H.
  assert (E : w1 = snd (call_tool s tool_measure (get_request conn t n) w))
    by now rewrite H.
  subst w1. clear H.
  unfold call_tool, served. cbv zeta. wsimpl. rewrite serve_get.
  destruct (find (row_is t n) (r_store (w_remote w)));
    destruct (r_override (w_remote w) (r_calls (w_remote w))) as [f|];
    try destruct (f_served f); try destruct (session_live w); reflexivity.
Qed.

(** A request that raises has not been served, unless the environment
    let the server act and lost the reply. *)
Lemma call_tool_raises s tool args w e w1 :
  call_tool s tool args w = (inl e, w1) ->
  r_store (w_remote w1) = r_store (w_remote w) \/
  exists f, r_override (w_remote w) (r_calls (w_remote w)) = Some f /\
            f_served f = true /\ f_outcome f = inl e.
Proof.
  unfold call_tool. cbv zeta.
  destruct (r_override (w_remote w) (r_calls (w_remote w))) as [f|].
  - intros H. apply pair_equal_spec in H. destruct H as [Ho <-].
    destruct (f_served f) eqn:S.
    + right. now exists f.
    + left. reflexivity.
  - destruct (session_live w); [discriminate|].
    intros H. apply pair_equal_spec in H. destruct H as [_ <-]. now left.
Qed.

Ltac raised H :=
  left; apply pair_equal_spec in H; destruct H as [_ <-]; wsimpl; assumption.

Tactic Notation "fstep" hyp(H) "as" ident(x) ident(E) :=
  unfold bind at 1 in H; unfold lift at 1 in H; cbv beta iota in H;
  lazymatch type of H with
  | match ?X with inl _ => _ | inr _ => _ end = _ =>
      destruct X as [?|x] eqn:E; [raised H|]
  end.





(* ================================================================== *)
(** * [connect_to_model], however it ends *)
(* ================================================================== *)

Lemma handshake_effect (p : string) (w0 : World) (rb : result Session) (wb : World) :
  session_live w0 = true ->
  (initialize TheSession ;;;
   result <- call_tool TheSession tool_connection (connect_request p) ;;
   ret TheSession) w0 = (rb, wb) ->
  exists during,
    (during = [] \/
     during = [EvCallTool true tool_connection (connect_request p)]) /\
    w_trace wb = w_trace w0 ++ EvInitialize true :: during /\
    (during = [] -> exists e, rb = inl e).
Proof.
  intros L H. unfold bind at 1 in H. unfold initialize in H. rewrite L in H.
  assert (L1 : session_live
                 (log (EvInitialize true)
                      (set_remote (tick_remote (w_remote w0)) w0)) = true)
    by exact L.
  set (w1 := log (EvInitialize true) (set_remote (tick_remote (w_remote w0)) w0))
    in *.
  assert (T1 : w_trace w1 = w_trace w0 ++ [EvInitialize true]) by reflexivity.
  clearbody w1.
  assert (Hcall : forall r2 w2,
             (result <- call_tool TheSession tool_connection (connect_request p) ;;
              ret TheSession) w1 = (r2, w2) ->
             w_trace w2 = w_trace w0 ++ EvInitialize true
                          :: [EvCallTool true tool_connection (connect_request p)]).
  { intros r2 w2 H2. unfold bind in H2.
    destruct (call_tool TheSession tool_connection (connect_request p) w1)
      as [[e|out] w3] eqn:C;
      destruct (call_tool_effect _ _ _ _ _ _ C) as (T & _);
      unfold ret in H2; apply pair_equal_spec in H2; destruct H2 as [_ <-];
      rewrite T, T1, L1, <- app_assoc; reflexivity. }
  destruct (r_override (w_remote w0) (r_calls (w_remote w0))) as [f|];
    [destruct (f_outcome f) as [e|x]|].
  - apply pair_equal_spec in H. destruct H as [<- <-].
    exists []. split; [now left|]. split; [exact T1|]. intros _. now exists e.
  - exists [EvCallTool true tool_connection (connect_request p)].
    split; [now right|]. split; [exact (Hcall _ _ H)|discriminate].
  - exists [EvCallTool true tool_connection (connect_request p)].
    split; [now right|]. split; [exact (Hcall _ _ H)|discriminate].
Qed.

(** X5.  [connect_to_model] leaves nothing open.  If the server process
    cannot be started, the error comes back and nothing has happened.
    Otherwise, whether the handshake and the connect request succeed or
    raise, the session and then the transport have been left by the time
    the call is over; both requests were made on the live session, the
    connect request (if the handshake let it happen) carrying the model
    path; and a handshake that raises is an exception for the caller. *)
Theorem connect_to_model_always_releases (p : string) (w : World) :
  match r_spawn (w_remote w) with
  | Some e => connect_to_model p w = (inl e, w)
  | None =>
      session_live (snd (connect_to_model p w)) = false /\
      exists during,
        (during = [] \/
         during = [EvCallTool true tool_connection (connect_request p)]) /\
        w_trace (snd (connect_to_model p w))
        = w_trace w ++ EvStdioEnter :: EvSessionEnter :: EvInitialize true
                    :: during ++ [EvSessionExit; EvStdioExit] /\
        (during = [] -> exists e, fst (connect_to_model p w) = inl e)
  end.
Proof.
  unfold connect_to_model, with_ctx, stdio_enter, session_enter.
  destruct (r_spawn (w_remote w)) as [e|]; [reflexivity|].
  cbv zeta.
  match goal with
  | |- context [bind (initialize TheSession) ?k ?w0] =>
      destruct (bind (initialize TheSession) k w0) as [rb wb] eqn:B;
      apply (handshake_effect p w0 rb wb) in B; [|reflexivity]
  end.
  destruct B as (during & D & T & E).
  unfold session_exit, stdio_exit. cbn [fst snd].
  split; [reflexivity|]. exists during. split; [exact D|].
  split; [|exact E].
  wsimpl. rewrite T. wsimpl. rewrite <- !app_assoc. reflexivity.
Qed.

(** A handshake that fails: the run sees the error, and the two contexts
    have been left all the same. *)
Lemma failed_handshake_is_cleaned_up :
  let r := connect_to_model model_path Sample.handshake_world in
  fst r = inl (McpError "initialize failed") /\
  session_live (snd r) = false /\
  w_trace (snd r)
  = [EvStdioEnter; EvSessionEnter; EvInitialize true;
     EvSessionExit; EvStdioExit].
Proof. vm_compute. repeat split; reflexivity. Qed.

(* ================================================================== *)
(** * The backup: what it leaves when it fails, what follows when it
      returns *)
(* ================================================================== *)

(** X6.  A changelog left half-written.  Let the file open and the
    analysis hold a changelog text but no [impact]: the block raises
    [KeyError] for that key; the file has been closed on the way out; and
    it holds the header, the summary and the heading of the impact
    assessment, nothing after it. *)
Theorem changelog_stops_at_the_missing_impact
  (p : path) (analysis : pyval) (diff : string) (w : World) (fs0 : FS)
  (changelog : string) (e : exn) :
  open_w_fs p (w_fs w) = inr fs0 ->
  subscript analysis "changelog" = inr (PStr changelog) ->
  subscript analysis "impact" = inl e ->
  let stamp' := w_clock w (w_clock_reads w) in
  exists w',
    write_changelog p analysis diff w = (inl (KeyError "impact"), w') /\
    fs_lookup (w_fs w') p = Some (File (changelog_until_impact stamp' changelog)) /\
    w_trace w'
    = w_trace w
      ++ [EvOpenW p; EvNow;
          EvWrite p ("# Model Backup - " ++ strftime_header stamp' ++ nl ++ nl)%string;
          EvWrite p ("## Changes Summary" ++ nl ++ nl)%string;
          EvWrite p (changelog ++ nl ++ nl)%string;
          EvWrite p ("## Impact Assessment" ++ nl ++ nl)%string;
          EvClose p].
Proof.
  intros Ho Ec Ei stamp'.
  assert (Ee : e = KeyError "impact").
  { unfold subscript in Ec, Ei. destruct analysis; try discriminate.
    destruct (assoc "impact" kvs); [discriminate|]. now injection Ei as <-. }
  subst e.
  apply open_w_fs_empty in Ho as Efs. subst fs0.
  unfold write_changelog, with_ctx, open_w. rewrite Ho.
  unfold bind, now, write, lift, close, emit. rewrite Ec, Ei.
  cbn [str_add]. eexists. split; [reflexivity|]. wsimpl.
  repeat rewrite write_fs_head.
  split; [apply fs_lookup_head|].
  rewrite <- !app_assoc. reflexivity.
Qed.

Lemma changelog_stops_witness :
  let p := ["CHANGELOG.md"] in
  let w := Sample.audit_world in
  open_w_fs p (w_fs w) = inr ((p, File EmptyString) :: w_fs w) /\
  subscript Sample.analysis_without_impact "impact" = inl (KeyError "impact") /\
  exists w',
    write_changelog p Sample.analysis_without_impact Sample.diff_text w
    = (inl (KeyError "impact"), w') /\
    fs_lookup (w_fs w') p
    = Some (File (changelog_until_impact Sample.noon "Documented two measures.")).
Proof.
  intros p w.
  assert (Ho : open_w_fs p (w_fs w) = inr ((p, File EmptyString) :: w_fs w))
    by reflexivity.
  assert (Ec : subscript Sample.analysis_without_impact "changelog"
               = inr (PStr "Documented two measures.")) by reflexivity.
  assert (Ei : subscript Sample.analysis_without_impact "impact"
               = inl (KeyError "impact")) by reflexivity.
  split; [exact Ho|]. split; [exact Ei|].
  destruct (changelog_stops_at_the_missing_impact
              p Sample.analysis_without_impact Sample.diff_text w _ _ _ Ho Ec Ei)
    as (w' & H & F & _).
  exists w'. split; [exact H|exact F].
Defined.

(** ** The repository during the backup *)

Lemma now_git : keeps w_git now.
Proof. intros w. reflexivity. Qed.

Lemma mkdir_git p : keeps w_git (mkdir p).
Proof. intros w. unfold mkdir. now destruct (makedirs p (w_fs w)). Qed.

Lemma copytree_git src dst : keeps w_git (copytree src dst).
Proof. intros w. unfold copytree. now destruct (copytree_fs src dst (w_fs w)). Qed.

Lemma open_w_git p : keeps w_git (open_w p).
Proof. intros w. unfold open_w. now destruct (open_w_fs p (w_fs w)). Qed.

Lemma write_git p data : keeps w_git (write p data).
Proof. intros w. reflexivity. Qed.

Lemma git_diff_git a b : keeps w_git (git_diff a b).
Proof. intros w. reflexivity. Qed.

Lemma create_backup_git : keeps w_git create_backup_with_changelog.
Proof.
  unfold create_backup_with_changelog, analyze_tmdl_changes, materialize_backup,
    write_changelog, close.
  repeat first [ apply git_diff_git | apply messages_create_git | apply now_git
               | apply mkdir_git | apply copytree_git | apply open_w_git
               | apply write_git | apply emit_git | apply print_git
               | keeps_step ].
Qed.

(** ** Stdout during the backup *)

Lemma mkdir_stdout p : keeps w_stdout (mkdir p).
Proof. intros w. unfold mkdir. now destruct (makedirs p (w_fs w)). Qed.

Lemma copytree_stdout src dst : keeps w_stdout (copytree src dst).
Proof. intros w. unfold copytree. now destruct (copytree_fs src dst (w_fs w)). Qed.

Lemma print_stdout m : keeps w_stdout (print m).
Proof. intros w. now destruct (print_snd m w) as [-> | ->]. Qed.

Lemma create_backup_stdout : keeps w_stdout create_backup_with_changelog.
Proof.
  unfold create_backup_with_changelog, analyze_tmdl_changes, materialize_backup.
  repeat first [ apply mkdir_stdout | apply copytree_stdout | apply print_stdout
               | apply write_changelog_stdout
               | (intros w; reflexivity) | keeps_step ].
Qed.

(** X7.  Backup before commit, strictly.  When
    [create_backup_with_changelog] raises, the rest of [main] raises
    the same exception at once: nothing is staged and nothing is
    committed, and the repository (its commits and its index) is as it
    was when the backup began. *)
Theorem failed_backup_is_never_committed (w : World) (e : exn) (w1 : World) :
  create_backup_with_changelog w = (inl e, w1) ->
  backup_and_commit w = (inl e, w1) /\
  w_git w1 = w_git w.
Proof.
  intros H. split.
  - unfold backup_and_commit. unfold bind at 1. now rewrite H.
  - pose proof (create_backup_git w) as G. now rewrite H in G.
Qed.

Lemma failed_backup_witness :
  let w := Sample.keyless_world in
  let w1 := snd (create_backup_with_changelog w) in
  create_backup_with_changelog w = (inl (KeyError "changelog"), w1) /\
  backup_and_commit w = (inl (KeyError "changelog"), w1) /\
  w_git w1 = Sample.git.
Proof.
  intros w w1.
  assert (H : create_backup_with_changelog w = (inl (KeyError "changelog"), w1))
    by (vm_compute; reflexivity).
  split; [exact H|].
  exact (failed_backup_is_never_committed w (KeyError "changelog") w1 H).
Defined.

(** X8.  What becomes of a message the backup returns, when it is a
    string and git has no reason of its own to refuse.  The rest of
    [main] stages the working tree as the backup left it, snapshot folder
    included.  If that tree holds the same files as the last commit, or
    git takes the message to be empty (nothing but white space and
    sign-off lines), the commit is refused: [GitCommandError], the tree
    staged and no commit made.  Otherwise there is one commit more, of
    that tree and under that message, and it stays whatever happens to
    the last line: when stdout cannot encode it, [main] ends in
    [UnicodeEncodeError] after the commit. *)
Theorem returned_message_becomes_one_commit
  (w : World) (s : string) (w1 : World) :
  create_backup_with_changelog w = (inr (PStr s), w1) ->
  g_refuse (w_git w) = None ->
  exists r w2,
    backup_and_commit w = (r, w2) /\
    g_index (w_git w2) = w_fs w1 /\
    w_fs w2 = w_fs w1 /\
    if same_files (w_fs w1) (head_tree (w_git w)) || empty_message (PStr s)
    then r = inl GitCommandError /\
         g_commits (w_git w2) = g_commits (w_git w) /\
         w_trace w2 = w_trace w1 ++ [EvGitAdd "."; EvGitCommit "-m" (PStr s)]
    else g_commits (w_git w2)
         = mkCommit (PStr s) (w_fs w1) :: g_commits (w_git w) /\
         if w_stdout w MsgComplete
         then r = inr tt /\
              w_trace w2 = w_trace w1 ++ [EvGitAdd "."; EvGitCommit "-m" (PStr s);
                                          EvPrint MsgComplete]
         else r = inl UnicodeEncodeError /\
              w_trace w2 = w_trace w1 ++ [EvGitAdd "."; EvGitCommit "-m" (PStr s)].
Proof.
  intros H R.
  pose proof (create_backup_git w) as G. rewrite H in G. cbn [snd] in G.
  pose proof (create_backup_stdout w) as O. rewrite H in O. cbn [snd] in O.
  unfold backup_and_commit. unfold bind at 1. rewrite H.
  unfold bind, git_add, git_commit, print, emit. cbv zeta. wsimpl.
  cbn [commit_args unpack_args g_refuse g_index g_commits].
  rewrite G, R. unfold head_tree. cbn [g_commits].
  destruct (same_files _ _ || empty_message (PStr s)).
  - do 2 eexists. split; [reflexivity|]. wsimpl. cbn [g_index g_commits].
    repeat split. now rewrite <- app_assoc.
  - wsimpl. cbn [plain orb]. rewrite O.
    destruct (w_stdout w MsgComplete);
      do 2 eexists; (split; [reflexivity|]); wsimpl; cbn [g_index g_commits];
      repeat split; rewrite <- ?app_assoc; reflexivity.
Qed.

Lemma returned_message_witness :
  let w := Sample.audit_world in
  let w1 := snd (create_backup_with_changelog w) in
  create_backup_with_changelog w = (inr (PStr "Document measures"), w1) /\
  g_refuse (w_git w) = None /\
  exists r w2,
    backup_and_commit w = (r, w2) /\
    r = inr tt /\
    map c_message (g_commits (w_git w2))
    = [PStr "Document measures"; PStr "add Sales table"; PStr "initial"].
Proof.
  intros w w1.
  assert (H : create_backup_with_changelog w = (inr (PStr "Document measures"), w1))
    by (vm_compute; reflexivity).
  assert (R : g_refuse (w_git w) = None) by reflexivity.
  split; [exact H|]. split; [exact R|].
  destruct (returned_message_becomes_one_commit w _ w1 H R)
    as (r & w2 & B & _ & _ & C).
  exists r, w2. split; [exact B|].
  assert (E : same_files (w_fs w1) (head_tree (w_git w))
              || empty_message (PStr "Document measures") = false)
    by (vm_compute; reflexivity).
  rewrite E in C. destruct C as [C D].
  change (w_stdout w MsgComplete) with true in D. destruct D as [-> _].
  split; [reflexivity|]. now rewrite C.
Defined.

(** An empty message: the tree is staged, the commit is refused. *)
Lemma empty_message_is_refused :
  let w := Sample.mute_world in
  let r := backup_and_commit w in
  fst (create_backup_with_changelog w) = inr (PStr EmptyString) /\
  fst r = inl GitCommandError /\
  length (g_commits (w_git (snd r))) = 2 /\
  fs_lookup (g_index (w_git (snd r))) ["backups"; "20260102_120000"; "CHANGELOG.md"]
  = fs_lookup (w_fs (snd r)) ["backups"; "20260102_120000"; "CHANGELOG.md"].
Proof. vm_compute. repeat split; reflexivity. Qed.

(* ================================================================== *)
(** * What each phase uses *)
(* ================================================================== *)

Section Bounded.
Context (obs : World -> nat).

Lemma bounded_of_keeps {A} (c : M A) : keeps obs c -> bounded obs 0 c.
Proof. intros K w. rewrite K. lia. Qed.

Lemma bounded_weaken {A} (n m : nat) (c : M A) :
  n <= m -> bounded obs n c -> bounded obs m c.
Proof. intros L B w. specialize (B w). lia. Qed.

Lemma bounded_bind {A B} (n m : nat) (c : M A) (k : A -> M B) :
  bounded obs n c -> (forall a, bounded obs m (k a)) ->
  bounded obs (n + m) (bind c k).
Proof.
  intros Hc Hk w. unfold bind. specialize (Hc w).
  destruct (c w) as [[e|a] w1]; cbn [snd] in *; [lia|].
  specialize (Hk a w1). lia.
Qed.

Lemma bounded_if {A} (n : nat) (b : bool) (c1 c2 : M A) :
  bounded obs n c1 -> bounded obs n c2 -> bounded obs n (if b then c1 else c2).
Proof. now destruct b. Qed.

Lemma bounded_with_ctx {A} (a b c : nat) (enter exit : M unit) (body : M A) :
  bounded obs a enter -> bounded obs b exit -> bounded obs c body ->
  bounded obs (a + c + b) (with_ctx enter exit body).
Proof.
  intros He Hx Hb w. unfold with_ctx. specialize (He w).
  destruct (enter w) as [[e|[]] w1]; cbn [snd] in *; [lia|].
  specialize (Hb w1). destruct (body w1) as [r w2]. cbn [snd] in Hb.
  specialize (Hx w2). destruct (exit w2) as [[e|[]] w3]; cbn [snd] in *; lia.
Qed.

End Bounded.

(** The primitives of the backup, seen through an observation that the
    trace and the file system have no part in. *)
Section QuietPrimitives.
Context {X : Type} (obs : World -> X).
Hypothesis obs_log : forall e w, obs (log e w) = obs w.
Hypothesis obs_fs : forall fs w, obs (set_fs fs w) = obs w.

Lemma quiet_emit e : keeps obs (emit e).
Proof. intros w. apply obs_log. Qed.

Lemma quiet_print m : keeps obs (print m).
Proof.
  intros w. destruct (print_snd m w) as [-> | ->]; [reflexivity|apply obs_log].
Qed.

Lemma quiet_git_diff a b : keeps obs (git_diff a b).
Proof. intros w. apply obs_log. Qed.

Lemma quiet_mkdir p : keeps obs (mkdir p).
Proof.
  intros w. unfold mkdir. destruct (makedirs p (w_fs w)); cbn [snd];
    now rewrite ?obs_fs, obs_log.
Qed.

Lemma quiet_copytree src dst : keeps obs (copytree src dst).
Proof.
  intros w. unfold copytree. destruct (copytree_fs src dst (w_fs w)).
  cbn [snd]. now rewrite obs_fs, obs_log.
Qed.

Lemma quiet_open_w p : keeps obs (open_w p).
Proof.
  intros w. unfold open_w. destruct (open_w_fs p (w_fs w)); cbn [snd];
    now rewrite ?obs_fs, obs_log.
Qed.

Lemma quiet_write p data : keeps obs (write p data).
Proof. intros w. unfold write. cbn [snd]. now rewrite obs_fs, obs_log. Qed.

(** The changelog block, given that reading the clock is quiet too. *)
Lemma quiet_write_changelog p analysis diff :
  keeps obs now -> keeps obs (write_changelog p analysis diff).
Proof.
  intros Hnow. unfold write_changelog, close.
  repeat first [ exact Hnow | apply quiet_open_w | apply quiet_write
               | apply quiet_emit | keeps_step ].
Qed.

End QuietPrimitives.

Lemma backup_keeps_remote : keeps w_remote create_backup_with_changelog.
Proof.
  unfold create_backup_with_changelog, analyze_tmdl_changes, materialize_backup.
  repeat first [ apply quiet_git_diff | apply quiet_mkdir | apply quiet_copytree
               | apply quiet_write_changelog | apply quiet_print
               | (intros w; reflexivity) | keeps_step ];
    try (intros; reflexivity).
Qed.

Lemma materialize_keeps_ai_calls analysis diff :
  keeps w_ai_calls (materialize_backup analysis diff).
Proof.
  unfold materialize_backup.
  repeat first [ apply quiet_mkdir | apply quiet_copytree
               | apply quiet_write_changelog | apply quiet_print
               | (intros w; reflexivity) | keeps_step ];
    try (intros; reflexivity).
Qed.

Lemma backup_bounds_ai_calls : bounded w_ai_calls 1 create_backup_with_changelog.
Proof.
  unfold create_backup_with_changelog.
  apply (bounded_bind w_ai_calls 0 1); [apply bounded_of_keeps; now intros w|].
  intros d. apply bounded_if.
  - apply bounded_weaken with (n := 0); [lia|]. apply bounded_of_keeps.
    now intros w.
  - apply (bounded_bind w_ai_calls 1 0).
    + intros w. rewrite analyze_tmdl_changes_eq. cbn. lia.
    + intros a. apply bounded_of_keeps, materialize_keeps_ai_calls.
Qed.

Lemma write_changelog_bounds_clock p analysis diff :
  bounded w_clock_reads 1 (write_changelog p analysis diff).
Proof.
  unfold write_changelog.
  apply (bounded_with_ctx w_clock_reads 0 0 1).
  - apply bounded_of_keeps, quiet_open_w; intros; reflexivity.
  - apply bounded_of_keeps. now intros w.
  - apply (bounded_bind w_clock_reads 1 0); [intros w; cbn; lia|].
    intros stamp. apply bounded_of_keeps.
    repeat first [ apply quiet_write; intros; reflexivity | keeps_step ].
Qed.

Lemma backup_bounds_clock_reads :
  bounded w_clock_reads 2 create_backup_with_changelog.
Proof.
  unfold create_backup_with_changelog.
  apply (bounded_bind w_clock_reads 0 2); [apply bounded_of_keeps; now intros w|].
  intros d. apply bounded_if.
  - apply bounded_weaken with (n := 0); [lia|]. apply bounded_of_keeps.
    now intros w.
  - apply (bounded_bind w_clock_reads 0 2).
    + apply bounded_of_keeps. intros w. now rewrite analyze_tmdl_changes_eq.
    + intros a. unfold materialize_backup.
      apply (bounded_bind w_clock_reads 1 1); [intros w; cbn; lia|].
      intros stamp. cbv zeta.
      apply (bounded_bind w_clock_reads 0 1);
        [apply bounded_of_keeps, quiet_mkdir; intros; reflexivity|].
      intros _.
      apply (bounded_bind w_clock_reads 0 1);
        [apply bounded_of_keeps, quiet_copytree; intros; reflexivity|].
      intros _.
      apply (bounded_bind w_clock_reads 1 0);
        [apply write_changelog_bounds_clock|].
      intros _. apply bounded_of_keeps.
      repeat first [ apply quiet_print; intros; reflexivity | keeps_step ].
Qed.

Lemma auto_document_keeps_clock s conn :
  keeps w_clock_reads (auto_document_measures s conn).
Proof.
  assert (C : forall tool args, keeps w_clock_reads (call_tool s tool args)).
  { intros tool args w. call_tool_cases w; reflexivity. }
  assert (D : forall m acc, keeps w_clock_reads (document_measure s conn m acc)).
  { intros m acc. unfold document_measure.
    repeat first [ apply C | apply quiet_print; intros; reflexivity
                 | (intros w; reflexivity) | keeps_step ]. }
  unfold auto_document_measures, list_measures.
  apply keeps_bind; [repeat first [ apply C | keeps_step ]|].
  intros items. cbv zeta. generalize (@nil pyval).
  induction items as [|m items IH]; intros acc; simpl.
  - apply keeps_ret.
  - apply keeps_bind; [apply D|exact IH].
Qed.

(** X9.  The two phases keep to their own collaborators, however they
    end.  The backup makes no request on the session and does not touch
    the model; it asks the reasoning service at most once and reads the
    clock at most twice.  The documentation phase never reads the clock
    and leaves the repository alone. *)
Theorem phases_keep_to_their_collaborators
  (s : Session) (conn : string) (w : World) :
  let b := snd (create_backup_with_changelog w) in
  let d := snd (auto_document_measures s conn w) in
  w_remote b = w_remote w /\
  w_ai_calls w <= w_ai_calls b <= w_ai_calls w + 1 /\
  w_clock_reads w <= w_clock_reads b <= w_clock_reads w + 2 /\
  w_clock_reads d = w_clock_reads w /\
  w_git d = w_git w.
Proof.
  intros b d.
  split; [apply backup_keeps_remote|].
  split; [apply backup_bounds_ai_calls|].
  split; [apply backup_bounds_clock_reads|].
  split; [apply auto_document_keeps_clock|apply auto_document_measures_git].
Qed.

(* ================================================================== *)
(** * Folder names and capture times *)
(* ================================================================== *)

Lemma compare_append (a c b d : string) :
  String.length a = String.length c ->
  String.compare (a ++ b)%string (c ++ d)%string
  = then_compare (String.compare a c) (String.compare b d).
Proof.
  revert c. induction a as [|x a IH]; intros [|y c] L; simpl in *;
    try discriminate; [reflexivity|].
  injection L as L. destruct (Ascii.compare x y); try reflexivity.
  now apply IH.
Qed.

Lemma compare_digit (n m : nat) :
  Ascii.compare (digit n) (digit m) = Nat.compare (n mod 10) (m mod 10).
Proof.
  assert (Hn : n mod 10 < 10) by (apply Nat.mod_upper_bound; lia).
  assert (Hm : m mod 10 < 10) by (apply Nat.mod_upper_bound; lia).
  unfold Ascii.compare, digit. rewrite N2Nat.inj_compare.
  change (N.to_nat (N_of_ascii ?a)) with (nat_of_ascii a).
  rewrite !nat_ascii_embedding by lia.
  destruct (Nat.compare_spec (n mod 10) (m mod 10));
    [apply Nat.compare_eq_iff|apply Nat.compare_lt_iff|apply Nat.compare_gt_iff];
    lia.
Qed.

Lemma compare_by_digits (n m : nat) :
  then_compare (Nat.compare (n / 10) (m / 10))
               (Nat.compare (n mod 10) (m mod 10))
  = Nat.compare n m.
Proof.
  assert (Hn : n mod 10 < 10) by (apply Nat.mod_upper_bound; lia).
  assert (Hm : m mod 10 < 10) by (apply Nat.mod_upper_bound; lia).
  pose proof (Nat.div_mod_eq n 10) as En.
  pose proof (Nat.div_mod_eq m 10) as Em.
  symmetry.
  destruct (Nat.compare_spec (n / 10) (m / 10)) as [E|L|G]; cbn [then_compare].
  - destruct (Nat.compare_spec (n mod 10) (m mod 10));
      [apply Nat.compare_eq_iff|apply Nat.compare_lt_iff|apply Nat.compare_gt_iff];
      lia.
  - apply Nat.compare_lt_iff. lia.
  - apply Nat.compare_gt_iff. lia.
Qed.

Lemma compare_fix_digits (width n m : nat) :
  String.compare (fix_digits width n) (fix_digits width m)
  = Nat.compare (n mod 10 ^ width) (m mod 10 ^ width).
Proof.
  revert n m. induction width as [|w IH]; intros n m.
  - simpl. reflexivity.
  - cbn [fix_digits].
    rewrite compare_append by now rewrite !fix_digits_length.
    rewrite IH. cbn [String.compare]. rewrite compare_digit.
    assert (E : forall k, k mod 10 ^ S w
                          = 10 * ((k / 10) mod 10 ^ w) + k mod 10).
    { intros k. rewrite Nat.pow_succ_r', Nat.Div0.mod_mul_r. lia. }
    rewrite (E n), (E m).
    assert (B : forall k, k mod 10 < 10) by (intros; apply Nat.mod_upper_bound; lia).
    pose proof (B n). pose proof (B m).
    symmetry.
    destruct (Nat.compare_spec ((n / 10) mod 10 ^ w) ((m / 10) mod 10 ^ w))
      as [Eq|L|G]; cbn [then_compare].
    + rewrite Eq.
      destruct (Nat.compare_spec (n mod 10) (m mod 10));
        [apply Nat.compare_eq_iff|apply Nat.compare_lt_iff|apply Nat.compare_gt_iff];
        lia.
    + apply Nat.compare_lt_iff. lia.
    + apply Nat.compare_gt_iff. lia.
Qed.

Lemma compare_field (width n m : nat) :
  n < 10 ^ width -> m < 10 ^ width ->
  String.compare (fix_digits width n) (fix_digits width m) = Nat.compare n m.
Proof.
  intros Hn Hm. rewrite compare_fix_digits.
  now rewrite !Nat.mod_small by assumption.
Qed.

(** X10.  Folder names sort by capture time: for two time stamps in
    range, the names [YYYYMMDD_HHMMSS] compare, as strings, the way the
    captures compare to the second. *)
Theorem folder_names_sort_by_capture_time (a b : datetime) :
  datetime_ok a -> datetime_ok b ->
  String.compare (strftime_compact a) (strftime_compact b) = datetime_compare a b.
Proof.
  intros (A1 & A2 & A3 & A4 & A5 & A6) (B1 & B2 & B3 & B4 & B5 & B6).
  change 100 with (10 ^ 2) in *.
  unfold strftime_compact, datetime_compare.
  repeat (rewrite compare_append by now rewrite !fix_digits_length).
  rewrite (compare_append "_" "_") by reflexivity.
  repeat (rewrite compare_append by now rewrite !fix_digits_length).
  rewrite !compare_field by assumption.
  reflexivity.
Qed.

Lemma folder_names_sort_witness :
  datetime_ok Sample.noon /\ datetime_ok Sample.noon_and_a_second /\
  String.compare (strftime_compact Sample.noon)
                 (strftime_compact Sample.noon_and_a_second) = Lt.
Proof.
  assert (O1 : datetime_ok Sample.noon) by (vm_compute; lia).
  assert (O2 : datetime_ok Sample.noon_and_a_second) by (vm_compute; lia).
  split; [exact O1|]. split; [exact O2|].
  rewrite (folder_names_sort_by_capture_time _ _ O1 O2). reflexivity.
Defined.
